(** * smart-crop: crop geometry, fixed-size render, crop editor and session

    A shallow embedding of [utils/imageHelpers.ts], [App.tsx], [types.ts] and
    [services/geminiService.ts].

    JavaScript's [number] is abstracted by the class [Number], so that every
    function of the program is written once, in the shape of its source, and
    can be run at two instances:
    - [float], IEEE 754 binary64 (the kernel's primitive floats), the
      arithmetic the program really runs with: concrete calls are
      evaluated at it, and what the crop derivation and the resize keep up
      to rounding is proved at it, from the specification of its
      operations in [SpecFloat];
    - [Q], exact rational arithmetic, at which the algebraic laws hold as
      equalities. *)

From Stdlib Require Import ZArith QArith Qpower Qminmax Qabs Lqa Lia Bool List String Ascii.
From Stdlib Require Import Floats Uint63.
Import ListNotations.

Set Implicit Arguments.

(** ** Numbers *)

Declare Scope num_scope.
Delimit Scope num_scope with num.

Class Number (num : Type) : Type := {
  (** a numeric literal of the source, written as a fraction *)
  lit : Q -> num;
  nadd : num -> num -> num;
  nsub : num -> num -> num;
  nmul : num -> num -> num;
  ndiv : num -> num -> num;
  (** [Math.max(a, b)] *)
  Math_max : num -> num -> num;
  (** [a === b] *)
  strict_eq : num -> num -> bool;
  (** [a < b] and [a <= b] *)
  nlt : num -> num -> bool;
  nle : num -> num -> bool
}.

Arguments lit {num _} _%_Q.

Infix "+" := nadd : num_scope.
Infix "-" := nsub : num_scope.
Infix "*" := nmul : num_scope.
Infix "/" := ndiv : num_scope.
Infix "===" := strict_eq (at level 70, no associativity) : num_scope.
Infix "<?" := nlt : num_scope.
Infix "<=?" := nle : num_scope.

(** Exact arithmetic. *)
#[export] Instance exact : Number Q := {
  lit q := q;
  nadd := Qplus;
  nsub := Qminus;
  nmul := Qmult;
  ndiv := Qdiv;
  Math_max a b := if Qle_bool a b then b else a;
  strict_eq := Qeq_bool;
  nlt a b := negb (Qle_bool b a);
  nle := Qle_bool
}.

(** The integer [z] as a binary64 number (exact below 2^53). *)
Definition float_of_Z (z : Z) : float :=
  match z with
  | Z0 => PrimFloat.zero
  | Zpos _ => PrimFloat.of_uint63 (Uint63.of_Z z)
  | Zneg p => PrimFloat.opp (PrimFloat.of_uint63 (Uint63.of_Z (Zpos p)))
  end.

(** [Math.max] on binary64: NaN when an argument is NaN, and +0 above -0. *)
Definition float_max (a b : float) : float :=
  if PrimFloat.is_nan a || PrimFloat.is_nan b then PrimFloat.nan
  else if PrimFloat.ltb a b then b
  else if PrimFloat.ltb b a then a
  else match PrimFloat.classify a with
       | NZero => b
       | _ => a
       end.

(** IEEE 754 binary64: every operation rounds to nearest, ties to even; a
    decimal literal [n/d] denotes the binary64 number nearest to it, which
    for the literals of this program is the correctly rounded quotient. *)
#[export] Instance binary64 : Number float := {
  lit q := PrimFloat.div (float_of_Z (Qnum q)) (float_of_Z (Zpos (Qden q)));
  nadd := PrimFloat.add;
  nsub := PrimFloat.sub;
  nmul := PrimFloat.mul;
  ndiv := PrimFloat.div;
  Math_max := float_max;
  strict_eq := PrimFloat.eqb;
  nlt := PrimFloat.ltb;
  nle := PrimFloat.leb
}.

(** ** Binary64 numbers as rational numbers

    The kernel's [float] is IEEE 754 binary64, specified by [SpecFloat]:
    [Prim2SF] gives the sign, the mantissa and the exponent of a number, and
    every operation is the function of [SpecFloat] on them, which rounds
    the exact result to nearest, ties to even. *)

Definition pow2 (e : Z) : Q := Qpower 2 e.

(** The rational number that a finite [spec_float] is; 0 for the others. *)
Definition SF2Q (f : spec_float) : Q :=
  match f with
  | S754_finite s m e =>
      if s then - (inject_Z (Zpos m) * pow2 e) else inject_Z (Zpos m) * pow2 e
  | _ => 0
  end.

Definition SFfinite (f : spec_float) : bool :=
  match f with
  | S754_finite _ _ _ | S754_zero _ => true
  | _ => false
  end.

(** A binary64 number that is neither infinite nor NaN, and its value. *)
Definition finite (f : float) : Prop := SFfinite (Prim2SF f) = true.

Definition value (f : float) : Q := SF2Q (Prim2SF f).

(** The unit roundoff of binary64, [2^-53], and half of its smallest
    positive number, [2^-1075]. *)
Definition unit_roundoff : Q := pow2 (-53).

Definition half_least : Q := pow2 (-1075).

Definition signed (s : bool) (a : Q) : Q := if s then - a else a.

(** What a shift record of [SpecFloat] says of the number [v] that is
    being shifted: its integer part, whether the half is reached, and
    whether more is left. *)
Definition represents (r : shr_record) (v : Q) : Prop :=
  let m := inject_Z (shr_m r) in
  match shr_r r, shr_s r with
  | false, false => v == m
  | false, true => m < v /\ v < m + (1 # 2)
  | true, false => v == m + (1 # 2)
  | true, true => m + (1 # 2) < v /\ v < m + 1
  end.

(** The outcome of rounding to [k] units of [2^E], of sign [s]. *)
Definition rounded (s : bool) (k E : Z) : spec_float :=
  match k with
  | Z0 => S754_zero s
  | Zpos p =>
      if (k =? 2 ^ 53)%Z then
        if (E + 1 <=? 971)%Z then S754_finite s (2 ^ 52) (E + 1) else S754_infinity s
      else
        if (E <=? 971)%Z then S754_finite s p E else S754_infinity s
  | Zneg _ => S754_nan
  end.

(** ** Data model ([types.ts]) *)

Record BoundingBox (num : Type) : Type := {
  ymin : num;
  xmin : num;
  ymax : num;
  xmax : num
}.

Record CropRect (num : Type) : Type := {
  x : num;
  y : num;
  size : num
}.

Record GarmentDetails (num : Type) : Type := {
  box : BoundingBox num;
  (** the parsed response is cast unchecked, and [processImage] falls back
      to [box] when the texture box is missing *)
  textureBox : option (BoundingBox num);
  texture : string;
  color : string
}.

Inductive AppState : Type :=
  | IDLE | ANALYZING | CROPPING | EDITING | SUCCESS | ERROR.

(** ** Crop-rectangle derivation ([imageHelpers.ts]) *)

Section Geometry.
Context {num : Type} `{Number num}.
Local Open Scope num_scope.

Definition paddingPercent : num := lit 0.1.

Definition calculateSmartCrop
    (box : BoundingBox num) (imgWidth imgHeight : num) : CropRect num :=
  (* Convert normalized coordinates (0-1000) to pixels *)
  let rawYmin := (ymin box / lit 1000) * imgHeight in
  let rawXmin := (xmin box / lit 1000) * imgWidth in
  let rawYmax := (ymax box / lit 1000) * imgHeight in
  let rawXmax := (xmax box / lit 1000) * imgWidth in
  let width := rawXmax - rawXmin in
  let height := rawYmax - rawYmin in
  (* Find center *)
  let centerX := rawXmin + width / lit 2 in
  let centerY := rawYmin + height / lit 2 in
  (* Determine size (largest dimension + padding) *)
  let baseSize := Math_max width height in
  let size := baseSize * (lit 1 + paddingPercent) in
  (* Calculate top-left corner to center the crop *)
  let x := centerX - size / lit 2 in
  let y := centerY - size / lit 2 in
  {| x := x; y := y; size := size |}.

(** The box in pixel units, as the first lines of [calculateSmartCrop]
    compute it. *)
Definition pixelWidth (box : BoundingBox num) (imgWidth : num) : num :=
  (xmax box / lit 1000) * imgWidth - (xmin box / lit 1000) * imgWidth.

Definition pixelHeight (box : BoundingBox num) (imgHeight : num) : num :=
  (ymax box / lit 1000) * imgHeight - (ymin box / lit 1000) * imgHeight.
End Geometry.

(** ** Promises and exceptions

    An awaited promise either resolves to a value or rejects with an error;
    of an error the program reads only [message], which an [Event] passed to
    [reject] by [loadImage] or [fileToBase64] does not have. *)

Inductive result (A : Type) : Type :=
  | Ok (a : A)
  | Throw (message : option string).

Arguments Ok {A} a.
Arguments Throw {A} message.

Definition result_bind {A B : Type} (r : result A) (k : A -> result B) : result B :=
  match r with
  | Ok a => k a
  | Throw m => Throw m
  end.

(** [value || fallback] on a possibly missing string: the empty string is
    falsy as well. *)
Definition or_else (value : option string) (fallback : string) : string :=
  match value with
  | Some EmptyString | None => fallback
  | Some s => s
  end.

(** ** The canvas ([CanvasRenderingContext2D], after the HTML standard) *)

Record Colour : Type := {
  red : Z;
  green : Z;
  blue : Z;
  alpha : Z
}.

(** ['#FFFFFF'] *)
Definition white : Colour := {| red := 255; green := 255; blue := 255; alpha := 255 |}.

Definition transparent_black : Colour := {| red := 0; green := 0; blue := 0; alpha := 0 |}.

Record HTMLImageElement (num : Type) : Type := {
  naturalWidth : num;
  naturalHeight : num;
  (** the image resampled at a point of its area, composited over the colour
      that the output bitmap holds there *)
  paint : num -> num -> Colour -> Colour
}.

(** The output bitmap holds a colour for each pixel [(i, j)] with
    [0 <= i < canvas_width] and [0 <= j < canvas_height]. *)
Record Canvas : Type := {
  canvas_width : Z;
  canvas_height : Z;
  bitmap : Z -> Z -> Colour
}.

(** [document.createElement('canvas')] *)
Definition createCanvas : Canvas :=
  {| canvas_width := 300; canvas_height := 150; bitmap := fun _ _ => transparent_black |}.

(** Assignments to [canvas.width] and [canvas.height]: the bitmap is cleared. *)
Definition setCanvasSize (w h : Z) (c : Canvas) : Canvas :=
  {| canvas_width := w; canvas_height := h; bitmap := fun _ _ => transparent_black |}.

Section Render.
Context {num : Type} `{Number num}.
Local Open Scope num_scope.

(** Center of the pixel of index [i], in canvas units. *)
Definition pixelCentre (i : Z) : num := lit (inject_Z i + (1 # 2)).

(** Whether the point [p] lies in the side of a rectangle that starts at
    [a] and extends by [w], which may be negative. *)
Definition covers (a w p : num) : bool :=
  if lit 0 <=? w then (a <=? p) && (p <? a + w)
  else (a + w <=? p) && (p <? a).

Definition insideImage (img : HTMLImageElement num) (u v : num) : bool :=
  (lit 0 <=? u) && (u <? naturalWidth img) && (lit 0 <=? v) && (v <? naturalHeight img).

(** [ctx.fillRect(x, y, w, h)] with an opaque [fillStyle]. *)
Definition fillRect (fillStyle : Colour) (x y w h : num) (c : Canvas) : Canvas :=
  {| canvas_width := canvas_width c;
     canvas_height := canvas_height c;
     bitmap := fun i j =>
       if covers x w (pixelCentre i) && covers y h (pixelCentre j)
       then fillStyle
       else bitmap c i j |}.

(** The side of a rectangle that starts at [a] and extends by [w], as its
    lower end and its length: a rectangle given with a negative width or
    height is the rectangle with the same four corners. *)
Definition normalise (a w : num) : num * num :=
  if lit 0 <=? w then (a, w) else (a + w, lit 0 - w).

(** The point of the side [(a, w)] of the source rectangle that the point
    [p] of the side [(b, l)] of the destination rectangle shows: the image
    is processed in its original direction, also when a width or height is
    negative. *)
Definition sourcePoint (a w b l p : num) : num :=
  let '(start, extent) := normalise a w in
  let '(first, length) := normalise b l in
  start + ((p - first) * extent) / length.

(** [ctx.drawImage(img, sx, sy, sw, sh, dx, dy, dw, dh)]: nothing is
    painted when [sw] or [sh] is zero; the source rectangle is clipped to
    the image and the destination rectangle in the same proportion, so a
    pixel of the destination is painted only when the point of the source
    rectangle it shows is a point of the image. *)
Definition drawImage (img : HTMLImageElement num)
    (sx sy sw sh dx dy dw dh : num) (c : Canvas) : Canvas :=
  if (sw === lit 0) || (sh === lit 0) then c
  else
    {| canvas_width := canvas_width c;
       canvas_height := canvas_height c;
       bitmap := fun i j =>
         if covers dx dw (pixelCentre i) && covers dy dh (pixelCentre j) then
           let u := sourcePoint sx sw dx dw (pixelCentre i) in
           let v := sourcePoint sy sh dy dh (pixelCentre j) in
           if insideImage img u v then paint img u v (bitmap c i j)
           else bitmap c i j
         else bitmap c i j |}.

(** The canvas that [performCrop] encodes: its statements between
    [getContext] and [toDataURL]. *)
Definition renderCrop (img : HTMLImageElement num) (crop : CropRect num)
    (outputSize : Z) : Canvas :=
  let canvas := createCanvas in
  let canvas := setCanvasSize outputSize outputSize canvas in
  let out := lit (inject_Z outputSize) in
  (* Fill with white background for JPEG *)
  let canvas := fillRect white (lit 0) (lit 0) out out canvas in
  drawImage img
    (x crop) (y crop) (size crop) (size crop) (* Source *)
    (lit 0) (lit 0) out out                   (* Destination *)
    canvas.
End Render.

(** ** The environment: file reader, image decoder, canvas, remote model *)

Record File : Type := {
  name : string;
  bytes : string
}.

Record Browser (num : Type) : Type := {
  (** [FileReader.readAsDataURL]: [None] when [onerror] fires *)
  readAsDataURL : File -> option string;
  (** decoding of an [Image] from its [src]: [None] when [onerror] fires *)
  decodeImage : string -> option (HTMLImageElement num);
  (** whether [canvas.getContext('2d')] returns a context *)
  getContext : bool;
  (** [canvas.toDataURL('image/jpeg', 0.95)] *)
  toDataURL : Canvas -> string;
  (** [ai.models.generateContent] on the image data: [None] when the call
      throws, else the [text] of the response, if any *)
  generateContent : option string -> option (option string);
  (** [JSON.parse] read as [GarmentDetails]: [None] when it throws *)
  JSON_parse : string -> option (GarmentDetails num)
}.

Section Helpers.
Context {num : Type} `{Number num}.
Variable env : Browser num.

Definition fileToBase64 (file : File) : result string :=
  match readAsDataURL env file with
  | Some dataUrl => Ok dataUrl
  | None => Throw None
  end.

Definition loadImage (src : string) : result (HTMLImageElement num) :=
  match decodeImage env src with
  | Some img => Ok img
  | None => Throw None
  end.

Definition performCrop (imageSrc : string) (crop : CropRect num)
    (outputSize : Z) : result string :=
  result_bind (loadImage imageSrc) (fun img =>
  if getContext env
  then Ok (toDataURL env (renderCrop img crop outputSize))
  else Throw (Some "Could not get canvas context"%string)).

Definition cropAndResizeImage (imageSrc : string) (box : BoundingBox num)
    (outputSize : Z) : result string :=
  result_bind (loadImage imageSrc) (fun img =>
  let rect := calculateSmartCrop box (naturalWidth img) (naturalHeight img) in
  performCrop imageSrc rect outputSize).
End Helpers.

(** ** Garment detection ([services/geminiService.ts]) *)

(** [s.split(sep)] for a one-character separator. *)
Fixpoint split (sep : ascii) (s : string) : list string :=
  match s with
  | EmptyString => [EmptyString]
  | String c rest =>
      match split sep rest with
      | [] => [String c EmptyString]
      | piece :: pieces =>
          if Ascii.eqb c sep then EmptyString :: piece :: pieces
          else String c piece :: pieces
      end
  end.

Definition detectionFailed : string :=
  "Failed to detect garment details. Please try a clearer image.".

Section Detection.
Context {num : Type} `{Number num}.
Variable env : Browser num.

(** Whatever goes wrong inside the [try] block is caught and thrown again
    as the one generic error. *)
Definition detectGarment (base64Image : string) : result (GarmentDetails num) :=
  let base64Data := nth_error (split "," base64Image) 1 in
  match generateContent env base64Data with
  | None => Throw (Some detectionFailed)
  | Some None | Some (Some EmptyString) => Throw (Some detectionFailed)
  | Some (Some jsonText) =>
      match JSON_parse env jsonText with
      | None => Throw (Some detectionFailed)
      | Some details => Ok details
      end
  end.
End Detection.

(** ** Interactive crop editor ([CropEditor] in [App.tsx]) *)

Record Point (num : Type) : Type := {
  px : num;
  py : num
}.

Record Editor (num : Type) : Type := {
  imgElement : option (HTMLImageElement num);
  (** crop state in natural image pixels *)
  crop : CropRect num;
  isDragging : bool;
  (** mouse position at mouse-down *)
  dragStart : Point num;
  (** crop position at mouse-down *)
  startCropPos : Point num
}.

Inductive EditorEvent (num : Type) : Type :=
  | MouseDown (clientX clientY : num)
  (** a [mousemove] on the window; [container] is the width of
      [containerRef.current.getBoundingClientRect()], if the ref is set *)
  | MouseMove (clientX clientY : num) (container : option num)
  | MouseUp
  (** the slider's [change] event with [Number(e.target.value)] *)
  | SizeChange (value : num)
  (** the image's [load] event *)
  | ImgLoad (img : HTMLImageElement num).

Arguments MouseUp {num}.

Section CropEditor.
Context {num : Type} `{Number num}.
Local Open Scope num_scope.

(** The component's state when it mounts with the prop [initialCrop]. *)
Definition mountEditor (initialCrop : CropRect num) : Editor num :=
  {| imgElement := None;
     crop := initialCrop;
     isDragging := false;
     dragStart := {| px := lit 0; py := lit 0 |};
     startCropPos := {| px := lit 0; py := lit 0 |} |}.

(** [setCrop(prev => f(prev))] *)
Definition setCrop (f : CropRect num -> CropRect num) (ed : Editor num) : Editor num :=
  {| imgElement := imgElement ed;
     crop := f (crop ed);
     isDragging := isDragging ed;
     dragStart := dragStart ed;
     startCropPos := startCropPos ed |}.

Definition handleMouseDown (clientX clientY : num) (ed : Editor num) : Editor num :=
  {| imgElement := imgElement ed;
     crop := crop ed;
     isDragging := true;
     dragStart := {| px := clientX; py := clientY |};
     startCropPos := {| px := x (crop ed); py := y (crop ed) |} |}.

Definition handleMouseMove (clientX clientY : num) (container : option num)
    (ed : Editor num) : Editor num :=
  match isDragging ed, imgElement ed, container with
  | true, Some img, Some rect_width =>
      let deltaX := clientX - px (dragStart ed) in
      let deltaY := clientY - py (dragStart ed) in
      (* Convert screen pixels to image natural pixels *)
      if rect_width === lit 0 then ed
      else
        let scale := naturalWidth img / rect_width in
        setCrop (fun prev =>
          {| x := px (startCropPos ed) + (deltaX * scale);
             y := py (startCropPos ed) + (deltaY * scale);
             size := size prev |}) ed
  | _, _, _ => ed
  end.

Definition handleMouseUp (ed : Editor num) : Editor num :=
  {| imgElement := imgElement ed;
     crop := crop ed;
     isDragging := false;
     dragStart := dragStart ed;
     startCropPos := startCropPos ed |}.

(** The handler reads [crop.size] of the render it belongs to, which is
    the state the update is applied to: every change of [size] is rendered
    before the next event of the slider is handled. *)
Definition handleSizeChange (value : num) (ed : Editor num) : Editor num :=
  match imgElement ed with
  | None => ed
  | Some _ =>
      let newSize := value in
      (* When resizing, keep center fixed *)
      let oldCenter := size (crop ed) / lit 2 in
      let newCenter := newSize / lit 2 in
      let offset := oldCenter - newCenter in
      setCrop (fun prev =>
        {| x := x prev + offset;
           y := y prev + offset;
           size := newSize |}) ed
  end.

Definition onImgLoad (img : HTMLImageElement num) (ed : Editor num) : Editor num :=
  {| imgElement := Some img;
     crop := crop ed;
     isDragging := isDragging ed;
     dragStart := dragStart ed;
     startCropPos := startCropPos ed |}.

Definition editorStep (ed : Editor num) (e : EditorEvent num) : Editor num :=
  match e with
  | MouseDown clientX clientY => handleMouseDown clientX clientY ed
  | MouseMove clientX clientY container => handleMouseMove clientX clientY container ed
  | MouseUp => handleMouseUp ed
  | SizeChange value => handleSizeChange value ed
  | ImgLoad img => onImgLoad img ed
  end.

Definition editorRun (ed : Editor num) (es : list (EditorEvent num)) : Editor num :=
  fold_left editorStep es ed.

(** The events of a drag: mouse down, mouse moves, mouse up. *)
Definition isDragEvent (e : EditorEvent num) : bool :=
  match e with
  | MouseDown _ _ | MouseMove _ _ _ | MouseUp => true
  | SizeChange _ | ImgLoad _ => false
  end.
End CropEditor.

(** ** File names *)

Local Open Scope string_scope.

(** A character of the class [[^/.]]. *)
Definition isExtensionChar (c : ascii) : bool :=
  negb (Ascii.eqb c "/") && negb (Ascii.eqb c ".").

Fixpoint allExtensionChars (s : string) : bool :=
  match s with
  | EmptyString => true
  | String c rest => isExtensionChar c && allExtensionChars rest
  end.

(** Whether [/\.[^/.]+$/] matches at the start of [s]: a dot, then one or
    more characters other than ['/'] and ['.'], then the end of the input. *)
Definition matchesExtension (s : string) : bool :=
  match s with
  | String "." (String c rest) => isExtensionChar c && allExtensionChars rest
  | _ => false
  end.

(** [s.replace(/\.[^/.]+$/, "")]: the leftmost match, which runs to the end
    of the input, is replaced by the empty string. *)
Fixpoint stripExtension (s : string) : string :=
  if matchesExtension s then EmptyString
  else match s with
       | EmptyString => EmptyString
       | String c rest => String c (stripExtension rest)
       end.

(** A character of the class [[a-zA-Z0-9-]]. *)
Definition isAlnumOrHyphen (c : ascii) : bool :=
  let n := nat_of_ascii c in
  ((97 <=? n) && (n <=? 122)          (* a-z *)
   || (65 <=? n) && (n <=? 90)        (* A-Z *)
   || (48 <=? n) && (n <=? 57)        (* 0-9 *)
   || (n =? 45))%nat.                 (* - *)

(** [s.replace(/[^a-zA-Z0-9-]/g, '')] *)
Fixpoint sanitize (s : string) : string :=
  match s with
  | EmptyString => EmptyString
  | String c rest =>
      if isAlnumOrHyphen c then String c (sanitize rest) else sanitize rest
  end.

(** ** The application ([App] in [App.tsx]) *)

Record App (num : Type) : Type := {
  appState : AppState;
  sourceImage : option string;
  croppedImage : option string;
  garmentDetails : option (GarmentDetails num);
  currentCrop : option (CropRect num);
  errorMsg : option string;
  originalFileName : string
}.

(** The [download] link that [handleDownload] clicks. *)
Record Anchor : Type := {
  href : string;
  download : string
}.

(** Whether a string state is truthy: neither [null] nor empty. *)
Definition truthy (s : option string) : bool :=
  match s with
  | Some (String _ _) => true
  | _ => false
  end.

Section Application.
Context {num : Type} `{Number num}.
Variable env : Browser num.

Definition initialApp : App num :=
  {| appState := IDLE; sourceImage := None; croppedImage := None;
     garmentDetails := None; currentCrop := None; errorMsg := None;
     originalFileName := "smart-crop" |}.

(** *** State and exceptions

    A handler is a computation over the session state that ends normally
    or by an exception; what it wrote to the state before an exception
    stays written. *)
Definition M (A : Type) : Type := App num -> App num * result A.

Definition ret {A : Type} (a : A) : M A := fun s => (s, Ok a).

Definition bind {A B : Type} (m : M A) (k : A -> M B) : M B :=
  fun s =>
    match m s with
    | (s', Ok a) => k a s'
    | (s', Throw e) => (s', Throw e)
    end.

(** [await] of a promise that has settled with [r]. *)
Definition await {A : Type} (r : result A) : M A := fun s => (s, r).

(** [try { body } catch (err) { handler(err.message) }] *)
Definition try_catch {A : Type} (body : M A) (handler : option string -> M A) : M A :=
  fun s =>
    match body s with
    | (s', Ok a) => (s', Ok a)
    | (s', Throw e) => handler e s'
    end.

Definition modify (f : App num -> App num) : M unit := fun s => (f s, Ok tt).

Definition exec {A : Type} (m : M A) (s : App num) : App num := fst (m s).

Definition setAppState (v : AppState) : M unit := modify (fun s =>
  {| appState := v; sourceImage := sourceImage s; croppedImage := croppedImage s;
     garmentDetails := garmentDetails s; currentCrop := currentCrop s;
     errorMsg := errorMsg s; originalFileName := originalFileName s |}).

Definition setSourceImage (v : option string) : M unit := modify (fun s =>
  {| appState := appState s; sourceImage := v; croppedImage := croppedImage s;
     garmentDetails := garmentDetails s; currentCrop := currentCrop s;
     errorMsg := errorMsg s; originalFileName := originalFileName s |}).

Definition setCroppedImage (v : option string) : M unit := modify (fun s =>
  {| appState := appState s; sourceImage := sourceImage s; croppedImage := v;
     garmentDetails := garmentDetails s; currentCrop := currentCrop s;
     errorMsg := errorMsg s; originalFileName := originalFileName s |}).

Definition setGarmentDetails (v : option (GarmentDetails num)) : M unit := modify (fun s =>
  {| appState := appState s; sourceImage := sourceImage s; croppedImage := croppedImage s;
     garmentDetails := v; currentCrop := currentCrop s;
     errorMsg := errorMsg s; originalFileName := originalFileName s |}).

Definition setCurrentCrop (v : option (CropRect num)) : M unit := modify (fun s =>
  {| appState := appState s; sourceImage := sourceImage s; croppedImage := croppedImage s;
     garmentDetails := garmentDetails s; currentCrop := v;
     errorMsg := errorMsg s; originalFileName := originalFileName s |}).

Definition setErrorMsg (v : option string) : M unit := modify (fun s =>
  {| appState := appState s; sourceImage := sourceImage s; croppedImage := croppedImage s;
     garmentDetails := garmentDetails s; currentCrop := currentCrop s;
     errorMsg := v; originalFileName := originalFileName s |}).

Definition setOriginalFileName (v : string) : M unit := modify (fun s =>
  {| appState := appState s; sourceImage := sourceImage s; croppedImage := croppedImage s;
     garmentDetails := garmentDetails s; currentCrop := currentCrop s;
     errorMsg := errorMsg s; originalFileName := v |}).

Notation "a <- m ;; k" := (bind m (fun a => k))
  (at level 61, m at next level, right associativity).
Notation "m ;; k" := (bind m (fun _ => k))
  (at level 61, right associativity).

(** *** Handlers *)

Definition processImage (base64 : string) : M unit :=
  try_catch
    ((* Step 1: Detect *)
     details <- await (detectGarment env base64) ;;
     setGarmentDetails (Some details) ;;
     setAppState CROPPING ;;
     (* Step 2: Calculate Smart Crop *)
     img <- await (loadImage env base64) ;;
     let targetBox :=
       match textureBox details with
       | Some b => b
       | None => box details
       end in
     let smartCrop :=
       calculateSmartCrop targetBox (naturalWidth img) (naturalHeight img) in
     setCurrentCrop (Some smartCrop) ;;
     (* Step 3: Perform Crop *)
     resultUrl <- await (performCrop env base64 smartCrop 1024) ;;
     setCroppedImage (Some resultUrl) ;;
     setAppState SUCCESS)
    (fun message =>
       setErrorMsg (Some (or_else message "Failed to process image.")) ;;
       setAppState ERROR).

Definition handleFileUpload (file : option File) : M unit :=
  match file with
  | None => ret tt
  | Some file =>
      setAppState ANALYZING ;;
      setCroppedImage None ;;
      setGarmentDetails None ;;
      setCurrentCrop None ;;
      setErrorMsg None ;;
      (* Store original name without extension *)
      let name := stripExtension (name file) in
      setOriginalFileName name ;;
      try_catch
        (base64 <- await (fileToBase64 env file) ;;
         setSourceImage (Some base64) ;;
         processImage base64)
        (fun _ =>
           setErrorMsg (Some "Failed to load image file.") ;;
           setAppState ERROR)
  end.

Definition handleManualCropConfirm (newCrop : CropRect num) : M unit :=
  fun s =>
    match sourceImage s with
    | Some (String _ _ as src) =>
        try_catch
          (setAppState CROPPING ;;
           setCurrentCrop (Some newCrop) ;;
           resultUrl <- await (performCrop env src newCrop 1024) ;;
           setCroppedImage (Some resultUrl) ;;
           setAppState SUCCESS)
          (fun _ => setErrorMsg (Some "Failed to apply manual crop"))
          s
    | _ => ret tt s
    end.

(** The link that is clicked, if any. *)
Definition handleDownload (s : App num) : option Anchor :=
  match croppedImage s with
  | Some (String _ _ as url) =>
      (* Construct filename: name_color.jpg *)
      let colorPart :=
        match garmentDetails s with
        | Some details =>
            match color details with
            | EmptyString => ""
            | c => "_" ++ sanitize c
            end
        | None => ""
        end in
      Some {| href := url; download := originalFileName s ++ colorPart ++ ".jpg" |}
  | _ => None
  end.

Definition handleReset : M unit :=
  setAppState IDLE ;;
  setSourceImage None ;;
  setCroppedImage None ;;
  setGarmentDetails None ;;
  setCurrentCrop None ;;
  setErrorMsg None ;;
  setOriginalFileName "smart-crop".

(** *** The editor overlay *)

(** The props of the [CropEditor] that [App] renders, if it renders one:
    [appState === EDITING && sourceImage && currentCrop]. *)
Definition editorOverlay (a : App num) : option (string * CropRect num) :=
  match appState a, sourceImage a, currentCrop a with
  | EDITING, Some (String _ _ as src), Some c => Some (src, c)
  | _, _, _ => None
  end.

(** The session: the state of [App] and of the [CropEditor] it has
    mounted. *)
Record Session : Type := {
  app : App num;
  editor : option (Editor num)
}.

(** A render of [App]: the editor is unmounted, kept, or mounted with
    [initialCrop = currentCrop]. *)
Definition render (a : App num) (mounted : option (Editor num)) : Session :=
  {| app := a;
     editor :=
       match editorOverlay a with
       | None => None
       | Some (_, c) =>
           match mounted with
           | Some ed => Some ed
           | None => Some (mountEditor c)
           end
       end |}.

Inductive UiEvent : Type :=
  (** the button "Adjust Crop", shown when there is a cropped image *)
  | AdjustCrop
  (** an event of the mounted editor *)
  | Edit (e : EditorEvent num)
  (** the editor's buttons "Cancel" and "Apply Crop" *)
  | Cancel
  | Confirm.

Definition onCancel : M unit := setAppState SUCCESS.

Definition sessionStep (s : Session) (e : UiEvent) : Session :=
  match e, editor s with
  | AdjustCrop, mounted =>
      if truthy (croppedImage (app s))
      then render (exec (setAppState EDITING) (app s)) mounted
      else s
  | Edit e, Some ed => {| app := app s; editor := Some (editorStep ed e) |}
  | Cancel, Some ed => render (exec onCancel (app s)) (Some ed)
  | Confirm, Some ed =>
      render (exec (handleManualCropConfirm (crop ed)) (app s)) (Some ed)
  | _, None => s
  end.

Definition sessionRun (s : Session) (es : list UiEvent) : Session :=
  fold_left sessionStep es s.
End Application.

(** ** The editor's overlay ([getStyle] in [CropEditor]) *)


Section CropEditorView.
Context {num : Type} `{Number num}.
Local Open Scope num_scope.

End CropEditorView.

(** ** The controls of [App] *)

Section Controls.
Context {num : Type} `{Number num}.
Variable env : Browser num.

(** The file input is [disabled] unless the state is [IDLE] or [ERROR]. *)
Definition uploadEnabled (a : App num) : bool :=
  match appState a with
  | IDLE | ERROR => true
  | _ => false
  end.

(** The reset button is [disabled] in the state [IDLE]; "Try Again" is
    shown in the state [ERROR]. *)
Definition resetEnabled (a : App num) : bool :=
  match appState a with
  | IDLE => false
  | _ => true
  end.

Inductive AppEvent : Type :=
  (** the [change] event of the file input, with [e.target.files?.[0]] *)
  | Upload (file : option File)
  (** a click on the reset button or on "Try Again" *)
  | Reset
  (** the events of the result panel and of the editor *)
  | Ui (e : UiEvent (num := num)).

(** One event, its handler run to its end, and the render that follows. *)
Definition appStep (s : Session (num := num)) (e : AppEvent) : Session (num := num) :=
  match e with
  | Upload file =>
      if uploadEnabled (app s)
      then render (exec (handleFileUpload env file) (app s)) (editor s)
      else s
  | Reset =>
      if resetEnabled (app s)
      then render (exec handleReset (app s)) (editor s)
      else s
  | Ui e => sessionStep env s e
  end.

Definition appRun (s : Session (num := num)) (es : list AppEvent) : Session (num := num) :=
  fold_left appStep es s.

(** The first render. *)
Definition initialSession : Session (num := num) := render initialApp None.
End Controls.

(** ** Handlers between their awaits

    An [async] handler runs up to its first [await] when it is called, and
    from one [await] to the next when the awaited promise settles; other
    events may be handled in between. *)

Section Stages.
Context {num : Type} `{Number num}.
Variable env : Browser num.

Local Notation "a <- m ;; k" := (bind m (fun a => k))
  (at level 61, m at next level, right associativity).
Local Notation "m ;; k" := (bind m (fun _ => k))
  (at level 61, right associativity).

(** Where a handler waits, with the variables that the rest of it reads. *)
Inductive Pending : Type :=
  (** [handleFileUpload] at [await fileToBase64(file)] *)
  | ReadingFile (file : File)
  (** [processImage] at [await detectGarment(base64)] *)
  | Detecting (base64 : string)
  (** [processImage] at [await loadImage(base64)] *)
  | LoadingImage (base64 : string) (details : GarmentDetails num)
  (** [processImage] at [await performCrop(base64, smartCrop, 1024)] *)
  | Cropping (base64 : string) (smartCrop : CropRect num)
  (** [handleManualCropConfirm] at [await performCrop(sourceImage, newCrop, 1024)] *)
  | CroppingManually (src : string) (newCrop : CropRect num).

(** The [catch] block of [processImage]. *)
Definition processImageFailed (message : option string) : M (num := num) (option Pending) :=
  setErrorMsg (Some (or_else message "Failed to process image.")) ;;
  setAppState ERROR ;;
  ret None.

(** [handleFileUpload] up to its [await]. *)
Definition startUpload (file : option File) : M (num := num) (option Pending) :=
  match file with
  | None => ret None
  | Some file =>
      setAppState ANALYZING ;;
      setCroppedImage None ;;
      setGarmentDetails None ;;
      setCurrentCrop None ;;
      setErrorMsg None ;;
      let name := stripExtension (name file) in
      setOriginalFileName name ;;
      ret (Some (ReadingFile file))
  end.

(** [handleManualCropConfirm] up to its [await]. *)
Definition startManualCrop (newCrop : CropRect num) : M (num := num) (option Pending) :=
  fun s =>
    match sourceImage s with
    | Some (String _ _ as src) =>
        (setAppState CROPPING ;;
         setCurrentCrop (Some newCrop) ;;
         ret (Some (CroppingManually src newCrop))) s
    | _ => ret None s
    end.

(** The statements that run when the promise awaited at [p] settles, up
    to the next [await] or to the end of the handler. *)
Definition resume (p : Pending) : M (num := num) (option Pending) :=
  match p with
  | ReadingFile file =>
      match fileToBase64 env file with
      | Ok base64 =>
          setSourceImage (Some base64) ;;
          ret (Some (Detecting base64))
      | Throw _ =>
          setErrorMsg (Some "Failed to load image file.") ;;
          setAppState ERROR ;;
          ret None
      end
  | Detecting base64 =>
      match detectGarment env base64 with
      | Ok details =>
          setGarmentDetails (Some details) ;;
          setAppState CROPPING ;;
          ret (Some (LoadingImage base64 details))
      | Throw message => processImageFailed message
      end
  | LoadingImage base64 details =>
      match loadImage env base64 with
      | Ok img =>
          let targetBox :=
            match textureBox details with
            | Some b => b
            | None => box details
            end in
          let smartCrop :=
            calculateSmartCrop targetBox (naturalWidth img) (naturalHeight img) in
          setCurrentCrop (Some smartCrop) ;;
          ret (Some (Cropping base64 smartCrop))
      | Throw message => processImageFailed message
      end
  | Cropping base64 smartCrop =>
      match performCrop env base64 smartCrop 1024 with
      | Ok resultUrl =>
          setCroppedImage (Some resultUrl) ;;
          setAppState SUCCESS ;;
          ret None
      | Throw message => processImageFailed message
      end
  | CroppingManually src newCrop =>
      match performCrop env src newCrop 1024 with
      | Ok resultUrl =>
          setCroppedImage (Some resultUrl) ;;
          setAppState SUCCESS ;;
          ret None
      | Throw _ =>
          setErrorMsg (Some "Failed to apply manual crop") ;;
          ret None
      end
  end.

(** The place where the handler waits next, if it does. *)
Definition waitsAt (r : result (option Pending)) : list Pending :=
  match r with
  | Ok (Some p) => [p]
  | _ => []
  end.

(** A handler that is called, or resumed, and then left alone until it
    ends: [fuel] bounds the number of its awaits. *)
Fixpoint settleAll (fuel : nat) (step : App num * result (option Pending)) : App num :=
  match fuel, step with
  | S fuel, (a, Ok (Some p)) => settleAll fuel (resume p a)
  | _, (a, _) => a
  end.

(** The session with the handlers that wait. *)
Record Live : Type := {
  session : Session (num := num);
  pending : list Pending
}.

Inductive LiveEvent : Type :=
  (** an event of the user *)
  | User (e : AppEvent (num := num))
  (** the promise awaited by the [n]-th waiting handler settles *)
  | Settle (n : nat).

(** A handler runs up to its next [await], and [App] renders. *)
Definition advance (m : M (num := num) (option Pending)) (before after : list Pending)
    (l : Live) : Live :=
  let (a, r) := m (app (session l)) in
  {| session := render a (editor (session l));
     pending := before ++ waitsAt r ++ after |}.

Definition liveStep (l : Live) (e : LiveEvent) : Live :=
  match e with
  | User (Upload file) =>
      if uploadEnabled (app (session l))
      then advance (startUpload file) (pending l) [] l
      else l
  | User (Ui Confirm) =>
      match editor (session l) with
      | Some ed => advance (startManualCrop (crop ed)) (pending l) [] l
      | None => l
      end
  | User e => {| session := appStep env (session l) e; pending := pending l |}
  | Settle n =>
      match nth_error (pending l) n with
      | Some p => advance (resume p) (firstn n (pending l)) (skipn (S n) (pending l)) l
      | None => l
      end
  end.

Definition liveRun (l : Live) (es : list LiveEvent) : Live :=
  fold_left liveStep es l.

Definition initialLive : Live := {| session := initialSession; pending := [] |}.
End Stages.

(** Whether the character [c] occurs in [s]. *)
Fixpoint occurs (c : ascii) (s : string) : bool :=
  match s with
  | EmptyString => false
  | String d rest => Ascii.eqb d c || occurs c rest
  end.

(** ** Inputs used in examples *)

(** The box [{ymin:100, xmin:200, ymax:500, xmax:600}]. *)
Definition exampleBox {num : Type} `{Number num} : BoundingBox num :=
  {| ymin := lit 100; xmin := lit 200; ymax := lit 500; xmax := lit 600 |}.

(** A box that is a single point, and a box inverted on both axes. *)
Definition pointBox {num : Type} `{Number num} : BoundingBox num :=
  {| ymin := lit 300; xmin := lit 400; ymax := lit 300; xmax := lit 400 |}.

Definition invertedBox {num : Type} `{Number num} : BoundingBox num :=
  {| ymin := lit 500; xmin := lit 600; ymax := lit 100; xmax := lit 200 |}.

(** A box of no width, 400 units high. *)
Definition verticalLineBox {num : Type} `{Number num} : BoundingBox num :=
  {| ymin := lit 100; xmin := lit 200; ymax := lit 500; xmax := lit 200 |}.

(** An image of 2000 x 1500 pixels, opaque black. *)
Definition sampleImage {num : Type} `{Number num} : HTMLImageElement num :=
  {| naturalWidth := lit 2000;
     naturalHeight := lit 1500;
     paint := fun _ _ _ => {| red := 0; green := 0; blue := 0; alpha := 255 |} |}.

(** The editor mounted on the crop [{x:180, y:80, size:440}], once its image
    has loaded. *)
Definition sampleEditor {num : Type} `{Number num} : Editor num :=
  onImgLoad sampleImage (mountEditor {| x := lit 180; y := lit 80; size := lit 440 |}).

(** A drag by (10, 10) screen pixels over an image displayed 1000 pixels
    wide. *)
Definition sampleDrag {num : Type} `{Number num} : list (EditorEvent num) :=
  [ MouseDown (lit 300) (lit 300);
    MouseMove (lit 304) (lit 307) (Some (lit 1000));
    MouseMove (lit 310) (lit 310) (Some (lit 1000));
    MouseUp ].

(** A file [photo.png], and an environment in which every step succeeds
    and the detector reports the colour ["Navy Blue!"]. *)
Definition photo : File := {| name := "photo.png"; bytes := "iVBORw0KGgo=" |}.

Definition sampleDetails {num : Type} `{Number num} : GarmentDetails num :=
  {| box := {| ymin := lit 50; xmin := lit 100; ymax := lit 900; xmax := lit 800 |};
     textureBox := Some exampleBox;
     texture := "Cotton twill";
     color := "Navy Blue!" |}.

Definition sampleBrowser {num : Type} `{Number num} : Browser num :=
  {| readAsDataURL := fun file => Some ("data:image/png;base64," ++ bytes file);
     decodeImage := fun _ => Some sampleImage;
     getContext := true;
     toDataURL := fun _ => "data:image/jpeg;base64,/9j/4AAQ";
     generateContent := fun _ => Some (Some "{}");
     JSON_parse := fun _ => Some sampleDetails |}.

(** The same environment without a drawing surface: detection succeeds and
    rendering fails. *)
Definition noCanvasBrowser {num : Type} `{Number num} : Browser num :=
  {| readAsDataURL := readAsDataURL sampleBrowser;
     decodeImage := decodeImage sampleBrowser;
     getContext := false;
     toDataURL := toDataURL sampleBrowser;
     generateContent := generateContent sampleBrowser;
     JSON_parse := JSON_parse sampleBrowser |}.

(** A box of no width that is inverted on the other axis. *)
Definition invertedLineBox {num : Type} `{Number num} : BoundingBox num :=
  {| ymin := lit 500; xmin := lit 200; ymax := lit 100; xmax := lit 200 |}.

(** A box whose [xmax] is the binary64 number next to its [xmin], 505. *)
Definition closeBox : BoundingBox float :=
  {| ymin := 0%float; xmin := 505%float;
     ymax := 0%float; xmax := 0x1.f900000000001p+8%float |}.

(** The editor of the example after a drag by (10, -110) screen pixels over
    an image displayed 1500 pixels wide, in binary64. *)
Definition draggedEditor : Editor float :=
  editorRun sampleEditor
    [ MouseDown (lit 300) (lit 300); MouseMove (lit 310) (lit 190) (Some (lit 1500));
      MouseUp ].

(** An environment whose model answers the bytes of [photo.png] only. *)
Definition payloadBrowser {num : Type} `{Number num} : Browser num :=
  {| readAsDataURL := readAsDataURL sampleBrowser;
     decodeImage := decodeImage sampleBrowser;
     getContext := true;
     toDataURL := toDataURL sampleBrowser;
     generateContent := fun data =>
       match data with
       | Some sent => if String.eqb sent (bytes photo) then Some (Some "{}") else None
       | None => None
       end;
     JSON_parse := JSON_parse sampleBrowser |}.

(** ** Vocabulary of the properties *)

Section Vocabulary.
Context {num : Type} `{Number num}.

(** The mouse moves of a drag, each with the width of the container at that
  time. *)
Definition mouseMoves (moves : list (num * num * option num)) : list (EditorEvent num) :=
map (fun m => MouseMove (fst (fst m)) (snd (fst m)) (snd m)) moves.

(** What a drag leaves alone, whatever it does to the origin. *)
Definition sameDrag (a b : Editor num) : Prop :=
imgElement a = imgElement b /\ isDragging a = isDragging b /\
dragStart a = dragStart b /\ startCropPos a = startCropPos b /\
size (crop a) = size (crop b).

(** The crop rectangle that [processImage] derives from the details. *)
Definition smartCropOf (details : GarmentDetails num) (img : HTMLImageElement num)
    : CropRect num :=
  calculateSmartCrop
    match textureBox details with
    | Some b => b
    | None => box details
    end
    (naturalWidth img) (naturalHeight img).

(** The coordinate in the source image of what the pixel of index [i] of an
    output of [outputSize] pixels shows, when the source rectangle starts
    at [origin] and extends by [extent]. *)
Definition sourceCoordinate (origin extent : num) (outputSize i : Z) : num :=
  sourcePoint origin extent (lit 0) (lit (inject_Z outputSize)) (pixelCentre i).

(** The image's [load] event. *)
Definition isImgLoad (e : EditorEvent num) : bool :=
  match e with
  | ImgLoad _ => true
  | _ => false
  end.


(** What holds of a session between two events, when every handler has run
    to its end. *)
Definition atRest (s : Session (num := num)) : Prop :=
  let a := app s in
  appState a <> ANALYZING /\
  (appState a = IDLE -> a = initialApp) /\
  (appState a = CROPPING -> errorMsg a = Some "Failed to apply manual crop"%string) /\
  (appState a = ERROR -> croppedImage a = None /\ errorMsg a <> None) /\
  (appState a = SUCCESS \/ appState a = EDITING \/ appState a = CROPPING ->
   croppedImage a <> None) /\
  (croppedImage a <> None ->
   sourceImage a <> None /\ garmentDetails a <> None /\ currentCrop a <> None) /\
  (editor s <> None -> editorOverlay a <> None).
End Vocabulary.

(** A crop rectangle that lies outside of the image: to the left of it, to
    the right of it, above it or below it. *)
Definition entirelyOutside (img : HTMLImageElement Q) (c : CropRect Q) : Prop :=
  (x c <= 0 /\ x c + size c <= 0)%Q \/
  (naturalWidth img <= x c /\ naturalWidth img <= x c + size c)%Q \/
  (y c <= 0 /\ y c + size c <= 0)%Q \/
  (naturalHeight img <= y c /\ naturalHeight img <= y c + size c)%Q.

(** *** Binary64 *)

(** A finite binary64 number between two rational numbers. *)
Definition between (lo hi : Q) (f : float) : Prop :=
  finite f /\ (lo <= value f)%Q /\ (value f <= hi)%Q.

(** A box whose coordinates are in the range of the detector, 0 to 1000. *)
Definition normalised (b : BoundingBox float) : Prop :=
  between 0 1000 (xmin b) /\ between 0 1000 (xmax b) /\
  between 0 1000 (ymin b) /\ between 0 1000 (ymax b).

(** A width or height: positive, and far from overflow. *)
Definition dimension (f : float) : Prop :=
  finite f /\ (0 < value f)%Q /\ (value f <= pow2 1000)%Q.

(** The tolerance of [calculateSmartCrop] on an image of the given width
    and height: [2^-48 * max(width, height) + 2^-1070]. *)
Definition tolerance (imgWidth imgHeight : float) : Q :=
  (pow2 (-48) * Qmax (value imgWidth) (value imgHeight) + pow2 (-1070))%Q.

(** Two coordinates that are equal or at least [2^-30] apart. *)
Definition separated (c1 c2 : float) : Prop :=
  (value c1 == value c2)%Q \/ (pow2 (-30) <= Qabs (value c2 - value c1))%Q.

(** The center of a crop rectangle of binary64 numbers, as rational
    numbers. *)
Definition centerX (c : CropRect float) : Q := (value (x c) + value (size c) / 2)%Q.

Definition centerY (c : CropRect float) : Q := (value (y c) + value (size c) / 2)%Q.

(** A finite binary64 number of magnitude at most [R]. *)
Definition bounded_by (R : Q) (f : float) : Prop :=
  finite f /\ (- R <= value f)%Q /\ (value f <= R)%Q.

Unset Implicit Arguments.

(** * Properties *)

(** ** Exact arithmetic *)

Local Open Scope Q_scope.

(** Division by a literal is multiplication by its inverse, a literal. *)
Ltac literal_division :=
  unfold Qdiv in *;
  repeat match goal with
  | |- context [Qinv (Qmake ?n ?d)] =>
      let r := eval cbv in (Qinv (Qmake n d)) in
      change (Qinv (Qmake n d)) with r
  | H : context [Qinv (Qmake ?n ?d)] |- _ =>
      let r := eval cbv in (Qinv (Qmake n d)) in
      change (Qinv (Qmake n d)) with r in H
  end.

(** Unfolds the operations of [Number] at [Q]. *)
Ltac exact_arithmetic :=
  cbn [lit nadd nsub nmul ndiv Math_max strict_eq nlt nle exact] in *.

Lemma Qle_bool_false (a b : Q) : Qle_bool a b = false -> b < a.
Proof.
  intros E. destruct (Qlt_le_dec b a) as [L | L]; [exact L | ].
  apply Qle_bool_iff in L. congruence.
Qed.

Lemma Math_max_Qmax (a b : Q) : Math_max a b == Qmax a b.
Proof.
  exact_arithmetic. destruct (Qle_bool a b) eqn:E.
  - apply Qle_bool_iff in E. symmetry. apply Q.max_r. exact E.
  - apply Qle_bool_false in E. symmetry. apply Q.max_l. apply Qlt_le_weak, E.
Qed.

Lemma Math_max_cases (a b : Q) :
  (a <= b /\ Math_max a b = b) \/ (b < a /\ Math_max a b = a).
Proof.
  exact_arithmetic. destruct (Qle_bool a b) eqn:E.
  - left. split; [apply Qle_bool_iff, E | reflexivity].
  - right. split; [apply Qle_bool_false, E | reflexivity].
Qed.

(** ** Binary64 rounding *)

Section Digits.
Local Open Scope Z_scope.

(** The number of binary digits of [p] is [d] with [2^(d-1) <= p < 2^d]. *)
Lemma digits2_pos_bounds (p : positive) :
  2 ^ (Zpos (digits2_pos p) - 1) <= Zpos p < 2 ^ Zpos (digits2_pos p).
Proof.
  induction p as [p IH | p IH | ]; cbn [digits2_pos].
  - rewrite Pos2Z.inj_succ.
    replace (Z.succ (Zpos (digits2_pos p)) - 1) with (Z.succ (Zpos (digits2_pos p) - 1)) by lia.
    rewrite !Z.pow_succ_r by lia. lia.
  - rewrite Pos2Z.inj_succ.
    replace (Z.succ (Zpos (digits2_pos p)) - 1) with (Z.succ (Zpos (digits2_pos p) - 1)) by lia.
    rewrite !Z.pow_succ_r by lia. lia.
  - cbn. lia.
Qed.

Lemma Zdigits2_bounds (m : Z) :
  0 < m -> 2 ^ (Zdigits2 m - 1) <= m < 2 ^ Zdigits2 m.
Proof.
  destruct m as [ | p | p]; try lia. intros _. apply digits2_pos_bounds.
Qed.

Lemma Zdigits2_pos (m : Z) : 0 < m -> 0 < Zdigits2 m.
Proof. destruct m; cbn; lia. Qed.

(** The digits of [m] are determined by the powers of two around it. *)
Lemma Zdigits2_unique (m d : Z) :
  0 < m -> 2 ^ (d - 1) <= m < 2 ^ d -> Zdigits2 m = d.
Proof.
  intros Hm [Hlo Hhi]. pose proof (Zdigits2_bounds m Hm) as [Dlo Dhi].
  pose proof (Zdigits2_pos m Hm) as Dpos.
  assert (0 < d).
  { destruct (Z_lt_le_dec 0 d) as [L | L]; [exact L | ].
    assert (2 ^ d <= 2 ^ 0) by (apply Z.pow_le_mono_r; lia).
    change (2 ^ 0) with 1 in *. lia. }
  destruct (Z_lt_le_dec (Zdigits2 m) d) as [L | L].
  - assert (2 ^ Zdigits2 m <= 2 ^ (d - 1)) by (apply Z.pow_le_mono_r; lia). lia.
  - destruct (Z_lt_le_dec d (Zdigits2 m)) as [G | G]; [ | lia].
    assert (2 ^ d <= 2 ^ (Zdigits2 m - 1)) by (apply Z.pow_le_mono_r; lia). lia.
Qed.

End Digits.

Lemma represents_ext (r : shr_record) (v w : Q) :
  v == w -> represents r v -> represents r w.
Proof.
  intros E. unfold represents. destruct (shr_r r), (shr_s r); rewrite E; trivial.
Qed.

Lemma shr_1_m (r : shr_record) :
  (0 <= shr_m r)%Z -> shr_m (shr_1 r) = (shr_m r / 2)%Z.
Proof.
  destruct r as [m r s]. cbn [shr_m]. intros Hm.
  destruct m as [ | [p | p | ] | p]; cbn [shr_1 shr_m]; try reflexivity.
  - apply (Z.div_unique _ 2 _ 1); lia.
  - apply (Z.div_unique _ 2 _ 0); lia.
  - lia.
Qed.

Lemma shr_1_represents (r : shr_record) (v : Q) :
  (0 <= shr_m r)%Z -> represents r v -> represents (shr_1 r) (v / 2).
Proof.
  destruct r as [m r s]. unfold represents. cbn [shr_m shr_r shr_s]. intros Hm.
  assert (Odd : forall p, inject_Z (Zpos p~1) == 2 * inject_Z (Zpos p) + 1).
  { intros p. rewrite (Pos2Z.inj_xI p), inject_Z_plus, inject_Z_mult. reflexivity. }
  assert (Even : forall p, inject_Z (Zpos p~0) == 2 * inject_Z (Zpos p)).
  { intros p. rewrite (Pos2Z.inj_xO p), inject_Z_mult. reflexivity. }
  unfold Qdiv. change (/ 2) with (1 # 2).
  destruct m as [ | [p | p | ] | p]; [ | | | | lia];
    cbn [shr_1 shr_m shr_r shr_s];
    try pose proof (Odd p) as Eodd; try pose proof (Even p) as Eeven;
    change (inject_Z 1) with 1 in *; change (inject_Z 0) with 0 in *;
    destruct r, s; cbn [orb]; intros Hv;
    try match type of Hv with _ /\ _ => destruct Hv as [Hv1 Hv2] end;
    try split; lra.
Qed.

Lemma iter_pos_shr_1 (p : positive) :
  forall (r : shr_record) (v : Q),
    (0 <= shr_m r)%Z -> represents r v ->
    (0 <= shr_m (iter_pos shr_1 p r))%Z /\
    shr_m (iter_pos shr_1 p r) = (shr_m r / 2 ^ Zpos p)%Z /\
    represents (iter_pos shr_1 p r) (v / inject_Z (2 ^ Zpos p)).
Proof.
  assert (Step : forall (r : shr_record) (v : Q),
             (0 <= shr_m r)%Z -> represents r v ->
             (0 <= shr_m (shr_1 r))%Z /\
             shr_m (shr_1 r) = (shr_m r / 2 ^ 1)%Z /\
             represents (shr_1 r) (v / inject_Z (2 ^ 1))).
  { intros r v Hm Hv. rewrite (shr_1_m r Hm). change (2 ^ 1)%Z with 2%Z.
    split; [apply Z.div_pos; lia | ]. split; [reflexivity | ].
    apply (shr_1_represents r v Hm Hv). }
  assert (Twice : forall q : positive,
             (forall (r : shr_record) (v : Q),
                 (0 <= shr_m r)%Z -> represents r v ->
                 (0 <= shr_m (iter_pos shr_1 q r))%Z /\
                 shr_m (iter_pos shr_1 q r) = (shr_m r / 2 ^ Zpos q)%Z /\
                 represents (iter_pos shr_1 q r) (v / inject_Z (2 ^ Zpos q))) ->
             forall (r : shr_record) (v : Q),
               (0 <= shr_m r)%Z -> represents r v ->
               (0 <= shr_m (iter_pos shr_1 q (iter_pos shr_1 q r)))%Z /\
               shr_m (iter_pos shr_1 q (iter_pos shr_1 q r)) = (shr_m r / 2 ^ Zpos (q~0))%Z /\
               represents (iter_pos shr_1 q (iter_pos shr_1 q r))
                 (v / inject_Z (2 ^ Zpos (q~0)))).
  { intros q IH r v Hm Hv.
    destruct (IH r v Hm Hv) as (M1 & E1 & R1).
    destruct (IH _ _ M1 R1) as (M2 & E2 & R2).
    assert (P : (0 < 2 ^ Zpos q)%Z) by (apply Z.pow_pos_nonneg; lia).
    assert (PP : (2 ^ Zpos (q~0) = 2 ^ Zpos q * 2 ^ Zpos q)%Z).
    { rewrite Pos2Z.inj_xO. rewrite <- Z.pow_add_r by lia. f_equal. lia. }
    split; [exact M2 | ]. split.
    - rewrite E2, E1, PP. apply Z.div_div; lia.
    - rewrite PP, inject_Z_mult.
      assert (Q0 : 0 < inject_Z (2 ^ Zpos q)).
      { change 0 with (inject_Z 0). rewrite <- Zlt_Qlt. exact P. }
      refine (represents_ext _ _ _ _ R2). field. lra. }
  induction p as [p IH | p IH | ]; intros r v Hm Hv.
  - cbn [iter_pos].
    destruct (Step r v Hm Hv) as (M1 & E1 & R1).
    destruct (Twice p IH _ _ M1 R1) as (M2 & E2 & R2).
    assert (PP : (2 ^ Zpos (p~1) = 2 ^ 1 * 2 ^ Zpos (p~0))%Z).
    { rewrite <- Z.pow_add_r by lia. f_equal. }
    assert (P : (0 < 2 ^ Zpos (p~0))%Z) by (apply Z.pow_pos_nonneg; lia).
    split; [exact M2 | ]. split.
    + rewrite E2, E1, PP. apply Z.div_div; lia.
    + rewrite PP, inject_Z_mult.
      assert (Q0 : 0 < inject_Z (2 ^ Zpos (p~0))).
      { change 0 with (inject_Z 0). rewrite <- Zlt_Qlt. exact P. }
      refine (represents_ext _ _ _ _ R2).
      change (inject_Z (2 ^ 1)) with 2. field. lra.
  - cbn [iter_pos]. apply (Twice p IH r v Hm Hv).
  - cbn [iter_pos]. apply (Step r v Hm Hv).
Qed.

Lemma shr_spec (r : shr_record) (e n : Z) (v : Q) :
  (0 <= shr_m r)%Z -> represents r v -> (0 <= n)%Z ->
  exists r' : shr_record,
    shr r e n = (r', (e + n)%Z) /\
    (0 <= shr_m r')%Z /\
    shr_m r' = (shr_m r / 2 ^ n)%Z /\
    represents r' (v / inject_Z (2 ^ n)).
Proof.
  intros Hm Hv Hn. destruct n as [ | p | p]; [ | | lia].
  - exists r. cbn [shr]. rewrite Z.add_0_r. split; [reflexivity | ].
    split; [exact Hm | ]. split.
    + change (2 ^ 0)%Z with 1%Z. rewrite Z.div_1_r. reflexivity.
    + refine (represents_ext _ _ _ _ Hv). change (inject_Z (2 ^ 0)) with 1. field.
  - exists (iter_pos shr_1 p r). cbn [shr]. split; [reflexivity | ].
    apply (iter_pos_shr_1 p r v Hm Hv).
Qed.

Lemma round_nearest_even_spec (r : shr_record) (v : Q) :
  (0 <= shr_m r)%Z -> represents r v ->
  let k := round_nearest_even (shr_m r) (loc_of_shr_record r) in
  (shr_m r <= k <= shr_m r + 1)%Z /\
  Qabs (inject_Z k - v) <= 1 # 2 /\
  (v == inject_Z (shr_m r) -> k = shr_m r).
Proof.
  destruct r as [m r s]. unfold represents. cbn [shr_m shr_r shr_s]. intros Hm Hv.
  assert (Next : inject_Z (m + 1) == inject_Z m + 1).
  { rewrite inject_Z_plus. reflexivity. }
  destruct r, s; cbn [loc_of_shr_record round_nearest_even];
    try destruct (Z.even m);
    (split; [lia | split; [apply Qabs_Qle_condition; split; lra | intros E; lra || lia ] ]).
Qed.

Lemma binary_round_aux_spec (s : bool) (m e : Z) (l : location) (v : Q) :
  (0 <= m)%Z -> represents (shr_record_of_loc m l) v ->
  (e <= fexp prec emax (Zdigits2 m + e))%Z ->
  let E := fexp prec emax (Zdigits2 m + e) in
  exists k : Z,
    (0 <= k <= 2 ^ 53)%Z /\
    Qabs (inject_Z k - v / inject_Z (2 ^ (E - e))) <= 1 # 2 /\
    (l = loc_Exact -> E = e -> k = m) /\
    (E = (-1074)%Z \/ (2 ^ 52 <= k)%Z /\ (2 ^ 52 * 2 ^ (E - e) <= m)%Z) /\
    binary_round_aux prec emax s m e l = rounded s k E.
Proof.
  intros Hm Hv Hn E.
  assert (Hrec : shr_m (shr_record_of_loc m l) = m) by (destruct l as [ | [ | | ] ]; reflexivity).
  destruct (shr_spec (shr_record_of_loc m l) e (E - e) v) as (r1 & S1 & M1 & D1 & R1);
    [rewrite Hrec; exact Hm | exact Hv | unfold E; lia | ].
  rewrite Hrec in D1.
  destruct (round_nearest_even_spec r1 _ M1 R1) as (K1 & K2 & K3).
  set (k := round_nearest_even (shr_m r1) (loc_of_shr_record r1)) in *.
  (* the integer part after the shift has at most 53 digits *)
  assert (P : (0 < 2 ^ (E - e))%Z) by (apply Z.pow_pos_nonneg; unfold E; lia).
  assert (Small : (shr_m r1 < 2 ^ 53)%Z /\ (E = (-1074)%Z \/ (2 ^ 52 <= shr_m r1)%Z)).
  { destruct (Z.eq_dec m 0) as [Z | NZ].
    - subst m. rewrite D1. cbn [Zdigits2] in *. rewrite Z.div_0_l by lia.
      split; [reflexivity | ]. left. unfold E, fexp, SpecFloat.emin, prec, emax in *. lia.
    - assert (Pm : (0 < m)%Z) by lia.
      pose proof (Zdigits2_bounds m Pm) as [Dlo Dhi].
      pose proof (Zdigits2_pos m Pm) as Dpos.
      set (D := Zdigits2 m) in *.
      assert (Hsplit : (2 ^ D = 2 ^ (D - (E - e)) * 2 ^ (E - e))%Z \/ (D < E - e)%Z).
      { destruct (Z_lt_le_dec D (E - e)) as [L | L]; [right; exact L | left].
        rewrite <- Z.pow_add_r by (unfold E; lia). f_equal. lia. }
      split.
      + rewrite D1. destruct Hsplit as [Hs | Hs].
        * apply Z.div_lt_upper_bound; [exact P | ].
          assert ((2 ^ (D - (E - e)) <= 2 ^ 53)%Z).
          { apply Z.pow_le_mono_r; [lia | ].
            unfold E, fexp, SpecFloat.emin, prec, emax in *. lia. }
          nia.
        * assert ((2 ^ D <= 2 ^ (E - e))%Z) by (apply Z.pow_le_mono_r; lia).
          rewrite Z.div_small by lia. reflexivity.
      + destruct (Z.eq_dec E (-1074)) as [Emin | Enorm]; [left; exact Emin | right].
        assert (En : (E - e = D - 53)%Z).
        { unfold E, fexp, SpecFloat.emin, prec, emax in *. lia. }
        rewrite D1, En. apply Z.div_le_lower_bound; [rewrite <- En; exact P | ].
        replace (2 ^ (D - 53) * 2 ^ 52)%Z with (2 ^ (D - 1))%Z; [exact Dlo | ].
        rewrite <- Z.pow_add_r by lia. f_equal. lia. }
  destruct Small as [Small Big].
  exists k. split; [lia | ]. split; [exact K2 | ]. split.
  { intros -> Eeq.
    assert (Same : shr_m r1 = m).
    { rewrite D1, Eeq, Z.sub_diag. apply Z.div_1_r. }
    transitivity (shr_m r1); [ | exact Same]. apply K3. rewrite Same, Eeq, Z.sub_diag.
    unfold represents in Hv. cbn in Hv. rewrite Hv. change (inject_Z (2 ^ 0)) with 1.
    field. }
  split.
  { destruct Big as [B | B]; [left; exact B | right]. split; [lia | ].
    rewrite D1 in B. rewrite Z.mul_comm.
    etransitivity; [ | apply (Z.mul_div_le m (2 ^ (E - e))); exact P].
    apply Z.mul_le_mono_nonneg_l; lia. }
  (* the second shift *)
  unfold binary_round_aux, shr_fexp. fold E.
  replace (E - e + e)%Z with E in S1 by lia.
  replace (e + (E - e))%Z with E in S1 by lia.
  rewrite S1. fold k.
  assert (Emin : (-1074 <= E)%Z) by (unfold E, fexp, SpecFloat.emin, prec, emax; lia).
  destruct (Z.eq_dec k (2 ^ 53)) as [Top | Below].
  - rewrite Top.
    replace (fexp prec emax (Zdigits2 (2 ^ 53) + E) - E)%Z with 1%Z
      by (change (Zdigits2 (2 ^ 53)) with 54%Z;
          unfold fexp, SpecFloat.emin, prec, emax; lia).
    cbn [shr_record_of_loc shr iter_pos]. reflexivity.
  - assert (Dk : (Zdigits2 k <= 53)%Z).
    { destruct (Z.eq_dec k 0) as [Zk | NZk]; [rewrite Zk; cbn; lia | ].
      assert (Pk : (0 < k)%Z) by lia.
      pose proof (Zdigits2_bounds k Pk) as [Dlo Dhi].
      destruct (Z_lt_le_dec 53 (Zdigits2 k)) as [L | L]; [ | exact L].
      assert ((2 ^ 53 <= 2 ^ (Zdigits2 k - 1))%Z) by (apply Z.pow_le_mono_r; lia).
      lia. }
    assert (N2 : (fexp prec emax (Zdigits2 k + E) - E <= 0)%Z).
    { unfold fexp, SpecFloat.emin, prec, emax. lia. }
    assert (S2 : shr (shr_record_of_loc k loc_Exact) E (fexp prec emax (Zdigits2 k + E) - E)
                 = (shr_record_of_loc k loc_Exact, E)).
    { destruct (fexp prec emax (Zdigits2 k + E) - E)%Z; [reflexivity | lia | reflexivity]. }
    rewrite S2. cbn [shr_record_of_loc shr_m]. unfold rounded.
    destruct k as [ | p | p]; [reflexivity | | lia].
    destruct (Z.eqb_spec (Zpos p) (2 ^ 53)) as [Q | Q]; [contradiction | ].
    reflexivity.
Qed.

(** *** Values *)

Lemma pow2_pos (e : Z) : 0 < pow2 e.
Proof. apply Qpower_0_lt. reflexivity. Qed.

Lemma pow2_add (a b : Z) : pow2 (a + b) == pow2 a * pow2 b.
Proof. apply Qpower_plus. discriminate. Qed.

Lemma pow2_le (a b : Z) : (a <= b)%Z -> pow2 a <= pow2 b.
Proof. intros L. apply Qpower_le_compat_l; [exact L | discriminate]. Qed.

Lemma pow2_lt_inv (a b : Z) : pow2 a < pow2 b -> (a < b)%Z.
Proof. intros L. apply (Qpower_lt_compat_l_inv 2); [exact L | reflexivity]. Qed.

Lemma pow2_inject (n : Z) : (0 <= n)%Z -> pow2 n == inject_Z (2 ^ n).
Proof. intros Hn. unfold pow2. rewrite (Zpower_Qpower 2 n Hn). reflexivity. Qed.

Lemma rounded_value (s : bool) (k E : Z) :
  (0 <= k <= 2 ^ 53)%Z -> (E = (-1074)%Z \/ (2 ^ 52 <= k)%Z) ->
  inject_Z k * pow2 E < pow2 1024 ->
  SFfinite (rounded s k E) = true /\
  SF2Q (rounded s k E) == signed s (inject_Z k * pow2 E).
Proof.
  intros Hk Hnorm Hmax. unfold rounded.
  destruct k as [ | p | p]; [ | | lia].
  - split; [reflexivity | ]. cbn. destruct s; cbn; ring.
  - destruct (Z.eqb_spec (Zpos p) (2 ^ 53)) as [Top | Below].
    + assert (HE : (E + 1 <= 971)%Z).
      { rewrite Top in Hmax. rewrite <- (pow2_inject 53) in Hmax by lia.
        rewrite <- pow2_add in Hmax. apply pow2_lt_inv in Hmax. lia. }
      destruct (Z.leb_spec (E + 1) 971) as [_ | G]; [ | lia].
      split; [reflexivity | ]. rewrite Top. cbn [SF2Q].
      change (inject_Z (Zpos (2 ^ 52))) with (inject_Z (2 ^ 52)).
      assert (Same : inject_Z (2 ^ 52) * pow2 (E + 1) == inject_Z (2 ^ 53) * pow2 E).
      { rewrite <- (pow2_inject 52), <- (pow2_inject 53) by lia.
        rewrite <- !pow2_add. replace (52 + (E + 1))%Z with (53 + E)%Z by lia.
        reflexivity. }
      destruct s; cbn [signed]; rewrite Same; reflexivity.
    + assert (HE : (E <= 971)%Z).
      { destruct Hnorm as [-> | Hnorm]; [lia | ].
        assert (L : pow2 (52 + E) < pow2 1024).
        { eapply Qle_lt_trans; [ | exact Hmax]. rewrite pow2_add.
          apply Qmult_le_compat_r; [ | apply Qlt_le_weak, pow2_pos].
          rewrite (pow2_inject 52) by lia. rewrite <- Zle_Qle. exact Hnorm. }
        apply pow2_lt_inv in L. lia. }
      destruct (Z.leb_spec E 971) as [_ | G]; [ | lia].
      split; [reflexivity | ]. cbn [SF2Q]. destruct s; reflexivity.
Qed.

Lemma represents_lower (m : Z) (l : location) (v : Q) :
  represents (shr_record_of_loc m l) v -> inject_Z m <= v.
Proof.
  unfold represents. destruct l as [ | [ | | ] ]; cbn [shr_record_of_loc shr_m shr_r shr_s];
    intros Hv; lra.
Qed.

Lemma binary_round_aux_value (s : bool) (m e : Z) (l : location) (v : Q) :
  (0 <= m)%Z -> represents (shr_record_of_loc m l) v ->
  (e <= fexp prec emax (Zdigits2 m + e))%Z ->
  v * pow2 e <= pow2 1023 ->
  exists a : Q,
    SFfinite (binary_round_aux prec emax s m e l) = true /\
    SF2Q (binary_round_aux prec emax s m e l) == signed s a /\
    0 <= a /\
    Qabs (a - v * pow2 e) <= unit_roundoff * (v * pow2 e) + half_least /\
    (l = loc_Exact -> (-1074 <= e)%Z ->
     Qabs (a - v * pow2 e) <= unit_roundoff * (v * pow2 e)).
Proof.
  intros Hm Hv Hn Hmax.
  destruct (binary_round_aux_spec s m e l v Hm Hv Hn) as (k & Hk & Hround & Hexact & Hnorm & ->).
  set (E := fexp prec emax (Zdigits2 m + e)) in *.
  pose proof (represents_lower m l v Hv) as Hlow.
  assert (Hm' : 0 <= inject_Z m) by (change 0 with (inject_Z 0); rewrite <- Zle_Qle; exact Hm).
  assert (Pe : 0 < pow2 e) by apply pow2_pos.
  assert (PE : 0 < pow2 E) by apply pow2_pos.
  assert (Pd : 0 < inject_Z (2 ^ (E - e))).
  { rewrite <- pow2_inject by lia. apply pow2_pos. }
  assert (Esplit : pow2 E == pow2 e * inject_Z (2 ^ (E - e))).
  { rewrite <- pow2_inject by lia. rewrite <- pow2_add. replace (e + (E - e))%Z with E by lia.
    reflexivity. }
  set (V := v * pow2 e) in *.
  set (a := inject_Z k * pow2 E).
  assert (PV : 0 <= V) by (unfold V; nra).
  assert (Err : Qabs (a - V) <= (1 # 2) * pow2 E).
  { assert (Ea : a - V == (inject_Z k - v / inject_Z (2 ^ (E - e))) * pow2 E).
    { unfold a, V. rewrite Esplit. field. lra. }
    rewrite Ea, Qabs_Qmult, (Qabs_pos (pow2 E)) by lra.
    apply Qmult_le_compat_r; [exact Hround | lra]. }
  assert (Half : (1 # 2) * pow2 (-1074) == half_least).
  { unfold half_least. replace (-1075)%Z with (-1 + -1074)%Z by lia. rewrite pow2_add.
    reflexivity. }
  assert (U : 0 < unit_roundoff) by apply pow2_pos.
  assert (Hl : 0 < half_least) by apply pow2_pos.
  assert (Ha : 0 <= a).
  { unfold a. apply Qmult_le_0_compat; [ | lra].
    change 0 with (inject_Z 0). rewrite <- Zle_Qle. lia. }
  assert (Normal : (2 ^ 52 * 2 ^ (E - e) <= m)%Z -> (1 # 2) * pow2 E <= unit_roundoff * V).
  { intros B. rewrite Zle_Qle, inject_Z_mult in B.
    assert (B' : pow2 52 * pow2 E <= V).
    { rewrite Esplit, (pow2_inject 52) by lia. unfold V.
      setoid_replace (inject_Z (2 ^ 52) * (pow2 e * inject_Z (2 ^ (E - e))))
        with (inject_Z (2 ^ 52) * inject_Z (2 ^ (E - e)) * pow2 e) by ring.
      apply Qmult_le_compat_r; lra. }
    assert (S : unit_roundoff * (pow2 52 * pow2 E) == (1 # 2) * pow2 E).
    { unfold unit_roundoff. rewrite Qmult_assoc, <- pow2_add. reflexivity. }
    rewrite <- S. apply Qmult_le_l; [exact U | exact B']. }
  assert (Bound : Qabs (a - V) <= unit_roundoff * V + half_least /\
                  (l = loc_Exact -> (-1074 <= e)%Z -> Qabs (a - V) <= unit_roundoff * V)).
  { destruct Hnorm as [Emin | [_ B] ].
    - split.
      + rewrite Emin, Half in Err. nra.
      + intros Hl' He. assert (Ee : E = e) by lia.
        assert (Ek : k = m) by (apply Hexact; assumption).
        assert (Ev : v == inject_Z m).
        { rewrite Hl' in Hv. exact Hv. }
        assert (Z : a - V == 0).
        { unfold a, V. rewrite Ek, Ee, Ev. ring. }
        rewrite Z. cbn [Qabs Qnum Z.abs]. nra.
    - specialize (Normal B). split; [ | intros _ _ ]; lra. }
  assert (Hfin : inject_Z k * pow2 E < pow2 1024).
  { fold a. destruct Bound as [Bound _]. apply Qabs_diff_Qle_condition in Bound.
    assert (M : pow2 1024 == 2 * pow2 1023).
    { replace 1024%Z with (1 + 1023)%Z by lia. rewrite pow2_add. reflexivity. }
    assert (U1 : unit_roundoff <= 1 # 2).
    { change (1 # 2) with (pow2 (-1)). apply pow2_le. lia. }
    assert (H1 : half_least <= 1 # 2).
    { change (1 # 2) with (pow2 (-1)). apply pow2_le. lia. }
    assert (Big1 : 2 <= pow2 1023).
    { change 2 with (pow2 1). apply pow2_le. lia. }
    assert (UV : unit_roundoff * V <= (1 # 2) * V).
    { apply Qmult_le_compat_r; assumption. }
    rewrite M. lra. }
  destruct (rounded_value s k E Hk) as [Fin Val]; [ | exact Hfin | ].
  { destruct Hnorm as [Emin | [B _] ]; [left; exact Emin | right; exact B]. }
  exists a. split; [exact Fin | ]. split; [exact Val | ]. split; [exact Ha | ].
  exact Bound.
Qed.

(** *** Valid numbers *)

Lemma canonical_mantissa_cases (m : positive) (e : Z) :
  canonical_mantissa prec emax m e = true ->
  (-1074 <= e)%Z /\ (Zpos (digits2_pos m) <= 53)%Z /\
  (e = (-1074)%Z \/ Zpos (digits2_pos m) = 53%Z).
Proof.
  unfold canonical_mantissa. intros C. apply Z.eqb_eq in C.
  unfold fexp, SpecFloat.emin, prec, emax in C. lia.
Qed.

Lemma valid_binary_finite (s : bool) (m : positive) (e : Z) :
  valid_binary (S754_finite s m e) = true ->
  canonical_mantissa prec emax m e = true /\ (e <= 971)%Z.
Proof.
  cbn [SpecFloat.valid_binary]. unfold bounded. intros V.
  apply andb_prop in V. destruct V as [C B]. split; [exact C | ].
  apply Z.leb_le in B. exact B.
Qed.

Lemma signed_mult (s t : bool) (a b : Q) :
  signed s a * signed t b == signed (xorb s t) (a * b).
Proof. destruct s, t; cbn [signed xorb]; ring. Qed.

Lemma signed_diff (s : bool) (a b : Q) :
  Qabs (signed s a - signed s b) == Qabs (a - b).
Proof.
  destruct s; cbn [signed]; [ | reflexivity].
  setoid_replace (- a - - b) with (- (a - b)) by ring. apply Qabs_opp.
Qed.

Lemma signed_abs (s : bool) (a : Q) : 0 <= a -> Qabs (signed s a) == a.
Proof.
  intros Ha. destruct s; cbn [signed]; [rewrite Qabs_opp | ]; apply Qabs_pos; exact Ha.
Qed.

Lemma SF2Q_finite (s : bool) (m : positive) (e : Z) :
  SF2Q (S754_finite s m e) == signed s (inject_Z (Zpos m) * pow2 e).
Proof. destruct s; reflexivity. Qed.

(** *** Multiplication *)

Lemma Zdigits2_mul (a b : positive) :
  (Zpos (digits2_pos a) + Zpos (digits2_pos b) - 1 <= Zpos (digits2_pos (a * b)))%Z.
Proof.
  pose proof (digits2_pos_bounds a) as [Alo Ahi].
  pose proof (digits2_pos_bounds b) as [Blo Bhi].
  pose proof (digits2_pos_bounds (a * b)) as [Plo Phi].
  set (da := Zpos (digits2_pos a)) in *. set (db := Zpos (digits2_pos b)) in *.
  set (dp := Zpos (digits2_pos (a * b))) in *.
  assert (L : (2 ^ (da - 1 + (db - 1)) < 2 ^ dp)%Z).
  { rewrite Z.pow_add_r by (unfold da, db; lia). rewrite Pos2Z.inj_mul in Phi.
    assert ((0 < 2 ^ (da - 1))%Z) by (apply Z.pow_pos_nonneg; unfold da; lia).
    assert ((0 < 2 ^ (db - 1))%Z) by (apply Z.pow_pos_nonneg; unfold db; lia).
    nia. }
  apply Z.pow_lt_mono_r_iff in L; [lia | lia | unfold dp; lia].
Qed.

Lemma SFmul_value (x y : spec_float) :
  valid_binary x = true -> valid_binary y = true ->
  SFfinite x = true -> SFfinite y = true ->
  Qabs (SF2Q x * SF2Q y) <= pow2 1023 ->
  SFfinite (SF64mul x y) = true /\
  Qabs (SF2Q (SF64mul x y) - SF2Q x * SF2Q y)
  <= unit_roundoff * Qabs (SF2Q x * SF2Q y) + half_least.
Proof.
  intros Vx Vy Fx Fy Hmax.
  assert (Hl : 0 < half_least) by apply pow2_pos.
  assert (Zero : forall q : Q, q == 0 -> Qabs (0 - q) <= unit_roundoff * Qabs q + half_least).
  { intros q ->. cbn. lra. }
  destruct x as [sx | sx | | sx mx ex]; try discriminate;
    destruct y as [sy | sy | | sy my ey]; try discriminate;
    cbn [SF64mul SFmul];
    try (split; [reflexivity | ]; apply Zero; cbn [SF2Q]; ring).
  apply valid_binary_finite in Vx, Vy. destruct Vx as [Cx _], Vy as [Cy _].
  apply canonical_mantissa_cases in Cx, Cy.
  pose proof (Zdigits2_mul mx my) as Dm.
  assert (Prod : SF2Q (S754_finite sx mx ex) * SF2Q (S754_finite sy my ey)
                 == signed (xorb sx sy) (inject_Z (Zpos (mx * my)) * pow2 (ex + ey))).
  { rewrite !SF2Q_finite, signed_mult.
    destruct (xorb sx sy); cbn [signed];
      rewrite Pos2Z.inj_mul, inject_Z_mult, pow2_add; ring. }
  assert (Pos : 0 <= inject_Z (Zpos (mx * my)) * pow2 (ex + ey)).
  { apply Qmult_le_0_compat; [ | apply Qlt_le_weak, pow2_pos].
    change 0 with (inject_Z 0). rewrite <- Zle_Qle. lia. }
  rewrite Prod in *. rewrite signed_abs in * by exact Pos.
  destruct (binary_round_aux_value (xorb sx sy) (Zpos (mx * my)) (ex + ey) loc_Exact
              (inject_Z (Zpos (mx * my))))
    as (a & Fin & Val & Ha & Err & _).
  - lia.
  - reflexivity.
  - cbn [Zdigits2]. unfold fexp, SpecFloat.emin, prec, emax. lia.
  - exact Hmax.
  - split; [exact Fin | ]. rewrite Val, signed_diff. exact Err.
Qed.

(** *** Addition and subtraction *)

Lemma iter_xO (d m : positive) : Zpos (Pos.iter xO m d) = (Zpos m * 2 ^ Zpos d)%Z.
Proof.
  induction d as [ | d IH] using Pos.peano_ind.
  - cbn [Pos.iter]. change (2 ^ 1)%Z with 2%Z. lia.
  - rewrite Pos.iter_succ, Pos2Z.inj_xO, IH, Pos2Z.inj_succ, Z.pow_succ_r by lia. lia.
Qed.

Lemma shl_align_spec (m : positive) (e e' : Z) :
  snd (shl_align m e e') = Z.min e e' /\
  Zpos (fst (shl_align m e e')) = (Zpos m * 2 ^ (e - Z.min e e'))%Z.
Proof.
  unfold shl_align. destruct (e' - e)%Z as [ | d | d] eqn:D; cbn [fst snd].
  - replace (Z.min e e') with e by lia. rewrite Z.sub_diag. split; lia.
  - replace (Z.min e e') with e by lia. rewrite Z.sub_diag. split; lia.
  - replace (Z.min e e') with e' by lia. split; [reflexivity | ].
    rewrite iter_xO. f_equal. f_equal. lia.
Qed.

Lemma shl_align_value (m : positive) (e e' : Z) :
  inject_Z (Zpos (fst (shl_align m e e'))) * pow2 (snd (shl_align m e e'))
  == inject_Z (Zpos m) * pow2 e.
Proof.
  destruct (shl_align_spec m e e') as [-> ->].
  rewrite inject_Z_mult, <- pow2_inject by lia.
  rewrite <- Qmult_assoc, <- pow2_add.
  replace (e - Z.min e e' + Z.min e e')%Z with e by lia. reflexivity.
Qed.

Lemma binary_round_value (s : bool) (m : positive) (e : Z) :
  (-1074 <= e)%Z -> inject_Z (Zpos m) * pow2 e <= pow2 1023 ->
  exists a : Q,
    SFfinite (binary_round prec emax s m e) = true /\
    SF2Q (binary_round prec emax s m e) == signed s a /\
    0 <= a /\
    Qabs (a - inject_Z (Zpos m) * pow2 e) <= unit_roundoff * (inject_Z (Zpos m) * pow2 e).
Proof.
  intros He Hmax. unfold binary_round.
  set (target := fexp prec emax (Zpos (digits2_pos m) + e)).
  pose proof (shl_align_spec m e target) as [Es Em].
  pose proof (shl_align_value m e target) as Ev.
  destruct (shl_align m e target) as [mz ez]. cbn [fst snd] in *.
  rewrite <- Es in Em.
  pose proof (digits2_pos_bounds m) as [Dlo Dhi].
  assert (P : (0 < 2 ^ (e - ez))%Z) by (apply Z.pow_pos_nonneg; lia).
  assert (Dz : Zdigits2 (Zpos mz) = (Zpos (digits2_pos m) + (e - ez))%Z).
  { apply Zdigits2_unique; [lia | ]. rewrite Em.
    replace (Zpos (digits2_pos m) + (e - ez) - 1)%Z
      with (Zpos (digits2_pos m) - 1 + (e - ez))%Z by lia.
    rewrite !Z.pow_add_r by lia. nia. }
  destruct (binary_round_aux_value s (Zpos mz) ez loc_Exact (inject_Z (Zpos mz)))
    as (a & Fin & Val & Ha & _ & Err).
  - lia.
  - reflexivity.
  - rewrite Dz. replace (Zpos (digits2_pos m) + (e - ez) + ez)%Z
      with (Zpos (digits2_pos m) + e)%Z by lia.
    fold target. lia.
  - rewrite Ev. exact Hmax.
  - exists a. split; [exact Fin | ]. split; [exact Val | ]. split; [exact Ha | ].
    rewrite <- Ev. apply Err; [reflexivity | ].
    unfold target, fexp, SpecFloat.emin, prec, emax in *. lia.
Qed.

Lemma binary_normalize_value (t e : Z) :
  (-1074 <= e)%Z -> Qabs (inject_Z t * pow2 e) <= pow2 1023 ->
  SFfinite (binary_normalize prec emax t e false) = true /\
  Qabs (SF2Q (binary_normalize prec emax t e false) - inject_Z t * pow2 e)
  <= unit_roundoff * Qabs (inject_Z t * pow2 e).
Proof.
  intros He Hmax. pose proof (pow2_pos e) as Pe.
  destruct t as [ | p | p]; cbn [binary_normalize].
  - split; [reflexivity | ]. cbn [SF2Q]. setoid_replace (inject_Z 0 * pow2 e) with 0 by ring.
    cbn. lra.
  - assert (Pos : 0 <= inject_Z (Zpos p) * pow2 e).
    { apply Qmult_le_0_compat; [ | lra]. change 0 with (inject_Z 0).
      rewrite <- Zle_Qle. lia. }
    rewrite (Qabs_pos _ Pos) in *.
    destruct (binary_round_value false p e He Hmax) as (a & Fin & Val & Ha & Err).
    split; [exact Fin | ]. rewrite Val. exact Err.
  - assert (Pos : 0 <= inject_Z (Zpos p) * pow2 e).
    { apply Qmult_le_0_compat; [ | lra]. change 0 with (inject_Z 0).
      rewrite <- Zle_Qle. lia. }
    assert (Neg : inject_Z (Zneg p) * pow2 e == signed true (inject_Z (Zpos p) * pow2 e)).
    { cbn [signed]. change (Zneg p) with (- Zpos p)%Z. rewrite inject_Z_opp. ring. }
    rewrite Neg in *. rewrite signed_abs in * by exact Pos.
    destruct (binary_round_value true p e He Hmax) as (a & Fin & Val & Ha & Err).
    split; [exact Fin | ]. rewrite Val, signed_diff. exact Err.
Qed.

Lemma cond_Zopp_value (s : bool) (m : positive) (e e' : Z) :
  inject_Z (cond_Zopp s (Zpos (fst (shl_align m e e')))) * pow2 (snd (shl_align m e e'))
  == SF2Q (S754_finite s m e).
Proof.
  rewrite SF2Q_finite.
  destruct s; cbn [cond_Zopp signed]; rewrite <- (shl_align_value m e e'); [ | reflexivity].
  rewrite inject_Z_opp. ring.
Qed.

Lemma aligned_sum (sx sy : bool) (mx my : positive) (ex ey : Z) (negate : bool) :
  let ez := Z.min ex ey in
  let tx := cond_Zopp sx (Zpos (fst (shl_align mx ex ez))) in
  let ty := cond_Zopp sy (Zpos (fst (shl_align my ey ez))) in
  inject_Z (if negate then tx - ty else tx + ty)%Z * pow2 ez
  == if negate then SF2Q (S754_finite sx mx ex) - SF2Q (S754_finite sy my ey)
     else SF2Q (S754_finite sx mx ex) + SF2Q (S754_finite sy my ey).
Proof.
  intros ez tx ty.
  pose proof (cond_Zopp_value sx mx ex ez) as Vx.
  pose proof (cond_Zopp_value sy my ey ez) as Vy.
  destruct (shl_align_spec mx ex ez) as [Sx _]. destruct (shl_align_spec my ey ez) as [Sy _].
  rewrite Sx in Vx. rewrite Sy in Vy.
  replace (Z.min ex ez) with ez in Vx by (unfold ez; lia).
  replace (Z.min ey ez) with ez in Vy by (unfold ez; lia).
  fold tx in Vx. fold ty in Vy.
  destruct negate; rewrite <- Vx, <- Vy;
    [unfold Z.sub; rewrite inject_Z_plus, inject_Z_opp | rewrite inject_Z_plus];
    ring.
Qed.

Lemma exact_result (q : Q) : Qabs (q - q) <= unit_roundoff * Qabs q.
Proof.
  setoid_replace (q - q) with 0 by ring. change (Qabs 0) with 0.
  apply Qmult_le_0_compat; [apply Qlt_le_weak, pow2_pos | apply Qabs_nonneg].
Qed.

Lemma SFadd_value (x y : spec_float) :
  valid_binary x = true -> valid_binary y = true ->
  SFfinite x = true -> SFfinite y = true ->
  Qabs (SF2Q x + SF2Q y) <= pow2 1023 ->
  SFfinite (SF64add x y) = true /\
  Qabs (SF2Q (SF64add x y) - (SF2Q x + SF2Q y)) <= unit_roundoff * Qabs (SF2Q x + SF2Q y).
Proof.
  intros Vx Vy Fx Fy Hmax.
  destruct x as [sx | sx | | sx mx ex]; try discriminate;
    destruct y as [sy | sy | | sy my ey]; try discriminate;
    cbn [SF64add SFadd].
  - split; [destruct sx, sy; reflexivity | ].
    destruct sx, sy; vm_compute; discriminate.
  - split; [reflexivity | ].
    setoid_replace (SF2Q (S754_zero sx) + SF2Q (S754_finite sy my ey))
      with (SF2Q (S754_finite sy my ey)) by (cbn [SF2Q]; ring).
    apply exact_result.
  - split; [reflexivity | ].
    setoid_replace (SF2Q (S754_finite sx mx ex) + SF2Q (S754_zero sy))
      with (SF2Q (S754_finite sx mx ex)) by (cbn [SF2Q]; ring).
    apply exact_result.
  - apply valid_binary_finite in Vx, Vy. destruct Vx as [Cx _], Vy as [Cy _].
    apply canonical_mantissa_cases in Cx, Cy.
    pose proof (aligned_sum sx sy mx my ex ey false) as Sum. cbv zeta in Sum.
    rewrite <- Sum in *. apply binary_normalize_value; [lia | exact Hmax].
Qed.

Lemma SFsub_value (x y : spec_float) :
  valid_binary x = true -> valid_binary y = true ->
  SFfinite x = true -> SFfinite y = true ->
  Qabs (SF2Q x - SF2Q y) <= pow2 1023 ->
  SFfinite (SF64sub x y) = true /\
  Qabs (SF2Q (SF64sub x y) - (SF2Q x - SF2Q y)) <= unit_roundoff * Qabs (SF2Q x - SF2Q y).
Proof.
  intros Vx Vy Fx Fy Hmax.
  destruct x as [sx | sx | | sx mx ex]; try discriminate;
    destruct y as [sy | sy | | sy my ey]; try discriminate;
    cbn [SF64sub SFsub].
  - split; [destruct sx, sy; reflexivity | ].
    destruct sx, sy; vm_compute; discriminate.
  - split; [reflexivity | ].
    setoid_replace (SF2Q (S754_zero sx) - SF2Q (S754_finite sy my ey))
      with (SF2Q (S754_finite (negb sy) my ey))
      by (rewrite !SF2Q_finite; destruct sy; cbn [SF2Q signed negb]; ring).
    apply exact_result.
  - split; [reflexivity | ].
    setoid_replace (SF2Q (S754_finite sx mx ex) - SF2Q (S754_zero sy))
      with (SF2Q (S754_finite sx mx ex)) by (cbn [SF2Q]; ring).
    apply exact_result.
  - apply valid_binary_finite in Vx, Vy. destruct Vx as [Cx _], Vy as [Cy _].
    apply canonical_mantissa_cases in Cx, Cy.
    pose proof (aligned_sum sx sy mx my ex ey true) as Sum. cbv zeta in Sum.
    rewrite <- Sum in *. apply binary_normalize_value; [lia | exact Hmax].
Qed.

(** *** Division *)

Lemma new_location_represents (d q r : Z) :
  (0 < d)%Z -> (0 <= r < d)%Z ->
  represents (shr_record_of_loc q (new_location d r))
    (inject_Z q + inject_Z r / inject_Z d).
Proof.
  intros Hd [Hr0 Hr].
  assert (Qd : 0 < inject_Z d) by (change 0 with (inject_Z 0); rewrite <- Zlt_Qlt; exact Hd).
  assert (Qr : 0 <= inject_Z r) by (change 0 with (inject_Z 0); rewrite <- Zle_Qle; exact Hr0).
  assert (Pos : (0 < r)%Z -> 0 < inject_Z r / inject_Z d).
  { intros P. apply Qlt_shift_div_l; [exact Qd | ]. rewrite Qmult_0_l.
    change 0 with (inject_Z 0). rewrite <- Zlt_Qlt. exact P. }
  assert (One : inject_Z r / inject_Z d < 1).
  { apply Qlt_shift_div_r; [exact Qd | ]. rewrite Qmult_1_l, <- Zlt_Qlt. exact Hr. }
  assert (Low : (2 * r < d)%Z -> inject_Z r / inject_Z d < 1 # 2).
  { intros L. apply Qlt_shift_div_r; [exact Qd | ].
    rewrite Zlt_Qlt, inject_Z_mult in L. change (inject_Z 2) with 2 in L. lra. }
  assert (High : (d < 2 * r)%Z -> (1 # 2) < inject_Z r / inject_Z d).
  { intros L. apply Qlt_shift_div_l; [exact Qd | ].
    rewrite Zlt_Qlt, inject_Z_mult in L. change (inject_Z 2) with 2 in L. lra. }
  assert (Mid : (2 * r = d)%Z -> inject_Z r / inject_Z d == 1 # 2).
  { intros M. rewrite <- M in *. rewrite inject_Z_mult in *. change (inject_Z 2) with 2 in *.
    field. lra. }
  assert (Zero : r = 0%Z -> inject_Z q + inject_Z r / inject_Z d == inject_Z q).
  { intros ->. change (inject_Z 0) with 0. field. lra. }
  unfold new_location. destruct (Z.even d) eqn:Ev.
  - unfold new_location_even. destruct (Z.eqb_spec r 0) as [Z | NZ].
    + unfold represents. cbn [shr_record_of_loc shr_m shr_r shr_s]. apply Zero, Z.
    + assert (P : (0 < r)%Z) by lia. specialize (Pos P).
      destruct (Z.compare_spec (2 * r) d) as [C | C | C];
        unfold represents; cbn [shr_record_of_loc shr_m shr_r shr_s].
      * rewrite (Mid C). reflexivity.
      * specialize (Low C). split; lra.
      * specialize (High C). split; lra.
  - unfold new_location_odd. destruct (Z.eqb_spec r 0) as [Z | NZ].
    + unfold represents. cbn [shr_record_of_loc shr_m shr_r shr_s]. apply Zero, Z.
    + assert (P : (0 < r)%Z) by lia. specialize (Pos P).
      assert (Odd : (2 * r <> d)%Z).
      { intros M. rewrite <- M, Z.even_mul in Ev. discriminate. }
      destruct (Z.compare_spec (2 * r + 1) d) as [C | C | C];
        unfold represents; cbn [shr_record_of_loc shr_m shr_r shr_s].
      * assert (L : (2 * r < d)%Z) by lia. specialize (Low L). split; lra.
      * assert (L : (2 * r < d)%Z) by lia. specialize (Low L). split; lra.
      * assert (L : (d < 2 * r)%Z) by lia. specialize (High L). split; lra.
Qed.

Lemma signed_div (s t : bool) (a b : Q) :
  ~ b == 0 -> signed s a / signed t b == signed (xorb s t) (a / b).
Proof. intros Hb. destruct s, t; cbn [signed xorb]; field; lra. Qed.

Lemma SFdiv_value (x y : spec_float) :
  valid_binary x = true -> valid_binary y = true ->
  SFfinite x = true -> SFfinite y = true ->
  ~ SF2Q y == 0 ->
  Qabs (SF2Q x / SF2Q y) <= pow2 1023 ->
  SFfinite (SF64div x y) = true /\
  Qabs (SF2Q (SF64div x y) - SF2Q x / SF2Q y)
  <= unit_roundoff * Qabs (SF2Q x / SF2Q y) + half_least.
Proof.
  intros Vx Vy Fx Fy Hy Hmax.
  assert (Hl : 0 < half_least) by apply pow2_pos.
  destruct y as [sy | sy | | sy my ey]; try discriminate;
    [exfalso; apply Hy; reflexivity | ].
  destruct x as [sx | sx | | sx mx ex]; try discriminate; cbn [SF64div SFdiv].
  { split; [reflexivity | ]. cbn [SF2Q].
    setoid_replace (0 / (if sy then - (inject_Z (Zpos my) * pow2 ey)
                         else inject_Z (Zpos my) * pow2 ey)) with 0
      by (unfold Qdiv; ring).
    cbn. lra. }
  apply valid_binary_finite in Vx, Vy. destruct Vx as [Cx _], Vy as [Cy _].
  apply canonical_mantissa_cases in Cx, Cy.
  unfold SFdiv_core_binary. cbn [Zdigits2].
  set (d1 := Zpos (digits2_pos mx)) in *. set (d2 := Zpos (digits2_pos my)) in *.
  set (e' := Z.min (fexp prec emax (d1 + ex - (d2 + ey))) (ex - ey)).
  set (sh := (ex - ey - e')%Z).
  assert (Hsh : (0 <= sh)%Z) by (unfold sh, e'; lia).
  set (m' := match sh with
             | 0%Z => Zpos mx
             | Zpos _ => Z.shiftl (Zpos mx) sh
             | Zneg _ => 0%Z
             end).
  assert (Em' : m' = (Zpos mx * 2 ^ sh)%Z).
  { unfold m'. destruct sh as [ | p | p] eqn:S; [lia | | lia].
    apply Z.shiftl_mul_pow2. lia. }
  clearbody m'.
  pose proof (Z_div_mod m' (Zpos my) eq_refl) as Hdiv.
  destruct (Z.div_eucl m' (Zpos my)) as [q r]. destruct Hdiv as [Eq Hr].
  assert (P : (0 < 2 ^ sh)%Z) by (apply Z.pow_pos_nonneg; lia).
  assert (Hq : (0 <= q)%Z) by nia.
  pose proof (new_location_represents (Zpos my) q r eq_refl Hr) as Hrep.
  set (v := inject_Z q + inject_Z r / inject_Z (Zpos my)) in *.
  assert (Qmy : 0 < inject_Z (Zpos my)) by reflexivity.
  assert (Ev : v == inject_Z (Zpos mx) * pow2 sh / inject_Z (Zpos my)).
  { unfold v. rewrite pow2_inject, <- inject_Z_mult, <- Em', Eq by exact Hsh.
    rewrite inject_Z_plus, inject_Z_mult. field. lra. }
  assert (Quot : SF2Q (S754_finite sx mx ex) / SF2Q (S754_finite sy my ey)
                 == signed (xorb sx sy) (v * pow2 e')).
  { rewrite !SF2Q_finite, signed_div.
    - pose proof (pow2_pos ey). pose proof (pow2_pos e'). pose proof (pow2_pos sh).
      destruct (xorb sx sy); cbn [signed]; rewrite Ev;
        replace ex with (sh + e' + ey)%Z at 1 by (unfold sh; lia);
        rewrite !pow2_add; field; repeat split; lra.
    - pose proof (pow2_pos ey). nra. }
  assert (Pv : 0 <= v * pow2 e').
  { apply Qmult_le_0_compat; [ | apply Qlt_le_weak, pow2_pos].
    eapply Qle_trans; [ | apply (represents_lower _ _ _ Hrep)].
    change 0 with (inject_Z 0). rewrite <- Zle_Qle. exact Hq. }
  rewrite Quot in *. rewrite signed_abs in * by exact Pv.
  destruct (binary_round_aux_value (xorb sx sy) q e' (new_location (Zpos my) r) v)
    as (a & Fin & Val & Ha & Err & _).
  - exact Hq.
  - exact Hrep.
  - (* the quotient has enough digits *)
    destruct (Z_le_gt_dec e' (-1074)) as [Low | High].
    + unfold fexp, SpecFloat.emin, prec, emax. lia.
    + assert (Hs : (53 - d1 + d2 <= sh)%Z).
      { unfold sh, e', fexp, SpecFloat.emin, prec, emax in *. lia. }
      pose proof (digits2_pos_bounds mx) as [Xlo Xhi].
      pose proof (digits2_pos_bounds my) as [Ylo Yhi].
      fold d1 in Xlo, Xhi. fold d2 in Ylo, Yhi.
      set (K := (d1 + sh - d2)%Z) in *.
      assert (PK : (0 < 2 ^ (K - 1))%Z) by (apply Z.pow_pos_nonneg; lia).
      assert (Split : (2 ^ (d1 - 1) * 2 ^ sh = 2 ^ (K - 1) * 2 ^ d2)%Z).
      { rewrite <- !Z.pow_add_r by (unfold d1, d2 in *; lia). f_equal. unfold K. lia. }
      assert (Big : (2 ^ (K - 1) <= q)%Z) by nia.
      assert (Pq : (0 < q)%Z) by lia.
      pose proof (Zdigits2_bounds q Pq) as [Qlo Qhi].
      assert (L : (2 ^ (K - 1) < 2 ^ Zdigits2 q)%Z) by lia.
      apply Z.pow_lt_mono_r_iff in L; [ | lia | pose proof (Zdigits2_pos q Pq); lia].
      unfold fexp, SpecFloat.emin, prec, emax. lia.
  - exact Hmax.
  - split; [exact Fin | ]. rewrite Val, signed_diff. exact Err.
Qed.

(** *** Comparison *)

Lemma canonical_lt (m1 m2 : positive) (e1 e2 : Z) :
  canonical_mantissa prec emax m1 e1 = true ->
  canonical_mantissa prec emax m2 e2 = true ->
  (e1 < e2)%Z ->
  inject_Z (Zpos m1) * pow2 e1 < inject_Z (Zpos m2) * pow2 e2.
Proof.
  intros C1 C2 L. apply canonical_mantissa_cases in C1, C2.
  pose proof (digits2_pos_bounds m1) as [_ Hi1].
  pose proof (digits2_pos_bounds m2) as [Lo2 _].
  assert (D2 : Zpos (digits2_pos m2) = 53%Z) by lia. rewrite D2 in Lo2.
  assert (H1 : (Zpos m1 < 2 ^ 53)%Z).
  { eapply Z.lt_le_trans; [exact Hi1 | ]. apply Z.pow_le_mono_r; lia. }
  rewrite Zlt_Qlt, <- (pow2_inject 53) in H1 by lia.
  change (53 - 1)%Z with 52%Z in Lo2. rewrite Zle_Qle, <- (pow2_inject 52) in Lo2 by lia.
  pose proof (pow2_pos e1) as P1. pose proof (pow2_pos e2) as P2.
  apply Qlt_le_trans with (pow2 53 * pow2 e1).
  - apply Qmult_lt_compat_r; assumption.
  - apply Qle_trans with (pow2 52 * pow2 e2).
    + rewrite <- !pow2_add. apply pow2_le. lia.
    + apply Qmult_le_compat_r; [exact Lo2 | lra].
Qed.

Lemma magnitude_pos (m : positive) (e : Z) : 0 < inject_Z (Zpos m) * pow2 e.
Proof.
  apply Qmult_lt_0_compat; [reflexivity | apply pow2_pos].
Qed.

Lemma magnitude_compare (m1 m2 : positive) (e1 e2 : Z) :
  canonical_mantissa prec emax m1 e1 = true ->
  canonical_mantissa prec emax m2 e2 = true ->
  (inject_Z (Zpos m1) * pow2 e1 ?= inject_Z (Zpos m2) * pow2 e2)
  = match (e1 ?= e2)%Z with
    | Lt => Lt
    | Gt => Gt
    | Eq => Pos.compare_cont Eq m1 m2
    end.
Proof.
  intros C1 C2. destruct (Z.compare_spec e1 e2) as [E | L | G].
  - subst e2. change (Pos.compare_cont Eq m1 m2) with (m1 ?= m2)%positive.
    pose proof (pow2_pos e1) as P.
    destruct (Pos.compare_spec m1 m2) as [M | M | M].
    + subst m2. apply (proj1 (Qeq_alt _ _)). reflexivity.
    + apply (proj1 (Qlt_alt _ _)). apply Qmult_lt_compat_r; [exact P | ].
      rewrite <- Zlt_Qlt. lia.
    + apply (proj1 (Qgt_alt _ _)). apply Qmult_lt_compat_r; [exact P | ].
      rewrite <- Zlt_Qlt. lia.
  - apply (proj1 (Qlt_alt _ _)). apply canonical_lt; assumption.
  - apply (proj1 (Qgt_alt _ _)). apply canonical_lt; assumption.
Qed.

Lemma Qcompare_opp (a b : Q) : (- a ?= - b) = CompOpp (a ?= b).
Proof.
  unfold Qcompare. cbn [Qopp Qnum Qden].
  rewrite !Z.mul_opp_l, Z.compare_opp, Z.compare_antisym. reflexivity.
Qed.

Lemma SFcompare_value (x y : spec_float) :
  valid_binary x = true -> valid_binary y = true ->
  SFfinite x = true -> SFfinite y = true ->
  SFcompare x y = Some (SF2Q x ?= SF2Q y).
Proof.
  intros Vx Vy Fx Fy.
  destruct x as [sx | sx | | sx mx ex]; try discriminate;
    destruct y as [sy | sy | | sy my ey]; try discriminate;
    cbn [SFcompare]; f_equal; symmetry.
  - pose proof (magnitude_pos my ey) as P.
    destruct sy; cbn [SF2Q]; [apply (proj1 (Qgt_alt _ _)) | apply (proj1 (Qlt_alt _ _))]; lra.
  - pose proof (magnitude_pos mx ex) as P.
    destruct sx; cbn [SF2Q]; [apply (proj1 (Qlt_alt _ _)) | apply (proj1 (Qgt_alt _ _))]; lra.
  - apply valid_binary_finite in Vx, Vy. destruct Vx as [Cx _], Vy as [Cy _].
    pose proof (magnitude_pos mx ex) as Px. pose proof (magnitude_pos my ey) as Py.
    pose proof (magnitude_compare mx my ex ey Cx Cy) as Cmp.
    destruct sx, sy; cbn [SF2Q].
    + rewrite Qcompare_opp, Cmp. destruct (ex ?= ey)%Z; reflexivity.
    + apply (proj1 (Qlt_alt _ _)). lra.
    + apply (proj1 (Qgt_alt _ _)). lra.
    + exact Cmp.
Qed.

(** *** Primitive floats *)

Lemma mul_value (a b : float) :
  finite a -> finite b -> Qabs (value a * value b) <= pow2 1023 ->
  finite (a * b)%float /\
  Qabs (value (a * b)%float - value a * value b)
  <= unit_roundoff * Qabs (value a * value b) + half_least.
Proof.
  unfold finite, value. rewrite FloatAxioms.mul_spec.
  apply SFmul_value; apply Prim2SF_valid.
Qed.

Lemma div_value (a b : float) :
  finite a -> finite b -> ~ value b == 0 -> Qabs (value a / value b) <= pow2 1023 ->
  finite (a / b)%float /\
  Qabs (value (a / b)%float - value a / value b)
  <= unit_roundoff * Qabs (value a / value b) + half_least.
Proof.
  unfold finite, value. rewrite FloatAxioms.div_spec.
  apply SFdiv_value; apply Prim2SF_valid.
Qed.

Lemma add_value (a b : float) :
  finite a -> finite b -> Qabs (value a + value b) <= pow2 1023 ->
  finite (a + b)%float /\
  Qabs (value (a + b)%float - (value a + value b))
  <= unit_roundoff * Qabs (value a + value b).
Proof.
  unfold finite, value. rewrite FloatAxioms.add_spec.
  apply SFadd_value; apply Prim2SF_valid.
Qed.

Lemma sub_value (a b : float) :
  finite a -> finite b -> Qabs (value a - value b) <= pow2 1023 ->
  finite (a - b)%float /\
  Qabs (value (a - b)%float - (value a - value b))
  <= unit_roundoff * Qabs (value a - value b).
Proof.
  unfold finite, value. rewrite FloatAxioms.sub_spec.
  apply SFsub_value; apply Prim2SF_valid.
Qed.

Lemma ltb_value (a b : float) :
  finite a -> finite b -> (a <? b)%float = true <-> value a < value b.
Proof.
  unfold finite, value. intros Fa Fb. rewrite FloatAxioms.ltb_spec. unfold SFltb.
  rewrite (SFcompare_value _ _ (Prim2SF_valid a) (Prim2SF_valid b) Fa Fb).
  rewrite Qlt_alt. destruct (SF2Q (Prim2SF a) ?= SF2Q (Prim2SF b)); split; congruence.
Qed.

Lemma is_nan_finite (a : float) : finite a -> is_nan a = false.
Proof.
  unfold finite, is_nan. intros Fa. rewrite FloatAxioms.eqb_spec. unfold SFeqb.
  rewrite (SFcompare_value _ _ (Prim2SF_valid a) (Prim2SF_valid a) Fa Fa).
  assert (E : (SF2Q (Prim2SF a) ?= SF2Q (Prim2SF a)) = Eq)
    by (apply (proj1 (Qeq_alt _ _)); reflexivity).
  rewrite E. reflexivity.
Qed.

(** *** Zero *)

Lemma SF2Q_zero (x : spec_float) :
  SFfinite x = true -> SF2Q x == 0 -> exists s : bool, x = S754_zero s.
Proof.
  destruct x as [s | s | | s m e]; try discriminate; intros _ V.
  - exists s. reflexivity.
  - exfalso. pose proof (magnitude_pos m e) as P. rewrite SF2Q_finite in V.
    destruct s; cbn [signed] in V; lra.
Qed.

Lemma mul_zero (a b : float) :
  finite a -> finite b -> value a == 0 ->
  finite (a * b)%float /\ value (a * b)%float == 0.
Proof.
  unfold finite, value. rewrite FloatAxioms.mul_spec. intros Fa Fb Va.
  destruct (SF2Q_zero _ Fa Va) as [s ->].
  destruct (Prim2SF b) as [t | t | | t m e]; try discriminate; split; reflexivity.
Qed.

Lemma div_zero (a b : float) :
  finite a -> finite b -> value a == 0 -> ~ value b == 0 ->
  finite (a / b)%float /\ value (a / b)%float == 0.
Proof.
  unfold finite, value. rewrite FloatAxioms.div_spec. intros Fa Fb Va Vb.
  destruct (SF2Q_zero _ Fa Va) as [s ->].
  destruct (Prim2SF b) as [t | t | | t m e]; try discriminate.
  - exfalso. apply Vb. reflexivity.
  - split; reflexivity.
Qed.

(** Two finite numbers of the same value are the same number, or the two
    zeros. *)
Lemma value_inj (a b : float) :
  finite a -> finite b -> value a == value b ->
  a = b \/ (value a == 0 /\ value b == 0).
Proof.
  unfold finite, value. intros Fa Fb V.
  pose proof (Prim2SF_valid a) as Va. pose proof (Prim2SF_valid b) as Vb.
  destruct (Prim2SF a) as [sa | sa | | sa ma ea] eqn:Ea; try discriminate;
    destruct (Prim2SF b) as [sb | sb | | sb mb eb] eqn:Eb; try discriminate.
  - right. split; reflexivity.
  - exfalso. pose proof (magnitude_pos mb eb) as P. rewrite SF2Q_finite in V.
    cbn [SF2Q] in V. destruct sb; cbn [signed] in V; lra.
  - exfalso. pose proof (magnitude_pos ma ea) as P. rewrite SF2Q_finite in V.
    cbn [SF2Q] in V. destruct sa; cbn [signed] in V; lra.
  - left. apply Prim2SF_inj. rewrite Ea, Eb.
    apply valid_binary_finite in Va, Vb. destruct Va as [Ca _], Vb as [Cb _].
    pose proof (magnitude_pos ma ea) as Pa. pose proof (magnitude_pos mb eb) as Pb.
    rewrite !SF2Q_finite in V.
    assert (Es : sa = sb).
    { destruct sa, sb; cbn [signed] in V; try reflexivity; exfalso; lra. }
    subst sb.
    assert (Em : inject_Z (Zpos ma) * pow2 ea == inject_Z (Zpos mb) * pow2 eb).
    { destruct sa; cbn [signed] in V; lra. }
    assert (Ee : ea = eb).
    { destruct (Z.lt_trichotomy ea eb) as [L | [E | G] ]; [ | exact E | ].
      - pose proof (canonical_lt ma mb ea eb Ca Cb L). exfalso. lra.
      - pose proof (canonical_lt mb ma eb ea Cb Ca G). exfalso. lra. }
    subst eb. f_equal.
    pose proof (pow2_pos ea) as P.
    assert (E : inject_Z (Zpos ma) == inject_Z (Zpos mb)).
    { apply (Qmult_inj_r _ _ (pow2 ea)); [lra | exact Em]. }
    assert (Ez : Zpos ma = Zpos mb) by (apply (proj1 (inject_Z_injective _ _)); exact E).
    injection Ez as Ez. exact Ez.
Qed.

(** ** Binary64: the operations of the program *)

Lemma unit_roundoff_value : unit_roundoff == 1 # 9007199254740992.
Proof. reflexivity. Qed.

Lemma half_least_small : 0 < half_least /\ half_least <= 1 # 9007199254740992.
Proof.
  split; [apply pow2_pos | ]. rewrite <- unit_roundoff_value. apply pow2_le. lia.
Qed.

Lemma pow2_1023 : pow2 1023 == 8388608 * pow2 1000 /\ 1 <= pow2 1000.
Proof.
  split.
  - replace 1023%Z with (23 + 1000)%Z by lia. rewrite pow2_add. reflexivity.
  - change 1 with (pow2 0). apply pow2_le. lia.
Qed.

Lemma float_max_value (a b : float) :
  finite a -> finite b ->
  finite (float_max a b) /\
  value (float_max a b) == Qmax (value a) (value b) /\
  (float_max a b = a \/ float_max a b = b).
Proof.
  intros Fa Fb. unfold float_max.
  rewrite (is_nan_finite a Fa), (is_nan_finite b Fb). cbn [orb].
  pose proof (ltb_value a b Fa Fb) as Lab. pose proof (ltb_value b a Fb Fa) as Lba.
  destruct (a <? b)%float.
  - split; [exact Fb | ]. split; [ | right; reflexivity].
    symmetry. apply Q.max_r. apply Qlt_le_weak. apply Lab. reflexivity.
  - destruct (b <? a)%float.
    + split; [exact Fa | ]. split; [ | left; reflexivity].
      symmetry. apply Q.max_l. apply Qlt_le_weak. apply Lba. reflexivity.
    + assert (E : value a == value b).
      { destruct (Qlt_le_dec (value a) (value b)) as [L | L];
          [apply Lab in L; discriminate | ].
        destruct (Qlt_le_dec (value b) (value a)) as [G | G];
          [apply Lba in G; discriminate | ].
        apply Qle_antisym; assumption. }
      destruct (classify a).
      all: try (split; [exact Fa | ]; split; [ | left; reflexivity];
                symmetry; apply Q.max_l; rewrite E; apply Qle_refl).
      split; [exact Fb | ]. split; [ | right; reflexivity].
      symmetry. apply Q.max_r. rewrite E. apply Qle_refl.
Qed.

(** The operations with the bound on the rounding error written as an
    interval: [B] bounds the exact result. *)
Lemma add_interval (a b : float) (B : Q) :
  finite a -> finite b -> - B <= value a + value b <= B -> B <= pow2 1023 ->
  finite (a + b)%float /\
  value a + value b - (1 # 9007199254740992) * B <= value (a + b)%float /\
  value (a + b)%float <= value a + value b + (1 # 9007199254740992) * B.
Proof.
  intros Fa Fb HB Hmax.
  assert (A : Qabs (value a + value b) <= B) by (apply Qabs_Qle_condition; exact HB).
  destruct (add_value a b Fa Fb) as [F E]; [lra | ].
  split; [exact F | ]. rewrite unit_roundoff_value in E.
  apply Qabs_diff_Qle_condition in E.
  assert ((1 # 9007199254740992) * Qabs (value a + value b) <= (1 # 9007199254740992) * B).
  { apply Qmult_le_l; [reflexivity | exact A]. }
  lra.
Qed.

Lemma sub_interval (a b : float) (B : Q) :
  finite a -> finite b -> - B <= value a - value b <= B -> B <= pow2 1023 ->
  finite (a - b)%float /\
  value a - value b - (1 # 9007199254740992) * B <= value (a - b)%float /\
  value (a - b)%float <= value a - value b + (1 # 9007199254740992) * B.
Proof.
  intros Fa Fb HB Hmax.
  assert (A : Qabs (value a - value b) <= B) by (apply Qabs_Qle_condition; exact HB).
  destruct (sub_value a b Fa Fb) as [F E]; [lra | ].
  split; [exact F | ]. rewrite unit_roundoff_value in E.
  apply Qabs_diff_Qle_condition in E.
  assert ((1 # 9007199254740992) * Qabs (value a - value b) <= (1 # 9007199254740992) * B).
  { apply Qmult_le_l; [reflexivity | exact A]. }
  lra.
Qed.

Lemma mul_interval (a b : float) (B : Q) :
  finite a -> finite b -> - B <= value a * value b <= B -> B <= pow2 1023 ->
  finite (a * b)%float /\
  value a * value b - ((1 # 9007199254740992) * B + half_least) <= value (a * b)%float /\
  value (a * b)%float <= value a * value b + ((1 # 9007199254740992) * B + half_least).
Proof.
  intros Fa Fb HB Hmax.
  assert (A : Qabs (value a * value b) <= B) by (apply Qabs_Qle_condition; exact HB).
  destruct (mul_value a b Fa Fb) as [F E]; [lra | ].
  split; [exact F | ]. rewrite unit_roundoff_value in E.
  apply Qabs_diff_Qle_condition in E.
  assert ((1 # 9007199254740992) * Qabs (value a * value b) <= (1 # 9007199254740992) * B).
  { apply Qmult_le_l; [reflexivity | exact A]. }
  lra.
Qed.

Lemma div_interval (a b : float) (B : Q) :
  finite a -> finite b -> ~ value b == 0 ->
  - B <= value a / value b <= B -> B <= pow2 1023 ->
  finite (a / b)%float /\
  value a / value b - ((1 # 9007199254740992) * B + half_least) <= value (a / b)%float /\
  value (a / b)%float <= value a / value b + ((1 # 9007199254740992) * B + half_least).
Proof.
  intros Fa Fb Hb HB Hmax.
  assert (A : Qabs (value a / value b) <= B) by (apply Qabs_Qle_condition; exact HB).
  destruct (div_value a b Fa Fb Hb) as [F E]; [lra | ].
  split; [exact F | ]. rewrite unit_roundoff_value in E.
  apply Qabs_diff_Qle_condition in E.
  assert ((1 # 9007199254740992) * Qabs (value a / value b) <= (1 # 9007199254740992) * B).
  { apply Qmult_le_l; [reflexivity | exact A]. }
  lra.
Qed.

(** The literals of [calculateSmartCrop] in binary64. *)
Lemma literals_binary64 :
  lit (num := float) 1000 = 1000%float /\
  lit (num := float) 2 = 2%float /\
  nadd (lit (num := float) 1) paddingPercent = 0x1.199999999999ap+0%float.
Proof. repeat split; vm_compute; reflexivity. Qed.

Lemma literal_values :
  (finite 1000%float /\ value 1000%float == 1000) /\
  (finite 2%float /\ value 2%float == 2) /\
  (finite 0x1.199999999999ap+0%float /\
   value 0x1.199999999999ap+0%float == 2476979795053773 # 2251799813685248).
Proof. repeat split; vm_compute; reflexivity. Qed.

(** A coordinate of the box in pixels: [(c / 1000) * d]. *)
Lemma pixel_binary64 (c d : float) :
  finite c -> finite d ->
  0 <= value c <= 1000 -> 0 < value d <= pow2 1000 ->
  let p := (c / 1000 * d)%float in
  finite p /\
  value c / 1000 * value d - ((4 # 9007199254740992) * value d + half_least) <= value p /\
  value p <= value c / 1000 * value d + ((4 # 9007199254740992) * value d + half_least).
Proof.
  intros Fc Fd [C0 C1] [D0 D1] p.
  destruct literal_values as ((F1000 & V1000) & _).
  destruct half_least_small as [H0 H1]. destruct pow2_1023 as [P1 P2].
  assert (Eq : value c / value 1000%float == value c * (1 # 1000)).
  { rewrite V1000. field. }
  destruct (div_interval c 1000%float 1 Fc F1000) as (Fq & Qlo & Qhi).
  { rewrite V1000. discriminate. }
  { rewrite Eq. lra. }
  { lra. }
  rewrite Eq in Qlo, Qhi.
  set (q := value (c / 1000)%float) in *.
  assert (Prod : (value c * (1 # 1000) - (2 # 9007199254740992)) * value d <= q * value d /\
                 q * value d <= (value c * (1 # 1000) + (2 # 9007199254740992)) * value d).
  { split; apply Qmult_le_compat_r; lra. }
  assert (T : 0 <= value c * (1 # 1000) * value d /\
              value c * (1 # 1000) * value d <= value d).
  { split; nra. }
  destruct (mul_interval (c / 1000)%float d (2 * value d) Fq Fd) as (Fp & Plo & Phi).
  { fold q. lra. }
  { lra. }
  fold q in Plo, Phi. fold p in Fp, Plo, Phi.
  split; [exact Fp | ].
  assert (E : value c / 1000 * value d == value c * (1 # 1000) * value d) by field.
  rewrite E. lra.
Qed.

(** One axis of [calculateSmartCrop]: the extent of the box in pixels and
    its centre. *)
Lemma axis_binary64 (c1 c2 d : float) :
  finite c1 -> finite c2 -> finite d ->
  0 <= value c1 <= 1000 -> 0 <= value c2 <= 1000 -> 0 < value d <= pow2 1000 ->
  let p1 := (c1 / 1000 * d)%float in
  let p2 := (c2 / 1000 * d)%float in
  let extent := (p2 - p1)%float in
  let centre := (p1 + extent / 2)%float in
  let e := (value c2 - value c1) / 1000 * value d in
  let m := (value c1 + value c2) / 2000 * value d in
  (finite extent /\
   e - ((10 # 9007199254740992) * value d + 3 * half_least) <= value extent /\
   value extent <= e + ((10 # 9007199254740992) * value d + 3 * half_least)) /\
  (finite centre /\
   m - ((12 # 9007199254740992) * value d + 5 * half_least) <= value centre /\
   value centre <= m + ((12 # 9007199254740992) * value d + 5 * half_least)) /\
  - value d <= e <= value d /\ 0 <= m <= value d.
Proof.
  intros F1 F2 Fd R1 R2 Rd p1 p2 extent centre e m.
  destruct (pixel_binary64 c1 d F1 Fd R1 Rd) as (Fp1 & Lo1 & Hi1).
  destruct (pixel_binary64 c2 d F2 Fd R2 Rd) as (Fp2 & Lo2 & Hi2).
  fold p1 in Fp1, Lo1, Hi1. fold p2 in Fp2, Lo2, Hi2.
  destruct literal_values as (_ & (F2' & V2) & _).
  destruct half_least_small as [H0 H1]. destruct pow2_1023 as [P1 P2].
  destruct R1 as [A0 A1], R2 as [B0 B1], Rd as [D0 D1].
  set (X1 := value c1 / 1000 * value d) in *.
  set (X2 := value c2 / 1000 * value d) in *.
  assert (T1 : 0 <= X1 <= value d).
  { unfold X1. split.
    - apply Qmult_le_0_compat; [ | lra]. apply Qle_shift_div_l; lra.
    - setoid_replace (value d) with (1 * value d) at 2 by ring.
      apply Qmult_le_compat_r; [ | lra]. apply Qle_shift_div_r; lra. }
  assert (T2 : 0 <= X2 <= value d).
  { unfold X2. split.
    - apply Qmult_le_0_compat; [ | lra]. apply Qle_shift_div_l; lra.
    - setoid_replace (value d) with (1 * value d) at 2 by ring.
      apply Qmult_le_compat_r; [ | lra]. apply Qle_shift_div_r; lra. }
  assert (Ee : e == X2 - X1) by (unfold e, X1, X2; field).
  assert (Em : m == X1 + (X2 - X1) * (1 # 2)) by (unfold m, X1, X2; field).
  destruct (sub_interval p2 p1 (2 * value d + 2 * half_least) Fp2 Fp1) as (Fe & Elo & Ehi);
    [lra | lra | ].
  fold extent in Fe, Elo, Ehi.
  assert (Eh : value extent / value 2%float == value extent * (1 # 2)).
  { rewrite V2. field. }
  destruct (div_interval extent 2%float (value d + 2 * half_least) Fe F2') as (Fh & Hlo & Hhi).
  { rewrite V2. discriminate. }
  { rewrite Eh. lra. }
  { lra. }
  rewrite Eh in Hlo, Hhi.
  destruct (add_interval p1 (extent / 2)%float (2 * value d + 4 * half_least) Fp1 Fh)
    as (Fc & Clo & Chi); [lra | lra | ].
  fold centre in Fc, Clo, Chi.
  split; [split; [exact Fe | rewrite Ee; lra] | ].
  split; [split; [exact Fc | rewrite Em; lra] | ].
  rewrite Ee, Em. lra.
Qed.

Lemma Qmax_close (a b A B e : Q) :
  A - e <= a <= A + e -> B - e <= b <= B + e ->
  Qmax A B - e <= Qmax a b <= Qmax A B + e.
Proof.
  intros [Alo Ahi] [Blo Bhi].
  destruct (Q.max_spec A B) as [[L1 ->] | [L1 ->] ];
    destruct (Q.max_spec a b) as [[L2 ->] | [L2 ->] ]; lra.
Qed.

Lemma tolerance_value (W H : float) :
  tolerance W H == (32 # 9007199254740992) * Qmax (value W) (value H) + 32 * half_least.
Proof.
  unfold tolerance, half_least.
  assert (E1 : pow2 (-48) == 32 # 9007199254740992) by reflexivity.
  assert (E2 : pow2 (-1070) == 32 * pow2 (-1075)).
  { replace (-1070)%Z with (5 + -1075)%Z by lia. rewrite pow2_add. reflexivity. }
  rewrite E1, E2. reflexivity.
Qed.

(** The rectangle that [calculateSmartCrop] returns in binary64: finite
    numbers, with the center and the size of exact arithmetic up to the
    tolerance. *)
Lemma center_size_binary64 (b : BoundingBox float) (imgWidth imgHeight : float) :
  normalised b -> dimension imgWidth -> dimension imgHeight ->
  let c := calculateSmartCrop b imgWidth imgHeight in
  let centreX := (value (xmin b) + value (xmax b)) / 2000 * value imgWidth in
  let centreY := (value (ymin b) + value (ymax b)) / 2000 * value imgHeight in
  let boxWidth := (value (xmax b) - value (xmin b)) / 1000 * value imgWidth in
  let boxHeight := (value (ymax b) - value (ymin b)) / 1000 * value imgHeight in
  finite (x c) /\ finite (y c) /\ finite (size c) /\
  Qabs (value (x c) + value (size c) / 2 - centreX) <= tolerance imgWidth imgHeight /\
  Qabs (value (y c) + value (size c) / 2 - centreY) <= tolerance imgWidth imgHeight /\
  Qabs (value (size c) - 1.1 * Qmax boxWidth boxHeight) <= tolerance imgWidth imgHeight.
Proof.
  intros (Bx1 & Bx2 & By1 & By2) (FW & W0 & W1) (FH & H0 & H1) c centreX centreY boxWidth boxHeight.
  destruct Bx1 as (Fx1 & Lx1 & Ux1), Bx2 as (Fx2 & Lx2 & Ux2).
  destruct By1 as (Fy1 & Ly1 & Uy1), By2 as (Fy2 & Ly2 & Uy2).
  destruct literals_binary64 as (L1000 & L2 & L11).
  unfold c, calculateSmartCrop. cbn [x y size]. rewrite L1000, L2, L11.
  cbn [nadd nsub nmul ndiv Math_max binary64].
  destruct (axis_binary64 (xmin b) (xmax b) imgWidth Fx1 Fx2 FW)
    as ((Fw & Wlo & Whi) & (Fcx & CXlo & CXhi) & Rw & Rcx); [lra | lra | lra | ].
  destruct (axis_binary64 (ymin b) (ymax b) imgHeight Fy1 Fy2 FH)
    as ((Fh & Hlo & Hhi) & (Fcy & CYlo & CYhi) & Rh & Rcy); [lra | lra | lra | ].
  cbv zeta in *. fold centreX in CXlo, CXhi, Rcx. fold centreY in CYlo, CYhi, Rcy.
  fold boxWidth in Wlo, Whi, Rw. fold boxHeight in Hlo, Hhi, Rh.
  set (width := (xmax b / 1000 * imgWidth - xmin b / 1000 * imgWidth)%float) in *.
  set (height := (ymax b / 1000 * imgHeight - ymin b / 1000 * imgHeight)%float) in *.
  set (cx := (xmin b / 1000 * imgWidth + width / 2)%float) in *.
  set (cy := (ymin b / 1000 * imgHeight + height / 2)%float) in *.
  destruct literal_values as (_ & (F2' & V2) & (F11 & V11)).
  destruct half_least_small as [E0 E1]. destruct pow2_1023 as [P1 P2].
  rewrite tolerance_value.
  set (M := Qmax (value imgWidth) (value imgHeight)).
  assert (MW : value imgWidth <= M) by apply Q.le_max_l.
  assert (MH : value imgHeight <= M) by apply Q.le_max_r.
  assert (MP : M <= pow2 1000) by (unfold M; apply Q.max_lub; assumption).
  (* the larger side *)
  destruct (float_max_value width height Fw Fh) as (Fb & Vb & _).
  set (base := float_max width height) in *.
  pose proof (Qmax_close (value width) (value height) boxWidth boxHeight
                ((10 # 9007199254740992) * M + 3 * half_least)) as Close.
  rewrite <- Vb in Close.
  destruct Close as [Blo Bhi]; [lra | lra | ].
  set (S0 := Qmax boxWidth boxHeight) in *.
  assert (RS : - M <= S0 <= M).
  { unfold S0. destruct (Q.max_spec boxWidth boxHeight) as [[_ ->] | [_ ->] ]; lra. }
  (* the size *)
  set (C := 2476979795053773 # 2251799813685248) in *.
  assert (Eb : value base * value 0x1.199999999999ap+0%float == value base * C).
  { rewrite V11. reflexivity. }
  destruct (mul_interval base 0x1.199999999999ap+0%float (3 * M + 4 * half_least) Fb F11)
    as (Fs & Slo & Shi).
  { rewrite Eb. unfold C. lra. }
  { lra. }
  rewrite Eb in Slo, Shi. unfold C in Slo, Shi.
  set (sz := (base * 0x1.199999999999ap+0)%float) in *.
  assert (Es : value sz / value 2%float == value sz * (1 # 2)).
  { rewrite V2. field. }
  destruct (div_interval sz 2%float (M + 3 * half_least) Fs F2') as (Fhs & HSlo & HShi).
  { rewrite V2. discriminate. }
  { rewrite Es. lra. }
  { lra. }
  rewrite Es in HSlo, HShi.
  destruct (sub_interval cx (sz / 2)%float (4 * M + 10 * half_least) Fcx Fhs)
    as (Fx & Xlo & Xhi); [lra | lra | ].
  destruct (sub_interval cy (sz / 2)%float (4 * M + 10 * half_least) Fcy Fhs)
    as (Fy & Ylo & Yhi); [lra | lra | ].
  split; [exact Fx | ]. split; [exact Fy | ]. split; [exact Fs | ].
  assert (Half : forall q : Q, q / 2 == q * (1 # 2)) by (intros; field).
  rewrite (Half (value sz)).
  split; [ | split]; apply Qabs_diff_Qle_condition; lra.
Qed.

(** *** Sign of the size *)

Lemma pixel_value_ext (c1 c2 d : float) :
  finite c1 -> finite c2 -> finite d -> value c1 == value c2 ->
  value (c1 / 1000 * d)%float == value (c2 / 1000 * d)%float.
Proof.
  intros F1 F2 Fd E.
  destruct (value_inj c1 c2 F1 F2 E) as [-> | [Z1 Z2] ]; [reflexivity | ].
  destruct literal_values as ((F1000 & V1000) & _).
  assert (N : ~ value 1000%float == 0) by (rewrite V1000; discriminate).
  destruct (div_zero c1 1000%float F1 F1000 Z1 N) as [Fq1 Vq1].
  destruct (div_zero c2 1000%float F2 F1000 Z2 N) as [Fq2 Vq2].
  destruct (mul_zero _ d Fq1 Fd Vq1) as [_ ->].
  destruct (mul_zero _ d Fq2 Fd Vq2) as [_ ->]. reflexivity.
Qed.

Lemma small_powers :
  0 < pow2 (-1000) /\ half_least == (1 # 37778931862957161709568) * pow2 (-1000) /\
  pow2 (-1041) == (1 # 2199023255552) * pow2 (-1000) /\
  pow2 (-30) == 1 # 1073741824.
Proof.
  split; [apply pow2_pos | ]. split; [ | split].
  - unfold half_least. replace (-1075)%Z with (-75 + -1000)%Z by lia.
    rewrite pow2_add. reflexivity.
  - replace (-1041)%Z with (-41 + -1000)%Z by lia. rewrite pow2_add. reflexivity.
  - reflexivity.
Qed.

Lemma extent_sign_binary64 (c1 c2 d : float) :
  finite c1 -> finite c2 -> finite d ->
  0 <= value c1 <= 1000 -> 0 <= value c2 <= 1000 ->
  pow2 (-1000) <= value d <= pow2 1000 ->
  separated c1 c2 ->
  let extent := (c2 / 1000 * d - c1 / 1000 * d)%float in
  (value c1 == value c2 /\ value extent == 0) \/
  (value c1 < value c2 /\ pow2 (-1041) <= value extent) \/
  (value c2 < value c1 /\ value extent <= - pow2 (-1041)).
Proof.
  intros F1 F2 Fd R1 R2 [D0 D1] Sep extent.
  destruct small_powers as (P0 & Eh & El & Eg).
  assert (Dpos : 0 < value d) by lra.
  destruct (axis_binary64 c1 c2 d F1 F2 Fd R1 R2 (conj Dpos D1))
    as ((Fe & Elo & Ehi) & _ & Re & _).
  cbv zeta in Fe, Elo, Ehi, Re. fold extent in Fe, Elo, Ehi.
  destruct (pixel_binary64 c1 d F1 Fd R1 (conj Dpos D1)) as (Fp1 & _).
  destruct (pixel_binary64 c2 d F2 Fd R2 (conj Dpos D1)) as (Fp2 & _).
  cbv zeta in Fp1, Fp2.
  destruct Sep as [E | G].
  - left. split; [exact E | ].
    pose proof (pixel_value_ext c1 c2 d F1 F2 Fd E) as Ep.
    destruct (sub_interval _ _ 0 Fp2 Fp1) as (_ & Lo & Hi).
    + rewrite Ep. lra.
    + apply Qlt_le_weak, pow2_pos.
    + fold extent in Lo, Hi. rewrite Ep in Lo, Hi. lra.
  - right. rewrite Eg in G.
    assert (Scale : forall g : Q, (1 # 1073741824) <= g ->
                (1 # 1073741824000) * value d <= g / 1000 * value d).
    { intros g Hg. apply Qmult_le_compat_r; [ | lra].
      apply Qle_shift_div_l; [reflexivity | lra]. }
    destruct (Qlt_le_dec (value c2 - value c1) 0) as [Neg | Pos].
    + right. rewrite Qabs_neg in G by lra.
      split; [lra | ].
      pose proof (Scale (value c1 - value c2)) as S.
      assert (Sym : (value c2 - value c1) / 1000 * value d
                    == - ((value c1 - value c2) / 1000 * value d)) by field.
      rewrite Sym in Ehi. rewrite El. lra.
    + left. rewrite Qabs_pos in G by lra.
      split; [lra | ].
      pose proof (Scale (value c2 - value c1)) as S. rewrite El. lra.
Qed.

Lemma scaled_sign_binary64 (base : float) :
  finite base -> - pow2 1001 <= value base <= pow2 1001 ->
  let scaled := (base * 0x1.199999999999ap+0)%float in
  finite scaled /\
  (value base == 0 -> value scaled == 0) /\
  (pow2 (-1041) <= value base -> 0 < value scaled) /\
  (value base <= - pow2 (-1041) -> value scaled < 0).
Proof.
  intros Fb [B0 B1] scaled.
  destruct literal_values as (_ & _ & (F11 & V11)).
  destruct small_powers as (P0 & Eh & El & _).
  assert (Big : pow2 1023 == 4194304 * pow2 1001).
  { replace 1023%Z with (22 + 1001)%Z by lia. rewrite pow2_add. reflexivity. }
  assert (P1 : 0 < pow2 1001) by apply pow2_pos.
  set (C := 2476979795053773 # 2251799813685248) in *.
  assert (Eb : value base * value 0x1.199999999999ap+0%float == value base * C).
  { rewrite V11. reflexivity. }
  destruct (Qlt_le_dec (value base) 0) as [Neg | Pos].
  - destruct (mul_interval base _ (- (value base * C)) Fb F11) as (Fs & Lo & Hi).
    { rewrite Eb. unfold C. lra. }
    { unfold C. lra. }
    fold scaled in Fs, Lo, Hi. rewrite Eb in Lo, Hi. unfold C in Lo, Hi.
    split; [exact Fs | ]. split; [intros Z; lra | ]. split; [intros L; lra | ].
    intros L. rewrite El in L. lra.
  - destruct (mul_interval base _ (value base * C) Fb F11) as (Fs & Lo & Hi).
    { rewrite Eb. unfold C. lra. }
    { unfold C. lra. }
    fold scaled in Fs, Lo, Hi. rewrite Eb in Lo, Hi. unfold C in Lo, Hi.
    split; [exact Fs | ]. split; [ | split].
    + intros Z. destruct (mul_zero base _ Fb F11 Z) as [_ V]. exact V.
    + intros L. rewrite El in L. lra.
    + intros L. rewrite El in L. lra.
Qed.

Lemma calculateSmartCrop_size_binary64 (b : BoundingBox float) (imgWidth imgHeight : float) :
  size (calculateSmartCrop b imgWidth imgHeight)
  = (float_max (xmax b / 1000 * imgWidth - xmin b / 1000 * imgWidth)
               (ymax b / 1000 * imgHeight - ymin b / 1000 * imgHeight)
     * 0x1.199999999999ap+0)%float.
Proof.
  destruct literals_binary64 as (L1000 & L2 & L11).
  unfold calculateSmartCrop. cbn [size]. rewrite L1000, L11. reflexivity.
Qed.

Lemma extent_range_binary64 (c1 c2 d : float) :
  finite c1 -> finite c2 -> finite d ->
  0 <= value c1 <= 1000 -> 0 <= value c2 <= 1000 -> 0 < value d <= pow2 1000 ->
  let extent := (c2 / 1000 * d - c1 / 1000 * d)%float in
  finite extent /\ - pow2 1001 <= value extent <= pow2 1001.
Proof.
  intros F1 F2 Fd R1 R2 Rd extent.
  destruct (axis_binary64 c1 c2 d F1 F2 Fd R1 R2 Rd) as ((Fe & Elo & Ehi) & _ & Re & _).
  cbv zeta in Fe, Elo, Ehi, Re. fold extent in Fe, Elo, Ehi.
  destruct half_least_small as [E0 E1]. destruct pow2_1023 as [_ P2].
  assert (Big : pow2 1001 == 2 * pow2 1000).
  { replace 1001%Z with (1 + 1000)%Z by lia. rewrite pow2_add. reflexivity. }
  split; [exact Fe | ]. rewrite Big. lra.
Qed.

(** The sign of the size in binary64, for coordinates that are equal or
    apart. *)
Lemma size_sign_binary64
    (b : BoundingBox float) (imgWidth imgHeight : float) :
  normalised b -> dimension imgWidth -> dimension imgHeight ->
  pow2 (-1000) <= value imgWidth -> pow2 (-1000) <= value imgHeight ->
  separated (xmin b) (xmax b) -> separated (ymin b) (ymax b) ->
  finite (size (calculateSmartCrop b imgWidth imgHeight)) /\
  (0 < value (size (calculateSmartCrop b imgWidth imgHeight))
   <-> value (xmin b) < value (xmax b) \/ value (ymin b) < value (ymax b)).
Proof.
  intros (Bx1 & Bx2 & By1 & By2) (FW & W0 & W1) (FH & H0 & H1) LW LH SepX SepY.
  destruct Bx1 as (Fx1 & Lx1 & Ux1), Bx2 as (Fx2 & Lx2 & Ux2).
  destruct By1 as (Fy1 & Ly1 & Uy1), By2 as (Fy2 & Ly2 & Uy2).
  rewrite calculateSmartCrop_size_binary64.
  destruct (extent_range_binary64 (xmin b) (xmax b) imgWidth Fx1 Fx2 FW)
    as (Fw & Rw); [lra | lra | lra | ].
  destruct (extent_range_binary64 (ymin b) (ymax b) imgHeight Fy1 Fy2 FH)
    as (Fh & Rh); [lra | lra | lra | ].
  pose proof (extent_sign_binary64 (xmin b) (xmax b) imgWidth Fx1 Fx2 FW) as SignX.
  pose proof (extent_sign_binary64 (ymin b) (ymax b) imgHeight Fy1 Fy2 FH) as SignY.
  cbv zeta in Fw, Rw, Fh, Rh, SignX, SignY.
  set (width := (xmax b / 1000 * imgWidth - xmin b / 1000 * imgWidth)%float) in *.
  set (height := (ymax b / 1000 * imgHeight - ymin b / 1000 * imgHeight)%float) in *.
  specialize (SignX (conj Lx1 Ux1) (conj Lx2 Ux2) (conj LW W1) SepX).
  specialize (SignY (conj Ly1 Uy1) (conj Ly2 Uy2) (conj LH H1) SepY).
  destruct (float_max_value width height Fw Fh) as (Fb & Vb & _).
  set (base := float_max width height) in *.
  assert (Rb : - pow2 1001 <= value base <= pow2 1001).
  { rewrite Vb. destruct (Q.max_spec (value width) (value height)) as [[_ ->] | [_ ->] ]; lra. }
  destruct (scaled_sign_binary64 base Fb Rb) as (Fs & Zero & Positive & Negative).
  cbv zeta in Fs, Zero, Positive, Negative.
  split; [exact Fs | ].
  assert (L0 : 0 < pow2 (-1041)) by apply pow2_pos.
  destruct (Q.max_spec (value width) (value height)) as [[Cmp Em] | [Cmp Em] ];
    rewrite Em in Vb;
    destruct SignX as [[Ex Vx] | [[Ex Vx] | [Ex Vx] ] ];
    destruct SignY as [[Ey Vy] | [[Ey Vy] | [Ey Vy] ] ];
    split; intros Hyp;
    try (left; exact Ex); try (right; exact Ey);
    try (apply Positive; lra);
    try (exfalso; lra);
    try (exfalso; assert (Z : value base == 0) by lra; apply Zero in Z; lra);
    try (exfalso; assert (N : value base <= - pow2 (-1041)) by lra; apply Negative in N; lra);
    try (destruct Hyp as [Hyp | Hyp]; exfalso; lra).
Qed.

(** The size in binary64 for a box without width or without height. *)
Lemma degenerate_size_binary64
    (b : BoundingBox float) (imgWidth imgHeight : float) :
  normalised b -> dimension imgWidth -> dimension imgHeight ->
  let c := calculateSmartCrop b imgWidth imgHeight in
  let boxWidth := (value (xmax b) - value (xmin b)) / 1000 * value imgWidth in
  let boxHeight := (value (ymax b) - value (ymin b)) / 1000 * value imgHeight in
  finite (size c) /\
  (value (xmin b) == value (xmax b) ->
   Qabs (value (size c) - 1.1 * Qmax 0 boxHeight) <= tolerance imgWidth imgHeight) /\
  (value (ymin b) == value (ymax b) ->
   Qabs (value (size c) - 1.1 * Qmax 0 boxWidth) <= tolerance imgWidth imgHeight) /\
  (value (xmin b) == value (xmax b) -> value (ymin b) == value (ymax b) ->
   value (size c) == 0).
Proof.
  intros Nb DW DH c boxWidth boxHeight.
  destruct (center_size_binary64 b imgWidth imgHeight Nb DW DH)
    as (_ & _ & Fs & _ & _ & Near).
  cbv zeta in Fs, Near. fold c boxWidth boxHeight in Fs, Near.
  split; [exact Fs | ]. split; [ | split].
  - intros E. assert (Z : boxWidth == 0) by (unfold boxWidth; rewrite E; field).
    rewrite Z in Near. exact Near.
  - intros E. assert (Z : boxHeight == 0) by (unfold boxHeight; rewrite E; field).
    rewrite Z, Q.max_comm in Near. exact Near.
  - intros Ex Ey. unfold c. rewrite calculateSmartCrop_size_binary64.
    destruct Nb as (Bx1 & Bx2 & By1 & By2). destruct DW as (FW & W0 & W1), DH as (FH & H0 & H1).
    destruct Bx1 as (Fx1 & Lx1 & Ux1), Bx2 as (Fx2 & Lx2 & Ux2).
    destruct By1 as (Fy1 & Ly1 & Uy1), By2 as (Fy2 & Ly2 & Uy2).
    destruct literal_values as (_ & _ & (F11 & V11)).
    destruct (pixel_binary64 (xmin b) imgWidth Fx1 FW) as (Fp1 & _); [lra | lra | ].
    destruct (pixel_binary64 (xmax b) imgWidth Fx2 FW) as (Fp2 & _); [lra | lra | ].
    destruct (pixel_binary64 (ymin b) imgHeight Fy1 FH) as (Fq1 & _); [lra | lra | ].
    destruct (pixel_binary64 (ymax b) imgHeight Fy2 FH) as (Fq2 & _); [lra | lra | ].
    cbv zeta in Fp1, Fp2, Fq1, Fq2.
    pose proof (pixel_value_ext _ _ imgWidth Fx1 Fx2 FW Ex) as Epx.
    pose proof (pixel_value_ext _ _ imgHeight Fy1 Fy2 FH Ey) as Epy.
    pose proof (pow2_pos 1023) as Pbig.
    destruct (sub_interval _ _ 0 Fp2 Fp1) as (Fw & Wlo & Whi); [rewrite Epx; lra | lra | ].
    destruct (sub_interval _ _ 0 Fq2 Fq1) as (Fh & Hlo & Hhi); [rewrite Epy; lra | lra | ].
    rewrite Epx in Wlo, Whi. rewrite Epy in Hlo, Hhi.
    destruct (float_max_value _ _ Fw Fh) as (Fb & Vb & _).
    apply (mul_zero _ _ Fb F11). rewrite Vb.
    destruct (Q.max_spec
                (value (xmax b / 1000 * imgWidth - xmin b / 1000 * imgWidth)%float)
                (value (ymax b / 1000 * imgHeight - ymin b / 1000 * imgHeight)%float))
      as [[_ ->] | [_ ->] ]; lra.
Qed.

(** *** Resize *)

(** One axis of [handleSizeChange]: the new origin
    [x + (size / 2 - value / 2)]. *)
Lemma resize_axis_binary64 (origin oldSize newSize : float) (R : Q) :
  finite origin -> finite oldSize -> finite newSize ->
  - R <= value origin <= R -> - R <= value oldSize <= R -> - R <= value newSize <= R ->
  R <= pow2 1010 ->
  let moved := (origin + (oldSize / 2 - newSize / 2))%float in
  finite moved /\
  - (3 * R + 3 * half_least) <= value moved <= 3 * R + 3 * half_least /\
  Qabs (value moved + value newSize / 2 - (value origin + value oldSize / 2))
  <= (10 # 9007199254740992) * R + 3 * half_least.
Proof.
  intros Fo Fs Fn Ro Rs Rn RR moved.
  destruct literal_values as (_ & (F2' & V2) & _).
  destruct half_least_small as [E0 E1].
  assert (Big : pow2 1023 == 8192 * pow2 1010).
  { replace 1023%Z with (13 + 1010)%Z by lia. rewrite pow2_add. reflexivity. }
  assert (Pbig : 1 <= pow2 1010) by (change 1 with (pow2 0); apply pow2_le; lia).
  assert (R0 : 0 <= R) by lra.
  assert (Half : forall f : float, value f / value 2%float == value f * (1 # 2)).
  { intros f. rewrite V2. field. }
  assert (N2 : ~ value 2%float == 0) by (rewrite V2; discriminate).
  destruct (div_interval oldSize 2%float R Fs F2' N2) as (Fhs & HSlo & HShi);
    [rewrite Half; lra | lra | ].
  destruct (div_interval newSize 2%float R Fn F2' N2) as (Fhn & HNlo & HNhi);
    [rewrite Half; lra | lra | ].
  rewrite Half in HSlo, HShi, HNlo, HNhi.
  destruct (sub_interval (oldSize / 2)%float (newSize / 2)%float (3 * R + 2 * half_least) Fhs Fhn)
    as (Foff & Olo & Ohi); [lra | lra | ].
  destruct (add_interval origin (oldSize / 2 - newSize / 2)%float (5 * R + 3 * half_least)
              Fo Foff)
    as (Fm & Mlo & Mhi); [lra | lra | ].
  fold moved in Fm, Mlo, Mhi.
  split; [exact Fm | ]. split; [lra | ].
  assert (H2 : forall q : Q, q / 2 == q * (1 # 2)) by (intros; field).
  rewrite !H2. apply Qabs_diff_Qle_condition. lra.
Qed.


(** ** Crop-rectangle derivation *)

Lemma calculateSmartCrop_size (b : BoundingBox Q) (imgWidth imgHeight : Q) :
  size (calculateSmartCrop b imgWidth imgHeight)
  = Math_max (pixelWidth b imgWidth) (pixelHeight b imgHeight) * (1 + 0.1).
Proof. reflexivity. Qed.

Lemma pixelWidth_sign (b : BoundingBox Q) (imgWidth : Q) :
  0 < imgWidth ->
  (0 < pixelWidth b imgWidth <-> xmin b < xmax b) /\
  (pixelWidth b imgWidth == 0 <-> xmin b == xmax b).
Proof.
  intros Hw. unfold pixelWidth. exact_arithmetic. literal_division.
  repeat split; intros; nra.
Qed.

Lemma pixelHeight_sign (b : BoundingBox Q) (imgHeight : Q) :
  0 < imgHeight ->
  (0 < pixelHeight b imgHeight <-> ymin b < ymax b) /\
  (pixelHeight b imgHeight == 0 <-> ymin b == ymax b).
Proof.
  intros Hh. unfold pixelHeight. exact_arithmetic. literal_division.
  repeat split; intros; nra.
Qed.

(** The binary64 run of the example of the specification: the result is
    the exact one up to one unit in the last place. *)
Lemma calculateSmartCrop_example_binary64 :
  calculateSmartCrop (num := float) exampleBox (lit 1000) (lit 1000)
  = {| x := 0x1.67fffffffffffp+7%float;
       y := 0x1.3fffffffffffep+6%float;
       size := 0x1.b800000000001p+8%float |}.
Proof. vm_compute. reflexivity. Qed.

(** C1, as stated, fails in the arithmetic of the program: for the box
    [{ymin:100, xmin:200, ymax:500, xmax:600}] on a 1000 x 1000 image the
    result is not [{x:180, y:80, size:440}]; none of its three numbers is
    the one that the claim gives, and its size is not 1.1 times the pixel
    width of 400. *)
Lemma calculateSmartCrop_example_inexact :
  let c := calculateSmartCrop (num := float) exampleBox (lit 1000) (lit 1000) in
  c <> {| x := 180%float; y := 80%float; size := 440%float |} /\
  ~ value (x c) == 180 /\ ~ value (y c) == 80 /\ ~ value (size c) == 1.1 * 400.
Proof.
  cbv zeta. split; [ | repeat split; vm_compute; discriminate].
  intros E. apply (f_equal (fun c => PrimFloat.eqb (x c) 180)) in E.
  vm_compute in E. discriminate.
Qed.

(** C1, amended: the equalities hold up to rounding.  In binary64, for
    every box with coordinates between 0 and 1000 (whatever their order)
    and every image width and height that is positive and at most
    [2^1000], the three numbers that [calculateSmartCrop] returns are
    finite, the center [(x + size/2, y + size/2)] of the rectangle is
    within [2^-48 * max(width, height) + 2^-1070] of the center of the
    box in pixels, and its size is within the same tolerance of 1.1 times
    the larger of the pixel width and the pixel height of the box.  In
    exact arithmetic the center and the size are equal to them.  For the
    box [{ymin:100, xmin:200, ymax:500, xmax:600}] on a 1000 x 1000 image
    the program returns
    [{x:179.99999999999997, y:79.99999999999997, size:440.00000000000006}]. *)
Theorem calculateSmartCrop_center_size :
  (forall (b : BoundingBox float) (imgWidth imgHeight : float),
      normalised b -> dimension imgWidth -> dimension imgHeight ->
      let c := calculateSmartCrop b imgWidth imgHeight in
      let centreX := (value (xmin b) + value (xmax b)) / 2000 * value imgWidth in
      let centreY := (value (ymin b) + value (ymax b)) / 2000 * value imgHeight in
      let boxWidth := (value (xmax b) - value (xmin b)) / 1000 * value imgWidth in
      let boxHeight := (value (ymax b) - value (ymin b)) / 1000 * value imgHeight in
      finite (x c) /\ finite (y c) /\ finite (size c) /\
      Qabs (value (x c) + value (size c) / 2 - centreX) <= tolerance imgWidth imgHeight /\
      Qabs (value (y c) + value (size c) / 2 - centreY) <= tolerance imgWidth imgHeight /\
      Qabs (value (size c) - 1.1 * Qmax boxWidth boxHeight)
      <= tolerance imgWidth imgHeight) /\
  (forall (b : BoundingBox Q) (imgWidth imgHeight : Q),
      let c := calculateSmartCrop b imgWidth imgHeight in
      x c + size c / 2 == (xmin b / 1000 * imgWidth + xmax b / 1000 * imgWidth) / 2 /\
      y c + size c / 2 == (ymin b / 1000 * imgHeight + ymax b / 1000 * imgHeight) / 2 /\
      size c == 1.1 * Qmax (xmax b / 1000 * imgWidth - xmin b / 1000 * imgWidth)
                           (ymax b / 1000 * imgHeight - ymin b / 1000 * imgHeight)) /\
  calculateSmartCrop (num := float) exampleBox (lit 1000) (lit 1000)
  = {| x := 0x1.67fffffffffffp+7%float;
       y := 0x1.3fffffffffffep+6%float;
       size := 0x1.b800000000001p+8%float |}.
Proof.
  split; [ | split ].
  - exact center_size_binary64.
  - intros b imgWidth imgHeight c.
    assert (Hsize : size c == 1.1 * Qmax (pixelWidth b imgWidth) (pixelHeight b imgHeight)).
    { unfold c. rewrite calculateSmartCrop_size, Math_max_Qmax. lra. }
    split; [ | split ].
    + unfold c, calculateSmartCrop. cbn [x y size]. exact_arithmetic.
      literal_division. lra.
    + unfold c, calculateSmartCrop. cbn [x y size]. exact_arithmetic.
      literal_division. lra.
    + exact Hsize.
  - exact calculateSmartCrop_example_binary64.
Qed.

(** The box of the example on a 1000 x 1000 image, in binary64: the center
    is within [2^-48 * 1000 + 2^-1070] of (400, 300). *)
Lemma calculateSmartCrop_center_size_witness :
  let c := calculateSmartCrop (num := float) exampleBox (lit 1000) (lit 1000) in
  Qabs (value (x c) + value (size c) / 2
        - (value (lit (num := float) 200) + value (lit (num := float) 600)) / 2000
          * value (lit (num := float) 1000))
  <= tolerance (lit 1000) (lit 1000) /\
  Qabs (value (y c) + value (size c) / 2
        - (value (lit (num := float) 100) + value (lit (num := float) 500)) / 2000
          * value (lit (num := float) 1000))
  <= tolerance (lit 1000) (lit 1000).
Proof.
  destruct calculateSmartCrop_center_size as [Binary64 _].
  destruct (Binary64 exampleBox (lit 1000) (lit 1000)) as (_ & _ & _ & CX & CY & _).
  - unfold normalised, between. repeat split; vm_compute; try reflexivity; discriminate.
  - unfold dimension. repeat split; vm_compute; try reflexivity; discriminate.
  - unfold dimension. repeat split; vm_compute; try reflexivity; discriminate.
  - split; [exact CX | exact CY].
Defined.

(** C4, as stated, fails: on a box that is a single point the size is 0, and
    on a box inverted on both axes it is negative, in exact arithmetic and
    in binary64. *)
Lemma calculateSmartCrop_size_not_positive :
  ~ (forall (b : BoundingBox Q) (imgWidth imgHeight : Q),
        0 < imgWidth -> 0 < imgHeight ->
        0 < size (calculateSmartCrop b imgWidth imgHeight)) /\
  size (calculateSmartCrop (num := float) pointBox (lit 1000) (lit 1000)) = 0%float /\
  size (calculateSmartCrop (num := float) invertedBox (lit 1000) (lit 1000))
  = (-0x1.b800000000001p+8)%float.
Proof.
  split; [ | split; vm_compute; reflexivity].
  intros always.
  specialize (always pointBox 1000 1000 eq_refl eq_refl).
  vm_compute in always. discriminate.
Qed.

Lemma calculateSmartCrop_inverted_box :
  size (calculateSmartCrop (num := Q) invertedBox 1000 1000) == - 440.
Proof. vm_compute. reflexivity. Qed.

(** Rounding can make the two ends of a box of positive width the same
    pixel: 505 and the binary64 number next to it, divided by 1000, are
    the same number. *)
Lemma calculateSmartCrop_close_coordinates :
  normalised closeBox /\
  value (xmin closeBox) < value (xmax closeBox) /\
  size (calculateSmartCrop closeBox (lit 1000) (lit 1000)) = 0%float.
Proof.
  unfold normalised, between.
  repeat split; vm_compute; try reflexivity; discriminate.
Qed.

(** C4, amended.  The size that [calculateSmartCrop] returns is greater
    than 0 exactly when the box extends on at least one axis
    ([xmin < xmax] or [ymin < ymax]), and is 0 or negative otherwise:
    - in binary64, for box coordinates between 0 and 1000 that on each axis
      are equal or at least [2^-30] apart (integer coordinates are), and
      an image width and height between [2^-1000] and [2^1000];
    - in exact arithmetic, for every box and every positive width and
      height.
    In binary64 coordinates that are closer than that can give the size 0
    although [xmin < xmax]. *)
Theorem calculateSmartCrop_size_positive_iff :
  (forall (b : BoundingBox float) (imgWidth imgHeight : float),
      normalised b -> dimension imgWidth -> dimension imgHeight ->
      pow2 (-1000) <= value imgWidth -> pow2 (-1000) <= value imgHeight ->
      separated (xmin b) (xmax b) -> separated (ymin b) (ymax b) ->
      finite (size (calculateSmartCrop b imgWidth imgHeight)) /\
      (0 < value (size (calculateSmartCrop b imgWidth imgHeight))
       <-> value (xmin b) < value (xmax b) \/ value (ymin b) < value (ymax b))) /\
  (forall (b : BoundingBox Q) (imgWidth imgHeight : Q),
      0 < imgWidth -> 0 < imgHeight ->
      (0 < size (calculateSmartCrop b imgWidth imgHeight)
       <-> xmin b < xmax b \/ ymin b < ymax b)) /\
  (normalised closeBox /\
   value (xmin closeBox) < value (xmax closeBox) /\
   size (calculateSmartCrop closeBox (lit 1000) (lit 1000)) = 0%float).
Proof.
  split; [ | split ].
  - exact size_sign_binary64.
  - intros b imgWidth imgHeight Hw Hh. rewrite calculateSmartCrop_size.
    destruct (pixelWidth_sign b imgWidth Hw) as [Wpos _].
    destruct (pixelHeight_sign b imgHeight Hh) as [Hpos _].
    rewrite <- Wpos, <- Hpos.
    destruct (Math_max_cases (pixelWidth b imgWidth) (pixelHeight b imgHeight))
      as [[L ->] | [L ->]]; exact_arithmetic; split.
    + intros P. right. nra.
    + intros [P | P]; nra.
    + intros P. left. nra.
    + intros [P | P]; nra.
  - exact calculateSmartCrop_close_coordinates.
Qed.

(** A box of no width, 400 units high, on a 1000 x 1000 image: the size is
    positive, in binary64 and in exact arithmetic. *)
Lemma calculateSmartCrop_size_positive_iff_witness :
  0 < value (size (calculateSmartCrop (num := float) verticalLineBox (lit 1000) (lit 1000)))
  /\ 0 < size (calculateSmartCrop (num := Q) verticalLineBox 1000 1000).
Proof.
  destruct calculateSmartCrop_size_positive_iff as (Binary64 & Exact & _).
  split.
  - destruct (Binary64 verticalLineBox (lit 1000) (lit 1000)) as [_ Sign].
    + unfold normalised, between. repeat split; vm_compute; try reflexivity; discriminate.
    + unfold dimension. repeat split; vm_compute; try reflexivity; discriminate.
    + unfold dimension. repeat split; vm_compute; try reflexivity; discriminate.
    + vm_compute. discriminate.
    + vm_compute. discriminate.
    + left. vm_compute. reflexivity.
    + right. vm_compute. discriminate.
    + apply Sign. right. vm_compute. reflexivity.
  - apply (Exact verticalLineBox 1000 1000); [reflexivity | reflexivity | ].
    right. reflexivity.
Defined.

(** C5, as stated, fails: for the box [{ymin:500, xmin:200, ymax:100,
    xmax:200}], of no width and inverted on the other axis, on a
    1000 x 1000 image the size is 0, in binary64 and in exact arithmetic,
    and not 1.1 times the pixel extent of the other axis, which is -400. *)
Lemma calculateSmartCrop_degenerate_inverted :
  size (calculateSmartCrop (num := float) invertedLineBox (lit 1000) (lit 1000)) = 0%float /\
  size (calculateSmartCrop (num := Q) invertedLineBox 1000 1000) == 0 /\
  pixelHeight (num := Q) invertedLineBox 1000 == - 400 /\
  ~ size (calculateSmartCrop (num := Q) invertedLineBox 1000 1000)
    == 1.1 * pixelHeight (num := Q) invertedLineBox 1000.
Proof.
  split; [vm_compute; reflexivity | ].
  split; [vm_compute; reflexivity | ].
  split; [vm_compute; reflexivity | ].
  vm_compute. discriminate.
Qed.

(** C5, amended.  The size that [calculateSmartCrop] returns for a box of
    no width ([xmin = xmax]) is 1.1 times the larger of 0 and its pixel
    height: 1.1 times its pixel height when the box is not inverted on
    that axis, and 0 when it is; likewise for a box of no height
    ([ymin = ymax]) and its pixel width; and the size for a box of neither
    width nor height is 0.  In exact arithmetic these are equalities, on
    an image of positive width and height; in binary64, for coordinates
    between 0 and 1000 and a width and height that are positive and at
    most [2^1000], the size is within [2^-48 * max(width, height) + 2^-1070]
    of 1.1 times the larger of 0 and the extent, and it is exactly 0 for a
    box of neither width nor height. *)
Theorem calculateSmartCrop_degenerate :
  (forall (b : BoundingBox float) (imgWidth imgHeight : float),
      normalised b -> dimension imgWidth -> dimension imgHeight ->
      let c := calculateSmartCrop b imgWidth imgHeight in
      let boxWidth := (value (xmax b) - value (xmin b)) / 1000 * value imgWidth in
      let boxHeight := (value (ymax b) - value (ymin b)) / 1000 * value imgHeight in
      finite (size c) /\
      (value (xmin b) == value (xmax b) ->
       Qabs (value (size c) - 1.1 * Qmax 0 boxHeight) <= tolerance imgWidth imgHeight) /\
      (value (ymin b) == value (ymax b) ->
       Qabs (value (size c) - 1.1 * Qmax 0 boxWidth) <= tolerance imgWidth imgHeight) /\
      (value (xmin b) == value (xmax b) -> value (ymin b) == value (ymax b) ->
       value (size c) == 0)) /\
  (forall (b : BoundingBox Q) (imgWidth imgHeight : Q),
      0 < imgWidth -> 0 < imgHeight ->
      let c := calculateSmartCrop b imgWidth imgHeight in
      let boxWidth := xmax b / 1000 * imgWidth - xmin b / 1000 * imgWidth in
      let boxHeight := ymax b / 1000 * imgHeight - ymin b / 1000 * imgHeight in
      (xmin b == xmax b ->
       size c == 1.1 * Qmax 0 boxHeight /\
       (ymin b <= ymax b -> size c == 1.1 * boxHeight) /\
       (ymax b <= ymin b -> size c == 0)) /\
      (ymin b == ymax b ->
       size c == 1.1 * Qmax 0 boxWidth /\
       (xmin b <= xmax b -> size c == 1.1 * boxWidth) /\
       (xmax b <= xmin b -> size c == 0)) /\
      (xmin b == xmax b -> ymin b == ymax b -> size c == 0)).
Proof.
  split; [exact degenerate_size_binary64 | ].
  intros b imgWidth imgHeight Hw Hh c boxWidth boxHeight.
  assert (Hsize : size c == 1.1 * Qmax boxWidth boxHeight).
  { unfold c. rewrite calculateSmartCrop_size, Math_max_Qmax. unfold boxWidth, boxHeight,
      pixelWidth, pixelHeight. exact_arithmetic. lra. }
  assert (Ewidth : xmin b == xmax b -> boxWidth == 0).
  { intros E. unfold boxWidth. rewrite E. lra. }
  assert (Eheight : ymin b == ymax b -> boxHeight == 0).
  { intros E. unfold boxHeight. rewrite E. lra. }
  assert (Pwidth : (xmin b <= xmax b -> 0 <= boxWidth) /\ (xmax b <= xmin b -> boxWidth <= 0)).
  { unfold boxWidth. literal_division. split; intros L; nra. }
  assert (Pheight : (ymin b <= ymax b -> 0 <= boxHeight) /\
                    (ymax b <= ymin b -> boxHeight <= 0)).
  { unfold boxHeight. literal_division. split; intros L; nra. }
  destruct Pwidth as [Wpos Wneg]. destruct Pheight as [Hpos Hneg].
  split; [ | split ].
  - intros E. rewrite Hsize, (Ewidth E). split; [reflexivity | ]. split; intros L.
    + rewrite (Q.max_r 0 boxHeight (Hpos L)). reflexivity.
    + rewrite (Q.max_l 0 boxHeight (Hneg L)). reflexivity.
  - intros E. rewrite Hsize, (Eheight E), Q.max_comm. split; [reflexivity | ].
    split; intros L.
    + rewrite (Q.max_r 0 boxWidth (Wpos L)). reflexivity.
    + rewrite (Q.max_l 0 boxWidth (Wneg L)). reflexivity.
  - intros E1 E2. rewrite Hsize, (Ewidth E1), (Eheight E2). reflexivity.
Qed.

(** On a 1000 x 1000 image: the box of no width, 400 units high, in exact
    arithmetic; the box that is a point, in both arithmetics. *)
Lemma calculateSmartCrop_degenerate_witness :
  size (calculateSmartCrop (num := Q) verticalLineBox 1000 1000) == 440 /\
  size (calculateSmartCrop (num := Q) pointBox 1000 1000) == 0 /\
  value (size (calculateSmartCrop (num := float) pointBox (lit 1000) (lit 1000))) == 0.
Proof.
  destruct calculateSmartCrop_degenerate as [Binary64 Exact].
  split; [ | split ].
  - destruct (Exact verticalLineBox 1000 1000 eq_refl eq_refl) as [Hline _].
    destruct Hline as (_ & Hline & _); [reflexivity | ].
    rewrite Hline; [reflexivity | discriminate].
  - destruct (Exact pointBox 1000 1000 eq_refl eq_refl) as (_ & _ & Hpoint).
    apply Hpoint; reflexivity.
  - destruct (Binary64 pointBox (lit 1000) (lit 1000)) as (_ & _ & _ & Hpoint).
    + unfold normalised, between. repeat split; vm_compute; try reflexivity; discriminate.
    + unfold dimension. repeat split; vm_compute; try reflexivity; discriminate.
    + unfold dimension. repeat split; vm_compute; try reflexivity; discriminate.
    + apply Hpoint; vm_compute; reflexivity.
Defined.

(** The binary64 runs of a box that is a point and of a box of no width,
    400 units high, on a 1000 x 1000 image. *)
Lemma calculateSmartCrop_degenerate_binary64 :
  size (calculateSmartCrop (num := float) pointBox (lit 1000) (lit 1000)) = 0%float /\
  size (calculateSmartCrop (num := float) verticalLineBox (lit 1000) (lit 1000))
  = 0x1.b800000000001p+8%float.
Proof. split; vm_compute; reflexivity. Qed.

(** ** Fixed-size render *)

Lemma pixelCentre_bounds (n i : Z) :
  (0 <= i < n)%Z ->
  0 < pixelCentre (num := Q) i /\ pixelCentre (num := Q) i < inject_Z n.
Proof.
  intros [Hi Hn]. unfold pixelCentre. exact_arithmetic.
  assert (Hi' : inject_Z 0 <= inject_Z i) by (rewrite <- Zle_Qle; exact Hi).
  assert (Hn' : inject_Z (i + 1) <= inject_Z n) by (rewrite <- Zle_Qle; lia).
  rewrite inject_Z_plus in Hn'. change (inject_Z 0) with 0 in Hi'.
  change (inject_Z 1) with 1 in Hn'. split; lra.
Qed.

Lemma covers_output (n i : Z) :
  (0 <= i < n)%Z ->
  covers (num := Q) (lit 0) (lit (inject_Z n)) (pixelCentre i) = true.
Proof.
  intros Hi. destruct (pixelCentre_bounds n i Hi) as [Hlo Hhi].
  unfold covers. exact_arithmetic.
  assert (Hn : Qle_bool 0 (inject_Z n) = true) by (apply Qle_bool_iff; lra).
  rewrite Hn.
  assert (H0 : Qle_bool 0 (pixelCentre i) = true) by (apply Qle_bool_iff; lra).
  rewrite H0. cbn [andb].
  destruct (Qle_bool (0 + inject_Z n) (pixelCentre i)) eqn:E; [ | reflexivity].
  apply Qle_bool_iff in E. lra.
Qed.

(** After the fill, every pixel of the output is white. *)
Lemma fillRect_white (n i j : Z) :
  (0 <= i < n)%Z -> (0 <= j < n)%Z ->
  bitmap (fillRect (num := Q) white (lit 0) (lit 0) (lit (inject_Z n)) (lit (inject_Z n))
            (setCanvasSize n n createCanvas)) i j
  = white.
Proof.
  intros Hi Hj. cbn [fillRect bitmap].
  rewrite (covers_output n i Hi), (covers_output n j Hj). reflexivity.
Qed.

(** The point that a pixel shows, written out: the source rectangle is
    walked from its lower end at the fraction [t] at which the pixel lies in
    the output, whatever the sign of its extent. *)
Lemma sourceCoordinate_direction (origin extent : Q) (n i : Z) :
  (0 <= i < n)%Z ->
  let t := pixelCentre (num := Q) i / inject_Z n in
  0 < t /\ t < 1 /\
  (0 <= extent -> sourceCoordinate origin extent n i == origin + t * extent) /\
  (extent < 0 -> sourceCoordinate origin extent n i == origin + extent - t * extent).
Proof.
  intros Hi t. destruct (pixelCentre_bounds n i Hi) as [Hlo Hhi].
  assert (Hn : 0 < inject_Z n) by lra.
  assert (En : Qle_bool 0 (inject_Z n) = true) by (apply Qle_bool_iff; lra).
  split; [apply Qlt_shift_div_l; lra | ].
  split; [apply Qlt_shift_div_r; lra | ].
  unfold t, sourceCoordinate, sourcePoint, normalise. exact_arithmetic. rewrite En.
  split; intros Hsign.
  - apply Qle_bool_iff in Hsign. rewrite Hsign. field. lra.
  - destruct (Qle_bool 0 extent) eqn:E; [apply Qle_bool_iff in E; lra | ].
    field. lra.
Qed.

(** A point strictly between the ends of a segment that lies on one side of
    0, or of [w], lies on that side. *)
Lemma sourceCoordinate_between (origin extent : Q) (n i : Z) :
  (0 <= i < n)%Z -> ~ extent == 0 ->
  let u := sourceCoordinate origin extent n i in
  (origin <= 0 -> origin + extent <= 0 -> u < 0) /\
  (forall w, w <= origin -> w <= origin + extent -> w <= u).
Proof.
  intros Hi Hne u.
  destruct (sourceCoordinate_direction origin extent n i Hi) as (Ht0 & Ht1 & Hpos & Hneg).
  fold u in Hpos, Hneg.
  set (t := pixelCentre (num := Q) i / inject_Z n) in *.
  destruct (Qlt_le_dec extent 0) as [Neg | Pos].
  - rewrite (Hneg Neg). split; [intros H1 H2 | intros w H1 H2]; nra.
  - assert (0 < extent) by (destruct (Qle_lt_or_eq _ _ Pos) as [L | L];
                            [exact L | symmetry in L; contradiction]).
    rewrite (Hpos Pos). split; [intros H1 H2 | intros w H1 H2]; nra.
Qed.

Lemma entirelyOutside_not_insideImage
    (img : HTMLImageElement Q) (c : CropRect Q) (n i j : Z) :
  (0 <= i < n)%Z -> (0 <= j < n)%Z -> ~ size c == 0 ->
  entirelyOutside img c ->
  insideImage img (sourceCoordinate (x c) (size c) n i)
                  (sourceCoordinate (y c) (size c) n j) = false.
Proof.
  intros Hi Hj Hne Hout.
  destruct (sourceCoordinate_between (x c) (size c) n i Hi Hne) as [Hleft Hright].
  destruct (sourceCoordinate_between (y c) (size c) n j Hj Hne) as [Habove Hbelow].
  unfold insideImage. exact_arithmetic.
  destruct Hout as [[H1 H2] | [[H1 H2] | [[H1 H2] | [H1 H2]]]].
  - destruct (Qle_bool 0 (sourceCoordinate (x c) (size c) n i)) eqn:E; [ | reflexivity].
    apply Qle_bool_iff in E. specialize (Hleft H1 H2). lra.
  - apply (Hright _ H1) in H2. apply Qle_bool_iff in H2. rewrite H2.
    cbn [negb]. rewrite andb_false_r. reflexivity.
  - destruct (Qle_bool 0 (sourceCoordinate (y c) (size c) n j)) eqn:E;
      [ | rewrite andb_false_r; reflexivity].
    apply Qle_bool_iff in E. specialize (Habove H1 H2). lra.
  - apply (Hbelow _ H1) in H2. apply Qle_bool_iff in H2. rewrite H2.
    cbn [negb]. apply andb_false_r.
Qed.

(** The pixels of the output of [renderCrop]: white, or the image painted
    over white where the pixel shows a point of the image. *)
Lemma renderCrop_pixel (img : HTMLImageElement Q) (c : CropRect Q) (n i j : Z) :
  (0 <= i < n)%Z -> (0 <= j < n)%Z ->
  let u := sourceCoordinate (x c) (size c) n i in
  let v := sourceCoordinate (y c) (size c) n j in
  bitmap (renderCrop img c n) i j
  = if Qeq_bool (size c) 0 then white
    else if insideImage img u v then paint img u v white else white.
Proof.
  intros Hi Hj u v. unfold renderCrop, drawImage.
  change (strict_eq (size c) (lit 0)) with (Qeq_bool (size c) 0).
  rewrite orb_diag.
  destruct (Qeq_bool (size c) 0).
  - apply fillRect_white; assumption.
  - cbn [bitmap]. rewrite (covers_output n i Hi), (covers_output n j Hj).
    cbn [andb]. fold (sourceCoordinate (x c) (size c) n i).
    fold (sourceCoordinate (y c) (size c) n j). fold u v.
    rewrite (fillRect_white n i j Hi Hj). reflexivity.
Qed.

(** C8. In exact arithmetic, [performCrop] encodes a canvas of
    [outputSize] x [outputSize] pixels that is filled with opaque white
    before the image is drawn: a pixel that shows a point of the source
    image holds the image painted over white (for a crop rectangle of size
    other than 0; nothing is drawn for size 0), and every other pixel is
    white; when the crop rectangle lies outside of the source image, every
    pixel is white.  The point that a pixel shows is taken in the image's
    own direction, also for a rectangle of negative size. *)
Theorem performCrop_white_fill
    (env : Browser Q) (imageSrc : string) (img : HTMLImageElement Q)
    (c : CropRect Q) (outputSize i j : Z) :
  loadImage env imageSrc = Ok img -> getContext env = true ->
  (0 <= i < outputSize)%Z -> (0 <= j < outputSize)%Z ->
  let canvas := renderCrop img c outputSize in
  let out := inject_Z outputSize in
  let u := sourceCoordinate (x c) (size c) outputSize i in
  let v := sourceCoordinate (y c) (size c) outputSize j in
  performCrop env imageSrc c outputSize = Ok (toDataURL env canvas) /\
  canvas_width canvas = outputSize /\ canvas_height canvas = outputSize /\
  bitmap (fillRect white 0 0 out out (setCanvasSize outputSize outputSize createCanvas)) i j
  = white /\
  (bitmap canvas i j = white \/
   insideImage img u v = true /\ bitmap canvas i j = paint img u v white) /\
  (insideImage img u v = false -> bitmap canvas i j = white) /\
  (entirelyOutside img c -> bitmap canvas i j = white) /\
  (~ size c == 0 -> insideImage img u v = true ->
   bitmap canvas i j = paint img u v white).
Proof.
  intros Hload Hctx Hi Hj canvas out u v.
  pose proof (renderCrop_pixel img c outputSize i j Hi Hj) as Hpixel.
  cbv zeta in Hpixel. fold canvas u v in Hpixel.
  split; [ | split; [ | split; [ | split; [ | split; [ | split; [ | split ] ] ] ] ] ].
  - unfold performCrop. rewrite Hload. cbn [result_bind]. rewrite Hctx. reflexivity.
  - unfold canvas, renderCrop, drawImage.
    destruct (_ || _)%bool; reflexivity.
  - unfold canvas, renderCrop, drawImage.
    destruct (_ || _)%bool; reflexivity.
  - apply (fillRect_white outputSize i j Hi Hj).
  - rewrite Hpixel. destruct (Qeq_bool (size c) 0); [left; reflexivity | ].
    destruct (insideImage img u v); [right; split; reflexivity | left; reflexivity].
  - intros Hout. rewrite Hpixel, Hout.
    destruct (Qeq_bool (size c) 0); reflexivity.
  - intros Hout. rewrite Hpixel.
    destruct (Qeq_bool (size c) 0) eqn:E; [reflexivity | ].
    assert (Hne : ~ size c == 0).
    { intros Z. apply Qeq_bool_iff in Z. congruence. }
    unfold u, v.
    rewrite (entirelyOutside_not_insideImage img c outputSize i j Hi Hj Hne Hout).
    reflexivity.
  - intros Hne Hin. rewrite Hpixel, Hin.
    destruct (Qeq_bool (size c) 0) eqn:E; [ | reflexivity].
    apply Qeq_bool_iff in E. contradiction.
Qed.

(** A crop rectangle to the right of the 2000 x 1500 image, rendered at
    1024 x 1024. *)
Lemma performCrop_white_fill_witness :
  performCrop (num := Q) sampleBrowser "data:image/png;base64,iVBORw0KGgo="
    {| x := 2500; y := 0; size := 400 |} 1024
  = Ok (toDataURL (num := Q) sampleBrowser
          (renderCrop sampleImage {| x := 2500; y := 0; size := 400 |} 1024)) /\
  bitmap (renderCrop (num := Q) sampleImage {| x := 2500; y := 0; size := 400 |} 1024)
    512 100
  = white.
Proof.
  destruct (performCrop_white_fill sampleBrowser "data:image/png;base64,iVBORw0KGgo="
              sampleImage {| x := 2500; y := 0; size := 400 |} 1024 512 100
              eq_refl eq_refl)
    as (Hresult & _ & _ & _ & _ & _ & Houtside & _).
  - split; [discriminate | reflexivity].
  - split; [discriminate | reflexivity].
  - split; [exact Hresult | ].
    apply Houtside. right. left. split; discriminate.
Defined.

(** The same render run in binary64, and the render of the crop rectangle
    of the example, whose first pixel shows the image. *)
Lemma renderCrop_binary64 :
  bitmap (renderCrop (num := float) sampleImage
            {| x := 2500%float; y := 0%float; size := 400%float |} 1024) 512 100
  = white /\
  bitmap (renderCrop (num := float) sampleImage
            (calculateSmartCrop exampleBox (lit 1000) (lit 1000)) 1024) 0 0
  = paint (num := float) sampleImage 0%float 0%float white.
Proof. split; vm_compute; reflexivity. Qed.

(** A crop rectangle of negative size, [{x:200, y:200, size:-400}], whose
    four corners are those of the square from (-200, -200) to (200, 200):
    the image is drawn in its own direction, so it shows in the lower right
    part of the output and the upper left part stays white. *)
Lemma renderCrop_negative_size :
  bitmap (renderCrop (num := float) sampleImage
            {| x := 200%float; y := 200%float; size := (-400)%float |} 1024) 100 100
  = white /\
  bitmap (renderCrop (num := float) sampleImage
            {| x := 200%float; y := 200%float; size := (-400)%float |} 1024) 900 900
  = {| red := 0; green := 0; blue := 0; alpha := 255 |} /\
  bitmap (renderCrop (num := Q) sampleImage {| x := 200; y := 200; size := - 400 |} 1024)
    100 100
  = white /\
  bitmap (renderCrop (num := Q) sampleImage {| x := 200; y := 200; size := - 400 |} 1024)
    900 900
  = {| red := 0; green := 0; blue := 0; alpha := 255 |}.
Proof. repeat split; vm_compute; reflexivity. Qed.

(** ** Crop editor: resize *)

Lemma handleSizeChange_loaded {num : Type} `{Number num}
    (ed : Editor num) (img : HTMLImageElement num) (value : num) :
  imgElement ed = Some img ->
  handleSizeChange value ed
  = setCrop (fun prev =>
      {| x := nadd (x prev) (nsub (ndiv (size (crop ed)) (lit 2)) (ndiv value (lit 2)));
         y := nadd (y prev) (nsub (ndiv (size (crop ed)) (lit 2)) (ndiv value (lit 2)));
         size := value |}) ed.
Proof. intros E. unfold handleSizeChange. rewrite E. reflexivity. Qed.

(** The center of the rectangle across changes of the slider, in
    binary64. *)
Lemma resize_center_binary64
    (ed : Editor float) (img : HTMLImageElement float) (s1 s2 : float) (R : Q) :
  imgElement ed = Some img ->
  bounded_by R (x (crop ed)) -> bounded_by R (y (crop ed)) ->
  bounded_by R (size (crop ed)) -> bounded_by R s1 -> bounded_by R s2 ->
  R <= pow2 1000 ->
  let resized := crop (handleSizeChange s2 ed) in
  let twice := crop (handleSizeChange s2 (handleSizeChange s1 ed)) in
  size resized = s2 /\ size twice = s2 /\
  x resized = (x (crop ed) + (size (crop ed) / 2 - s2 / 2))%float /\
  y resized = (y (crop ed) + (size (crop ed) / 2 - s2 / 2))%float /\
  finite (x resized) /\ finite (y resized) /\ finite (x twice) /\ finite (y twice) /\
  Qabs (centerX resized - centerX (crop ed)) <= pow2 (-49) * R + pow2 (-1073) /\
  Qabs (centerY resized - centerY (crop ed)) <= pow2 (-49) * R + pow2 (-1073) /\
  Qabs (centerX twice - centerX resized) <= pow2 (-47) * R + pow2 (-1071) /\
  Qabs (centerY twice - centerY resized) <= pow2 (-47) * R + pow2 (-1071).
Proof.
  intros E (Fx & Lx & Ux) (Fy & Ly & Uy) (Fs & Ls & Us) (F1 & L1 & U1) (F2 & L2 & U2) RR
    resized twice.
  assert (E1 : imgElement (handleSizeChange s1 ed) = Some img).
  { rewrite (handleSizeChange_loaded ed img s1 E). exact E. }
  unfold twice, resized.
  rewrite (handleSizeChange_loaded _ img s2 E1).
  rewrite (handleSizeChange_loaded ed img s2 E).
  rewrite (handleSizeChange_loaded ed img s1 E).
  destruct literals_binary64 as (_ & Lit2 & _).
  unfold centerX, centerY. cbn [setCrop crop x y size]. rewrite Lit2.
  cbn [nadd nsub nmul ndiv binary64].
  destruct half_least_small as [E0 Esmall].
  assert (Big : pow2 1010 == 1024 * pow2 1000).
  { replace 1010%Z with (10 + 1000)%Z by lia. rewrite pow2_add. reflexivity. }
  assert (Pbig : 1 <= pow2 1000) by (change 1 with (pow2 0); apply pow2_le; lia).
  assert (T1 : pow2 (-49) == 16 # 9007199254740992) by reflexivity.
  assert (T2 : pow2 (-47) == 64 # 9007199254740992) by reflexivity.
  assert (T3 : pow2 (-1073) == 4 * half_least).
  { unfold half_least. replace (-1073)%Z with (2 + -1075)%Z by lia. rewrite pow2_add.
    reflexivity. }
  assert (T4 : pow2 (-1071) == 16 * half_least).
  { unfold half_least. replace (-1071)%Z with (4 + -1075)%Z by lia. rewrite pow2_add.
    reflexivity. }
  rewrite T1, T2, T3, T4.
  (* directly to [s2] *)
  destruct (resize_axis_binary64 (x (crop ed)) (size (crop ed)) s2 R Fx Fs F2)
    as (Fdx & Rdx & Cdx); [lra | lra | lra | lra | ].
  destruct (resize_axis_binary64 (y (crop ed)) (size (crop ed)) s2 R Fy Fs F2)
    as (Fdy & Rdy & Cdy); [lra | lra | lra | lra | ].
  (* to [s1] first *)
  destruct (resize_axis_binary64 (x (crop ed)) (size (crop ed)) s1 R Fx Fs F1)
    as (F1x & R1x & C1x); [lra | lra | lra | lra | ].
  destruct (resize_axis_binary64 (y (crop ed)) (size (crop ed)) s1 R Fy Fs F1)
    as (F1y & R1y & C1y); [lra | lra | lra | lra | ].
  cbv zeta in *.
  (* and then to [s2] *)
  destruct (resize_axis_binary64 _ s1 s2 (3 * R + 3 * half_least) F1x F1 F2)
    as (F2x & R2x & C2x); [lra | lra | lra | lra | ].
  destruct (resize_axis_binary64 _ s1 s2 (3 * R + 3 * half_least) F1y F1 F2)
    as (F2y & R2y & C2y); [lra | lra | lra | lra | ].
  cbv zeta in *.
  apply Qabs_diff_Qle_condition in Cdx, Cdy, C1x, C1y, C2x, C2y.
  repeat (split; [first [reflexivity | assumption | apply Qabs_diff_Qle_condition; lra] | ]).
  apply Qabs_diff_Qle_condition; lra.
Qed.

(** C2, as stated, fails in the arithmetic of the program.  After a drag
    of the editor of the example by (10, -110) screen pixels over an image
    shown 1500 pixels wide, the rectangle is
    [{x:193.33333333333334, y:-66.66666666666666, size:440}]; a change of
    the slider to 1000 moves its center on the vertical axis (by [2^-45]),
    and a change to 1000 followed by a change to 500 ends with another
    center than a change to 500 alone. *)
Lemma handleSizeChange_center_moves :
  crop draggedEditor
  = {| x := 0x1.82aaaaaaaaaabp+7%float; y := (-0x1.0aaaaaaaaaaaap+6)%float;
       size := 440%float |} /\
  ~ centerY (crop (handleSizeChange 1000%float draggedEditor))
    == centerY (crop draggedEditor) /\
  ~ centerY (crop (handleSizeChange 500%float (handleSizeChange 1000%float draggedEditor)))
    == centerY (crop (handleSizeChange 500%float draggedEditor)).
Proof.
  split; [vm_compute; reflexivity | ].
  split; vm_compute; discriminate.
Qed.

(** C2, amended: the center is kept up to rounding.  With the image loaded
    (the slider is shown only then), a change of the slider to [s2] sets
    the size to [s2] and adds [oldSize / 2 - s2 / 2], as the arithmetic in
    use computes it, to the origin on each axis.  In binary64, when the
    origin, the size and the new sizes are finite and of magnitude at most
    [R <= 2^1000], the center of the rectangle (origin plus half of the
    size, as rational numbers) moves by at most [2^-49 * R + 2^-1073] on
    each axis, and the center after a change to [s1] followed by a change
    to [s2] is within [2^-47 * R + 2^-1071] of the center after a change
    to [s2] alone.  In exact arithmetic the origin moves by
    [(oldSize - s2) / 2] and the centers are equal. *)
Theorem handleSizeChange_keeps_center :
  (forall (ed : Editor float) (img : HTMLImageElement float) (s1 s2 : float) (R : Q),
      imgElement ed = Some img ->
      bounded_by R (x (crop ed)) -> bounded_by R (y (crop ed)) ->
      bounded_by R (size (crop ed)) -> bounded_by R s1 -> bounded_by R s2 ->
      R <= pow2 1000 ->
      let resized := crop (handleSizeChange s2 ed) in
      let twice := crop (handleSizeChange s2 (handleSizeChange s1 ed)) in
      size resized = s2 /\ size twice = s2 /\
      x resized = (x (crop ed) + (size (crop ed) / 2 - s2 / 2))%float /\
      y resized = (y (crop ed) + (size (crop ed) / 2 - s2 / 2))%float /\
      finite (x resized) /\ finite (y resized) /\ finite (x twice) /\ finite (y twice) /\
      Qabs (centerX resized - centerX (crop ed)) <= pow2 (-49) * R + pow2 (-1073) /\
      Qabs (centerY resized - centerY (crop ed)) <= pow2 (-49) * R + pow2 (-1073) /\
      Qabs (centerX twice - centerX resized) <= pow2 (-47) * R + pow2 (-1071) /\
      Qabs (centerY twice - centerY resized) <= pow2 (-47) * R + pow2 (-1071)) /\
  (forall (ed : Editor Q) (img : HTMLImageElement Q) (s1 s2 : Q),
      imgElement ed = Some img ->
      let resized := handleSizeChange s2 ed in
      let twice := handleSizeChange s2 (handleSizeChange s1 ed) in
      x (crop resized) == x (crop ed) + (size (crop ed) - s2) / 2 /\
      y (crop resized) == y (crop ed) + (size (crop ed) - s2) / 2 /\
      size (crop resized) = s2 /\
      x (crop resized) + size (crop resized) / 2 == x (crop ed) + size (crop ed) / 2 /\
      y (crop resized) + size (crop resized) / 2 == y (crop ed) + size (crop ed) / 2 /\
      x (crop twice) + size (crop twice) / 2 == x (crop resized) + size (crop resized) / 2 /\
      y (crop twice) + size (crop twice) / 2 == y (crop resized) + size (crop resized) / 2).
Proof.
  split; [exact resize_center_binary64 | ].
  intros ed img s1 s2 E resized twice.
  assert (E1 : imgElement (handleSizeChange s1 ed) = Some img).
  { rewrite (handleSizeChange_loaded ed img s1 E). exact E. }
  unfold twice, resized.
  rewrite (handleSizeChange_loaded _ img s2 E1).
  rewrite (handleSizeChange_loaded ed img s2 E).
  rewrite (handleSizeChange_loaded ed img s1 E).
  cbn [setCrop crop x y size]. exact_arithmetic. literal_division.
  repeat split; lra.
Qed.

(** In exact arithmetic, the editor of the example with the slider at 300
    and then at 500; in binary64, the editor after the drag above with the
    slider at 1000. *)
Lemma handleSizeChange_keeps_center_witness :
  (x (crop (handleSizeChange 500 (handleSizeChange 300 (sampleEditor (num := Q)))))
   + size (crop (handleSizeChange 500 (handleSizeChange 300 (sampleEditor (num := Q))))) / 2
   == 400 /\
   y (crop (handleSizeChange 500 (handleSizeChange 300 (sampleEditor (num := Q)))))
   + size (crop (handleSizeChange 500 (handleSizeChange 300 (sampleEditor (num := Q))))) / 2
   == 300) /\
  Qabs (centerY (crop (handleSizeChange 1000%float draggedEditor))
        - centerY (crop draggedEditor))
  <= pow2 (-49) * 1000 + pow2 (-1073).
Proof.
  destruct handleSizeChange_keeps_center as [Binary64 Exact].
  split.
  - destruct (Exact sampleEditor sampleImage 300 500 eq_refl)
      as (_ & _ & _ & Hx & Hy & Hx2 & Hy2).
    cbv zeta in Hx, Hy, Hx2, Hy2. rewrite Hx2, Hy2, Hx, Hy. split; reflexivity.
  - destruct (Binary64 draggedEditor sampleImage 500%float 1000%float 1000)
      as (_ & _ & _ & _ & _ & _ & _ & _ & _ & Hy & _).
    + reflexivity.
    + unfold bounded_by. repeat split; vm_compute; try reflexivity; discriminate.
    + unfold bounded_by. repeat split; vm_compute; try reflexivity; discriminate.
    + unfold bounded_by. repeat split; vm_compute; try reflexivity; discriminate.
    + unfold bounded_by. repeat split; vm_compute; try reflexivity; discriminate.
    + unfold bounded_by. repeat split; vm_compute; try reflexivity; discriminate.
    + vm_compute. discriminate.
    + exact Hy.
Defined.

(** A binary64 run: the editor is mounted on the rectangle that binary64
    gives for the example box, and the slider goes to 441 and then to 500;
    the center is (400, 300) before, after, and when going to 500 at
    once. *)
Lemma handleSizeChange_binary64 :
  let ed := onImgLoad sampleImage
              (mountEditor (calculateSmartCrop (num := float) exampleBox
                              (lit 1000) (lit 1000))) in
  let center (e : Editor float) :=
    (PrimFloat.add (x (crop e)) (PrimFloat.div (size (crop e)) 2),
     PrimFloat.add (y (crop e)) (PrimFloat.div (size (crop e)) 2)) in
  center ed = (400%float, 300%float) /\
  center (handleSizeChange 441%float ed) = (400%float, 300%float) /\
  center (handleSizeChange 500%float (handleSizeChange 441%float ed))
  = (400%float, 300%float) /\
  center (handleSizeChange 500%float ed) = (400%float, 300%float).
Proof. repeat split; vm_compute; reflexivity. Qed.

(** ** Crop editor: drag *)

Section Drag.
Context {num : Type} `{Number num}.

Lemma handleMouseMove_sameDrag (clientX clientY : num) (container : option num)
    (ed : Editor num) :
  sameDrag (handleMouseMove clientX clientY container ed) ed.
Proof.
  unfold handleMouseMove, sameDrag.
  destruct (isDragging ed) eqn:D, (imgElement ed) eqn:I, container as [w | ];
    try (rewrite ?D, ?I; repeat split; reflexivity).
  destruct (strict_eq w (lit 0)); cbn; rewrite ?D, ?I; repeat split; reflexivity.
Qed.



(** C10. Mouse down, mouse moves and mouse up, in any number and order
    and with any coordinates and container widths, leave the size of the
    crop rectangle as it was. *)
Theorem drag_keeps_size (es : list (EditorEvent num)) (ed : Editor num) :
  forallb isDragEvent es = true ->
  size (crop (editorRun ed es)) = size (crop ed).
Proof.
  revert ed. induction es as [ | e es IH]; intros ed Hes; [reflexivity | ].
  cbn in Hes. apply andb_true_iff in Hes. destruct Hes as [He Hes].
  cbn. unfold editorRun in IH. rewrite (IH _ Hes).
  destruct e; try discriminate; cbn; try reflexivity.
  apply handleMouseMove_sameDrag.
Qed.
End Drag.

Lemma drag_keeps_size_witness :
  size (crop (editorRun (sampleEditor (num := Q)) sampleDrag)) = 440.
Proof.
  rewrite (drag_keeps_size sampleDrag sampleEditor); reflexivity.
Defined.



(** The same drag run in binary64: the origin moves from (180, 80) to
    (200, 100). *)
Lemma sampleDrag_binary64 :
  crop (editorRun (sampleEditor (num := float)) sampleDrag)
  = {| x := 200%float; y := 100%float; size := 440%float |}.
Proof. vm_compute. reflexivity. Qed.

(** ** File names *)

Local Open Scope string_scope.

Lemma stripExtension_no_match (c : ascii) (s : string) :
  matchesExtension (String c s) = false ->
  stripExtension (String c s) = String c (stripExtension s).
Proof. intros E. cbn [stripExtension]. rewrite E. reflexivity. Qed.

Lemma allExtensionChars_dot (s ext : string) :
  allExtensionChars (s ++ String "." ext) = false.
Proof.
  induction s as [ | d s IH]; cbn [append allExtensionChars].
  - reflexivity.
  - rewrite IH. apply andb_false_r.
Qed.

Lemma matchesExtension_inside (c : ascii) (base ext : string) :
  matchesExtension (String c (base ++ String "." ext)) = false.
Proof.
  cbn [matchesExtension].
  destruct c as [[ | ] [ | ] [ | ] [ | ] [ | ] [ | ] [ | ] [ | ]]; try reflexivity.
  destruct base as [ | d base]; cbn [append allExtensionChars].
  - reflexivity.
  - rewrite allExtensionChars_dot. apply andb_false_r.
Qed.

(** The extension of a name is what follows its last dot, when that is not
    empty and holds no slash: it is removed, with the dot. *)
Lemma stripExtension_extension (base ext : string) :
  ext <> "" -> allExtensionChars ext = true ->
  stripExtension (base ++ "." ++ ext) = base.
Proof.
  intros Hne Hall. change ("." ++ ext) with (String "." ext).
  induction base as [ | c base IH].
  - destruct ext as [ | e ext]; [contradiction | ].
    cbn [append stripExtension].
    change (matchesExtension (String "." (String e ext)))
      with (allExtensionChars (String e ext)).
    rewrite Hall. reflexivity.
  - cbn [append].
    rewrite stripExtension_no_match by apply matchesExtension_inside.
    rewrite IH. reflexivity.
Qed.

Lemma sanitize_filter (s : string) :
  list_ascii_of_string (sanitize s)
  = filter isAlnumOrHyphen (list_ascii_of_string s).
Proof.
  induction s as [ | c s IH]; cbn; [reflexivity | ].
  destruct (isAlnumOrHyphen c); cbn; rewrite IH; reflexivity.
Qed.

(** ** Session state *)

(** Runs a handler symbolically. *)
Ltac run_handler :=
  cbv beta iota zeta delta
    [handleFileUpload processImage handleManualCropConfirm onCancel handleReset
     exec try_catch bind await ret modify fst snd
     setAppState setSourceImage setCroppedImage setGarmentDetails
     setCurrentCrop setErrorMsg setOriginalFileName
     appState sourceImage croppedImage garmentDetails currentCrop errorMsg
     originalFileName].

(** Reads the fields of the state that a handler has left. *)
Ltac read_state :=
  cbn [fst snd appState sourceImage croppedImage garmentDetails currentCrop
       errorMsg originalFileName].

Section Session.
Context {num : Type} `{Number num}.
Variable env : Browser num.

Lemma or_else_not_empty (m : option string) (fallback : string) :
  fallback <> "" -> or_else m fallback <> "".
Proof. intros F. destruct m as [[ | c s] | ]; cbn; [exact F | discriminate | exact F]. Qed.

(** C7, amended. An upload ends in [SUCCESS] with all results and no
    message, or in [ERROR] with a message and no cropped image. When the
    file cannot be read or detection fails, no result of the attempt is
    in the state; when decoding or rendering fails after a detection that
    succeeded, the detection results that were committed before the
    failure ([garmentDetails], and [currentCrop] once it was computed) are
    still in the state. *)
Theorem handleFileUpload_failure_state (s : App num) (file : File) :
  let s' := exec (handleFileUpload env (Some file)) s in
  (appState s' = SUCCESS /\ errorMsg s' = None /\
   garmentDetails s' <> None /\ currentCrop s' <> None /\ croppedImage s' <> None
   \/
   appState s' = ERROR /\ errorMsg s' <> None /\ errorMsg s' <> Some "" /\
   croppedImage s' = None) /\
  (forall m, fileToBase64 env file = Throw m ->
     appState s' = ERROR /\ garmentDetails s' = None /\ currentCrop s' = None) /\
  (forall base64 m, fileToBase64 env file = Ok base64 ->
     detectGarment env base64 = Throw m ->
     appState s' = ERROR /\ garmentDetails s' = None /\ currentCrop s' = None) /\
  (forall base64 details m, fileToBase64 env file = Ok base64 ->
     detectGarment env base64 = Ok details ->
     loadImage env base64 = Throw m ->
     appState s' = ERROR /\ garmentDetails s' = Some details /\ currentCrop s' = None) /\
  (forall base64 details img m, fileToBase64 env file = Ok base64 ->
     detectGarment env base64 = Ok details ->
     loadImage env base64 = Ok img ->
     performCrop env base64 (smartCropOf details img) 1024 = Throw m ->
     appState s' = ERROR /\ garmentDetails s' = Some details /\
     currentCrop s' = Some (smartCropOf details img)).
Proof.
  intros s'. unfold s'. clear s'.
  destruct s as [state0 source0 cropped0 details0 crop0 error0 name0].
  assert (F1 : "Failed to process image." <> "") by discriminate.
  split; [ | split; [ | split; [ | split ] ] ].
  - run_handler.
    destruct (fileToBase64 env file) as [base64 | m0];
      [ destruct (detectGarment env base64) as [details | m1];
        [ destruct (loadImage env base64) as [img | m2];
          [ destruct (performCrop env base64 _ 1024) as [url | m3] | ] | ] | ];
      read_state;
      first [ left; repeat split; discriminate
            | right; repeat split; try discriminate;
              intros E; injection E as E; revert E; apply or_else_not_empty, F1 ].
  - intros m Eread. run_handler. rewrite Eread. read_state. repeat split.
  - intros base64 m Eread Edetect. run_handler.
    rewrite Eread, Edetect. read_state. repeat split.
  - intros base64 details m Eread Edetect Eload. run_handler.
    rewrite Eread, Edetect, Eload. read_state. repeat split.
  - intros base64 details img m Eread Edetect Eload Ecrop. run_handler.
    unfold smartCropOf in Ecrop. rewrite Eread, Edetect, Eload, Ecrop.
    read_state. repeat split.
Qed.

(** What the failure of a manual crop leaves: the state [CROPPING], the new
    rectangle committed, the previous cropped image, and a message that is
    shown in the state [ERROR] only. *)
Lemma handleManualCropConfirm_failure
    (s : App num) (src : string) (newCrop : CropRect num) (m : option string) :
  sourceImage s = Some src -> src <> "" ->
  performCrop env src newCrop 1024 = Throw m ->
  let s' := exec (handleManualCropConfirm env newCrop) s in
  appState s' = CROPPING /\
  currentCrop s' = Some newCrop /\
  croppedImage s' = croppedImage s /\
  errorMsg s' = Some "Failed to apply manual crop".
Proof.
  intros Esrc Hsrc Ecrop.
  destruct s as [state0 source0 cropped0 details0 crop0 error0 name0].
  cbn [sourceImage] in Esrc. subst.
  destruct src as [ | c src]; [contradiction | ].
  run_handler. rewrite Ecrop. repeat split.
Qed.

Lemma handleManualCropConfirm_commits
    (s : App num) (src : string) (newCrop : CropRect num) :
  sourceImage s = Some src -> src <> "" ->
  currentCrop (exec (handleManualCropConfirm env newCrop) s) = Some newCrop.
Proof.
  intros Esrc Hsrc.
  destruct s as [state0 source0 cropped0 details0 crop0 error0 name0].
  cbn [sourceImage] in Esrc. subst.
  destruct src as [ | c src]; [contradiction | ].
  run_handler.
  destruct (performCrop env (String c src) newCrop 1024); reflexivity.
Qed.

Lemma handleFileUpload_name (s : App num) (file : File) :
  originalFileName (exec (handleFileUpload env (Some file)) s)
  = stripExtension (name file).
Proof.
  destruct s as [state0 source0 cropped0 details0 crop0 error0 name0]. run_handler.
  destruct (fileToBase64 env file) as [base64 | m0];
    [ destruct (detectGarment env base64) as [details | m1];
      [ destruct (loadImage env base64) as [img | m2];
        [ destruct (performCrop env base64 _ 1024) as [url | m3] | ] | ] | ];
    read_state; reflexivity.
Qed.

(** ** Crop editor and committed rectangle *)

Lemma editing_keeps_app
    (s : Session (num := num)) (es : list (EditorEvent num)) (ed : Editor num) :
  editor s = Some ed ->
  app (sessionRun env s (map (@Edit num) es)) = app s /\
  editor (sessionRun env s (map (@Edit num) es)) = Some (editorRun ed es).
Proof.
  revert s ed. induction es as [ | e es IH]; intros s ed Hed.
  - split; [reflexivity | exact Hed].
  - cbn [map sessionRun fold_left].
    assert (Hstep : sessionStep env s (Edit e)
                    = {| app := app s; editor := Some (editorStep ed e) |}).
    { unfold sessionStep. rewrite Hed. reflexivity. }
    rewrite Hstep.
    destruct (IH {| app := app s; editor := Some (editorStep ed e) |}
                 (editorStep ed e) eq_refl) as [Happ Heditor].
    split; [exact Happ | exact Heditor].
Qed.

(** C6. While the editor is mounted, its events (mouse down, move and up,
    slider changes, image load) change the editor's own rectangle and
    leave the state of the application, so the committed rectangle
    [currentCrop], as it was.  Cancel leaves the committed rectangle
    and the cropped image as they were, unmounts the editor, and the next
    editor is mounted on the committed rectangle again; Confirm replaces the
    committed rectangle by the edited one. *)
Theorem editor_commits_on_confirm_only
    (a : App num) (src : string) (committed : CropRect num)
    (es : list (EditorEvent num)) :
  editorOverlay a = Some (src, committed) ->
  let edited := sessionRun env (render a None) (map (@Edit num) es) in
  let cancelled := sessionStep env edited Cancel in
  let confirmed := sessionStep env edited Confirm in
  (app edited = a /\
   editor edited = Some (editorRun (mountEditor committed) es)) /\
  (currentCrop (app cancelled) = Some committed /\
   croppedImage (app cancelled) = croppedImage a /\
   appState (app cancelled) = SUCCESS /\
   editor cancelled = None /\
   (truthy (croppedImage a) = true ->
    editor (sessionStep env cancelled AdjustCrop) = Some (mountEditor committed))) /\
  currentCrop (app confirmed)
  = Some (crop (editorRun (mountEditor committed) es)).
Proof.
  intros Hoverlay edited cancelled confirmed.
  assert (Hmount : editor (render a None) = Some (mountEditor committed)).
  { unfold render. cbn [editor]. rewrite Hoverlay. reflexivity. }
  destruct (editing_keeps_app (render a None) es (mountEditor committed) Hmount)
    as [Happ Heditor].
  fold edited in Happ, Heditor. change (app (render a None)) with a in Happ.
  assert (Hstate : appState a = EDITING /\ sourceImage a = Some src
                   /\ src <> "" /\ currentCrop a = Some committed).
  { unfold editorOverlay in Hoverlay.
    destruct (appState a); try discriminate.
    destruct (sourceImage a) as [[ | c rest] | ]; try discriminate.
    destruct (currentCrop a); try discriminate.
    injection Hoverlay as <- <-. repeat split. discriminate. }
  destruct Hstate as (Hstate & Hsrc & Hne & Hcrop).
  assert (Hcancel : cancelled = {| app := exec onCancel a; editor := None |}).
  { unfold cancelled, sessionStep. rewrite Heditor, Happ. reflexivity. }
  split; [split; assumption | split].
  - rewrite Hcancel. cbn [app editor].
    unfold exec, onCancel, setAppState, modify. read_state.
    repeat split; try assumption.
    intros Hcropped. unfold sessionStep. cbn [app editor]. read_state.
    rewrite Hcropped. unfold render, editorOverlay, exec, setAppState, modify.
    read_state. cbn [editor]. rewrite Hsrc, Hcrop.
    destruct src; [contradiction | reflexivity].
  - unfold confirmed, sessionStep. rewrite Heditor, Happ. unfold render.
    cbn [app]. apply (handleManualCropConfirm_commits a src _ Hsrc Hne).
Qed.
End Session.

Local Open Scope Q_scope.

(** [photo.png] is uploaded and cropped, the editor is opened, the image
    loads in it, the rectangle is dragged by (10, 10) screen pixels, and the
    edit is confirmed. *)
Lemma editor_commits_on_confirm_only_witness :
  exists c : CropRect Q,
    currentCrop
      (app (sessionStep sampleBrowser
              (sessionRun sampleBrowser
                 (render (exec (setAppState EDITING)
                            (exec (handleFileUpload sampleBrowser (Some photo)) initialApp))
                         None)
                 (map (@Edit Q) (ImgLoad sampleImage :: sampleDrag)))
              Confirm))
    = Some c
    /\ x c == 380 /\ y c == 30 /\ size c == 880.
Proof.
  assert (Hoverlay :
    editorOverlay
      (exec (setAppState EDITING)
         (exec (handleFileUpload (num := Q) sampleBrowser (Some photo)) initialApp))
    = Some ("data:image/png;base64,iVBORw0KGgo="%string,
            calculateSmartCrop exampleBox 2000 1500))
    by (vm_compute; reflexivity).
  destruct (editor_commits_on_confirm_only sampleBrowser
              (exec (setAppState EDITING)
                 (exec (handleFileUpload sampleBrowser (Some photo)) initialApp))
              "data:image/png;base64,iVBORw0KGgo="
              (calculateSmartCrop exampleBox 2000 1500)
              (ImgLoad sampleImage :: sampleDrag) Hoverlay) as (_ & _ & Hconfirm).
  eexists. split; [exact Hconfirm | ].
  vm_compute. repeat split.
Defined.

Local Open Scope string_scope.

(** [photo.png] is uploaded where no drawing surface is available: the
    garment is detected, the rectangle is derived, and rendering fails. *)
Lemma handleFileUpload_failure_state_witness :
  appState (exec (handleFileUpload (num := Q) noCanvasBrowser (Some photo)) initialApp)
  = ERROR /\
  garmentDetails (exec (handleFileUpload (num := Q) noCanvasBrowser (Some photo)) initialApp)
  = Some sampleDetails /\
  currentCrop (exec (handleFileUpload (num := Q) noCanvasBrowser (Some photo)) initialApp)
  = Some (smartCropOf sampleDetails sampleImage).
Proof.
  destruct (handleFileUpload_failure_state (num := Q) noCanvasBrowser initialApp photo)
    as (_ & _ & _ & _ & Hrender).
  apply (Hrender "data:image/png;base64,iVBORw0KGgo=" sampleDetails sampleImage
           (Some "Could not get canvas context")); reflexivity.
Defined.

(** C7, as stated, fails: when the drawing surface is not available, the
    upload ends in [ERROR] with the detection results of the attempt
    committed. *)
Lemma upload_failure_keeps_detection_results :
  ~ (forall (env : Browser Q) (s : App Q) (file : File),
        let s' := exec (handleFileUpload env (Some file)) s in
        appState s' = ERROR ->
        garmentDetails s' = None /\ currentCrop s' = None).
Proof.
  intros always.
  destruct (always noCanvasBrowser initialApp photo) as [Hdetails _].
  - vm_compute. reflexivity.
  - vm_compute in Hdetails. discriminate.
Qed.

(** C9. The name of the download is the name of the uploaded file without
    its extension, then nothing or an underscore and the detected colour
    without the characters that are neither letters, digits nor hyphens,
    then [.jpg]; the extension of a file name is its last dot with what
    follows, when that is not empty and holds no slash.  [photo.png] with
    the colour ["Navy Blue!"] is downloaded as [photo_NavyBlue.jpg]. *)
Theorem download_name :
  (forall (num : Type) (N : Number num) (env : Browser num) (s : App num)
          (file : File) (link : Anchor),
      let s' := exec (handleFileUpload env (Some file)) s in
      handleDownload s' = Some link ->
      exists suffix : string,
        download link = stripExtension (name file) ++ suffix ++ ".jpg" /\
        (garmentDetails s' = None -> suffix = "") /\
        (forall details, garmentDetails s' = Some details ->
           color details = "" -> suffix = "") /\
        (forall details, garmentDetails s' = Some details ->
           color details <> "" -> suffix = "_" ++ sanitize (color details))) /\
  (forall base ext : string,
      ext <> "" -> allExtensionChars ext = true ->
      stripExtension (base ++ "." ++ ext) = base) /\
  (forall c : string,
      list_ascii_of_string (sanitize c)
      = filter isAlnumOrHyphen (list_ascii_of_string c)) /\
  option_map download
    (handleDownload
       (exec (handleFileUpload (num := Q) sampleBrowser (Some photo)) initialApp))
  = Some "photo_NavyBlue.jpg".
Proof.
  split; [ | split; [ | split ] ].
  - intros num N env s file link s' Hlink.
    pose proof (handleFileUpload_name env s file) as Hname. fold s' in Hname.
    unfold handleDownload in Hlink. rewrite Hname in Hlink.
    destruct (croppedImage s') as [[ | c url] | ]; try discriminate.
    injection Hlink as <-. cbn [download].
    destruct (garmentDetails s') as [details | ].
    + destruct (color details) as [ | d rest] eqn:Ecolor.
      * exists "". repeat split.
        intros details' E Hne. injection E as <-. contradiction.
      * exists ("_" ++ sanitize (String d rest)). repeat split.
        -- discriminate.
        -- intros details' E Hempty. injection E as <-. rewrite Ecolor in Hempty.
           discriminate.
        -- intros details' E _. injection E as <-. rewrite Ecolor. reflexivity.
    + exists "". repeat split; intros; discriminate.
  - exact stripExtension_extension.
  - exact sanitize_filter.
  - vm_compute. reflexivity.
Qed.

(** * Further properties *)

(** ** Crop-rectangle derivation *)





(** ** Fixed-size render *)

(** What a pixel of the output shows is a point of the source rectangle, at
    the fraction of it at which the pixel lies in the output. *)
Lemma sourceCoordinate_fraction (origin extent : Q) (n i : Z) :
  (0 <= i < n)%Z -> 0 <= extent ->
  exists t : Q,
    0 < t /\ t < 1 /\
    sourceCoordinate origin extent n i == origin + t * extent.
Proof.
  intros Hi Hpos.
  destruct (sourceCoordinate_direction origin extent n i Hi) as (Ht0 & Ht1 & Hu & _).
  exists (pixelCentre (num := Q) i / inject_Z n).
  split; [exact Ht0 | ]. split; [exact Ht1 | ]. exact (Hu Hpos).
Qed.

(** X3. In exact arithmetic, when the crop rectangle has a positive size
    and lies inside the source image, no pixel of the output keeps the
    white fill: every pixel holds the image, painted over white, at a point
    strictly inside the crop rectangle, and from one pixel to the next
    that point advances by [size / outputSize]. *)
Theorem renderCrop_inside_image
    (img : HTMLImageElement Q) (c : CropRect Q) (outputSize i j : Z) :
  0 < size c ->
  0 <= x c -> x c + size c <= naturalWidth img ->
  0 <= y c -> y c + size c <= naturalHeight img ->
  (0 <= i < outputSize)%Z -> (0 <= j < outputSize)%Z ->
  let u := sourceCoordinate (x c) (size c) outputSize i in
  let v := sourceCoordinate (y c) (size c) outputSize j in
  bitmap (renderCrop img c outputSize) i j = paint img u v white /\
  (x c < u /\ u < x c + size c) /\
  (y c < v /\ v < y c + size c) /\
  sourceCoordinate (x c) (size c) outputSize (i + 1) - u
  == size c / inject_Z outputSize.
Proof.
  intros Hsize Hx0 Hx1 Hy0 Hy1 Hi Hj u v.
  destruct (sourceCoordinate_fraction (x c) (size c) outputSize i Hi (Qlt_le_weak _ _ Hsize))
    as (t & Ht0 & Ht1 & Hu).
  destruct (sourceCoordinate_fraction (y c) (size c) outputSize j Hj (Qlt_le_weak _ _ Hsize))
    as (t' & Ht0' & Ht1' & Hv).
  fold u in Hu. fold v in Hv.
  assert (Bu : x c < u /\ u < x c + size c) by (rewrite Hu; split; nra).
  assert (Bv : y c < v /\ v < y c + size c) by (rewrite Hv; split; nra).
  split; [ | split; [exact Bu | split; [exact Bv | ] ] ].
  - pose proof (renderCrop_pixel img c outputSize i j Hi Hj) as Hpixel.
    cbv zeta in Hpixel. fold u v in Hpixel. rewrite Hpixel.
    destruct (Qeq_bool (size c) 0) eqn:E.
    { apply Qeq_bool_iff in E. lra. }
    assert (Hin : insideImage img u v = true).
    { unfold insideImage. exact_arithmetic.
      destruct Bu as [Bu0 Bu1]. destruct Bv as [Bv0 Bv1].
      assert (L1 : Qle_bool 0 u = true) by (apply Qle_bool_iff; lra).
      assert (L2 : Qle_bool 0 v = true) by (apply Qle_bool_iff; lra).
      assert (L3 : Qle_bool (naturalWidth img) u = false).
      { destruct (Qle_bool (naturalWidth img) u) eqn:F; [ | reflexivity].
        apply Qle_bool_iff in F. lra. }
      assert (L4 : Qle_bool (naturalHeight img) v = false).
      { destruct (Qle_bool (naturalHeight img) v) eqn:F; [ | reflexivity].
        apply Qle_bool_iff in F. lra. }
      rewrite L1, L2, L3, L4. reflexivity. }
    rewrite Hin. reflexivity.
  - destruct (pixelCentre_bounds outputSize i Hi) as [Hlo Hhi].
    unfold u, sourceCoordinate, sourcePoint, normalise, pixelCentre. exact_arithmetic.
    rewrite inject_Z_plus. change (inject_Z 1) with 1.
    unfold pixelCentre in Hlo, Hhi. exact_arithmetic.
    assert (Hi0 : inject_Z 0 <= inject_Z i) by (rewrite <- Zle_Qle; lia).
    change (inject_Z 0) with 0 in Hi0.
    assert (E1 : Qle_bool 0 (size c) = true) by (apply Qle_bool_iff; lra).
    assert (E2 : Qle_bool 0 (inject_Z outputSize) = true) by (apply Qle_bool_iff; lra).
    rewrite E1, E2. field. lra.
Qed.

(** The crop rectangle of the example box on the 2000 x 1500 image, rendered
    at 1024 x 1024. *)
Lemma renderCrop_inside_image_witness :
  bitmap (renderCrop (num := Q) sampleImage
            (calculateSmartCrop exampleBox 2000 1500) 1024) 0 0
  = {| red := 0; green := 0; blue := 0; alpha := 255 |}.
Proof.
  refine (proj1 (renderCrop_inside_image sampleImage
                   (calculateSmartCrop exampleBox 2000 1500) 1024 0 0
                   _ _ _ _ _ _ _)).
  - reflexivity.
  - vm_compute. discriminate.
  - vm_compute. discriminate.
  - vm_compute. discriminate.
  - vm_compute. discriminate.
  - split; [discriminate | reflexivity].
  - split; [discriminate | reflexivity].
Defined.

(** ** Crop editor: what its events leave alone *)

Section EditorFrame.
Context {num : Type} `{Number num}.

(** X4. Until the image has loaded in the editor, no mouse event and no
    change of the slider changes the crop rectangle. *)
Theorem editor_idle_before_load (es : list (EditorEvent num)) (ed : Editor num) :
  imgElement ed = None ->
  forallb (fun e => negb (isImgLoad e)) es = true ->
  crop (editorRun ed es) = crop ed /\ imgElement (editorRun ed es) = None.
Proof.
  revert ed. induction es as [ | e es IH]; intros ed Himg Hes.
  - split; [reflexivity | exact Himg].
  - cbn [forallb] in Hes. apply andb_true_iff in Hes. destruct Hes as [He Hes].
    assert (Hstep : crop (editorStep ed e) = crop ed
                    /\ imgElement (editorStep ed e) = None).
    { destruct e as [cx cy | cx cy container | | value | img];
        cbn [editorStep isImgLoad negb] in *; try discriminate.
      - split; [reflexivity | exact Himg].
      - unfold handleMouseMove. rewrite Himg.
        destruct (isDragging ed); split; first [reflexivity | exact Himg].
      - split; [reflexivity | exact Himg].
      - unfold handleSizeChange. rewrite Himg. split; [reflexivity | exact Himg]. }
    destruct Hstep as [Hcrop Himg'].
    destruct (IH (editorStep ed e) Himg' Hes) as [IHcrop IHimg].
    unfold editorRun in *. cbn [fold_left]. rewrite IHcrop. split; assumption.
Qed.

Lemma mouseMoves_idle (moves : list (num * num * option num)) (ed : Editor num) :
  isDragging ed = false ->
  crop (editorRun ed (mouseMoves moves)) = crop ed.
Proof.
  revert ed. induction moves as [ | m moves IH]; intros ed Hidle; [reflexivity | ].
  assert (Hstep : handleMouseMove (fst (fst m)) (snd (fst m)) (snd m) ed = ed).
  { unfold handleMouseMove. rewrite Hidle. reflexivity. }
  unfold editorRun, mouseMoves in *. cbn [map fold_left editorStep].
  rewrite Hstep. apply IH, Hidle.
Qed.

(** X5. A mouse move changes the crop rectangle only during a drag, with
    the image loaded and over a container of non-zero width; in
    particular mouse moves change nothing after a mouse up, nor before
    the first mouse down in a newly mounted editor. *)
Theorem handleMouseMove_only_in_drag :
  (forall (clientX clientY : num) (container : option num) (ed : Editor num),
      crop (handleMouseMove clientX clientY container ed) <> crop ed ->
      isDragging ed = true /\
      imgElement ed <> None /\
      exists rect_width,
        container = Some rect_width /\ strict_eq rect_width (lit 0) = false) /\
  (forall (ed : Editor num) (moves : list (num * num * option num)),
      crop (editorRun ed (MouseUp :: mouseMoves moves)) = crop ed) /\
  (forall (initialCrop : CropRect num) (moves : list (num * num * option num)),
      crop (editorRun (mountEditor initialCrop) (mouseMoves moves)) = initialCrop).
Proof.
  split; [ | split ].
  - intros clientX clientY container ed Hchanged.
    unfold handleMouseMove in Hchanged.
    destruct (isDragging ed); [ | contradiction Hchanged; reflexivity].
    destruct (imgElement ed) as [img | ];
      [ | contradiction Hchanged; reflexivity].
    destruct container as [rect_width | ];
      [ | contradiction Hchanged; reflexivity].
    destruct (strict_eq rect_width (lit 0)) eqn:E;
      [contradiction Hchanged; reflexivity | ].
    repeat split; [discriminate | ].
    exists rect_width. split; [reflexivity | exact E].
  - intros ed moves.
    change (editorRun ed (MouseUp :: mouseMoves moves))
      with (editorRun (handleMouseUp ed) (mouseMoves moves)).
    rewrite (mouseMoves_idle moves (handleMouseUp ed) eq_refl). reflexivity.
  - intros initialCrop moves.
    rewrite (mouseMoves_idle moves (mountEditor initialCrop) eq_refl). reflexivity.
Qed.
End EditorFrame.

Lemma editor_idle_before_load_witness :
  crop (editorRun (mountEditor (num := Q) {| x := 180; y := 80; size := 440 |})
          (sampleDrag ++ [SizeChange 500]))
  = {| x := 180; y := 80; size := 440 |}.
Proof.
  apply (editor_idle_before_load (sampleDrag ++ [SizeChange 500])
           (mountEditor {| x := 180; y := 80; size := 440 |})); reflexivity.
Defined.

(** ** Crop editor: how drags and resizes compose *)





(** ** Crop editor: the overlay *)



(** ** Garment detection *)

Local Open Scope string_scope.

Lemma split_cons_header (header rest : string) :
  occurs "," header = false ->
  split "," (header ++ String "," rest)
  = header :: split "," rest.
Proof.
  induction header as [ | c header IH]; intros Hno.
  - cbn [append split]. destruct (split "," rest) as [ | piece pieces] eqn:E.
    + destruct rest; cbn in E; [discriminate | ].
      destruct (split "," rest); [discriminate | ].
      destruct (Ascii.eqb _ _); discriminate.
    + reflexivity.
  - cbn [occurs] in Hno. apply orb_false_iff in Hno. destruct Hno as [Hc Hno].
    cbn [append split]. rewrite (IH Hno), Hc. reflexivity.
Qed.

Lemma split_no_separator (s : string) :
  occurs "," s = false -> split "," s = [s].
Proof.
  induction s as [ | c s IH]; intros Hno; [reflexivity | ].
  cbn [occurs] in Hno. apply orb_false_iff in Hno. destruct Hno as [Hc Hno].
  cbn [split]. rewrite (IH Hno), Hc. reflexivity.
Qed.

Section DetectionProperties.
Context {num : Type} `{Number num}.
Variable env : Browser num.

Lemma detectGarment_request (base64Image : string) (data : option string) :
  nth_error (split "," base64Image) 1 = data ->
  (forall (jsonText : string) (details : GarmentDetails num),
      generateContent env data = Some (Some jsonText) -> jsonText <> "" ->
      JSON_parse env jsonText = Some details ->
      detectGarment env base64Image = Ok details) /\
  (generateContent env data = None \/
   generateContent env data = Some None \/
   generateContent env data = Some (Some "") \/
   (exists jsonText : string,
       generateContent env data = Some (Some jsonText) /\
       JSON_parse env jsonText = None) ->
   detectGarment env base64Image = Throw (Some detectionFailed)).
Proof.
  intros Edata. unfold detectGarment. rewrite Edata. split.
  - intros jsonText details Eanswer Hne Eparse. rewrite Eanswer.
    destruct jsonText as [ | c rest]; [contradiction | ]. rewrite Eparse. reflexivity.
  - intros [Efail | [Efail | [Efail | (jsonText & Efail & Eparse)] ] ]; rewrite Efail;
      try reflexivity.
    destruct jsonText; [reflexivity | ]. rewrite Eparse. reflexivity.
Qed.

(** X9. Of a data URL, what [detectGarment] sends to the model is exactly
    the payload: what stands between the first comma and the next one, or
    the end.  When the model answers that payload with a text that parses,
    the result is the parsed details; when the call on that payload fails,
    or gives no text, an empty text or a text that does not parse, the
    result is the generic error.  So the header before the first comma, and
    with it the media type of the file, never reaches the model, and
    neither does what follows a second comma.  Of a string without a comma
    nothing is sent: the model is asked without image data. *)
Theorem detectGarment_sends_payload (header payload : string) :
  occurs "," header = false -> occurs "," payload = false ->
  (forall (url jsonText : string) (details : GarmentDetails num),
      url = header ++ "," ++ payload \/
      (exists more : string, url = header ++ "," ++ payload ++ "," ++ more) ->
      (generateContent env (Some payload) = Some (Some jsonText) -> jsonText <> "" ->
       JSON_parse env jsonText = Some details ->
       detectGarment env url = Ok details) /\
      (generateContent env (Some payload) = None \/
       generateContent env (Some payload) = Some None \/
       generateContent env (Some payload) = Some (Some "") \/
       (exists text : string,
           generateContent env (Some payload) = Some (Some text) /\
           JSON_parse env text = None) ->
       detectGarment env url = Throw (Some detectionFailed))) /\
  (forall other : string,
      occurs "," other = false ->
      detectGarment env (other ++ "," ++ payload)
      = detectGarment env (header ++ "," ++ payload)) /\
  (forall (jsonText : string) (details : GarmentDetails num),
      (generateContent env None = Some (Some jsonText) -> jsonText <> "" ->
       JSON_parse env jsonText = Some details ->
       detectGarment env header = Ok details) /\
      (generateContent env None = None ->
       detectGarment env header = Throw (Some detectionFailed))).
Proof.
  intros Hheader Hpayload.
  assert (Sent : forall url : string,
             url = header ++ "," ++ payload \/
             (exists more : string, url = header ++ "," ++ payload ++ "," ++ more) ->
             nth_error (split "," url) 1 = Some payload).
  { intros url [-> | (more & ->)].
    - change ("," ++ payload) with (String "," payload).
      rewrite (split_cons_header header payload Hheader).
      rewrite (split_no_separator payload Hpayload). reflexivity.
    - change ("," ++ payload ++ "," ++ more) with (String "," (payload ++ String "," more)).
      rewrite (split_cons_header header _ Hheader).
      rewrite (split_cons_header payload more Hpayload). reflexivity. }
  assert (Nothing : nth_error (split "," header) 1 = None).
  { rewrite (split_no_separator header Hheader). reflexivity. }
  split; [ | split].
  - intros url jsonText details Hurl.
    destruct (detectGarment_request url (Some payload) (Sent url Hurl)) as [Success Failure].
    split; [apply Success | exact Failure].
  - intros other Hother. unfold detectGarment.
    change ("," ++ payload) with (String "," payload).
    rewrite (split_cons_header other payload Hother).
    rewrite (split_cons_header header payload Hheader). reflexivity.
  - intros jsonText details.
    destruct (detectGarment_request header None Nothing) as [Success Failure].
    split; [apply Success | ]. intros Efail. apply Failure. left. exact Efail.
Qed.
End DetectionProperties.

(** The data URL of [photo.png] in an environment whose model answers its
    bytes only. *)
Lemma detectGarment_sends_payload_witness :
  detectGarment (num := Q) payloadBrowser "data:image/png;base64,iVBORw0KGgo="
  = Ok sampleDetails.
Proof.
  destruct (detectGarment_sends_payload (num := Q) payloadBrowser
              "data:image/png;base64" "iVBORw0KGgo=" eq_refl eq_refl) as [Sent _].
  destruct (Sent "data:image/png;base64,iVBORw0KGgo=" "{}" sampleDetails) as [Success _].
  - left. reflexivity.
  - apply Success; [reflexivity | discriminate | reflexivity].
Defined.

(** ** Upload, manual crop and reset *)

Section Handlers.
Context {num : Type} `{Number num}.
Variable env : Browser num.

(** X10. An upload forgets the session that came before it: when the file
    is read, the state it ends in is the same from whatever state it started;
    when the file cannot be read, the source image of the previous
    upload, and of the previous state nothing else, is still in the
    state. *)
Theorem handleFileUpload_forgets (s1 s2 : App num) (file : File) :
  (forall base64, fileToBase64 env file = Ok base64 ->
     exec (handleFileUpload env (Some file)) s1
     = exec (handleFileUpload env (Some file)) s2) /\
  (sourceImage s1 = sourceImage s2 ->
   exec (handleFileUpload env (Some file)) s1
   = exec (handleFileUpload env (Some file)) s2) /\
  (forall message, fileToBase64 env file = Throw message ->
     sourceImage (exec (handleFileUpload env (Some file)) s1) = sourceImage s1).
Proof.
  destruct s1 as [state1 source1 cropped1 details1 crop1 error1 name1].
  destruct s2 as [state2 source2 cropped2 details2 crop2 error2 name2].
  split; [ | split ].
  - intros base64 Eread. run_handler. rewrite Eread.
    destruct (detectGarment env base64) as [details | m1];
      [ destruct (loadImage env base64) as [img | m2];
        [ destruct (performCrop env base64 _ 1024) as [url | m3] | ] | ];
      reflexivity.
  - cbn [sourceImage]. intros ->. run_handler.
    destruct (fileToBase64 env file) as [base64 | m0];
      [ destruct (detectGarment env base64) as [details | m1];
        [ destruct (loadImage env base64) as [img | m2];
          [ destruct (performCrop env base64 _ 1024) as [url | m3] | ] | ] | ];
      reflexivity.
  - intros message Eread. run_handler. rewrite Eread. reflexivity.
Qed.

(** X11. What a successful upload leaves: the state [SUCCESS], the data
    URL of the file, the details that were detected, the rectangle
    derived from the texture box, or from the garment box when there is no
    texture box, the encoding of that rectangle rendered at 1024 x 1024,
    no message, and the name of the file without its extension. *)
Theorem handleFileUpload_success
    (s : App num) (file : File) (base64 : string)
    (details : GarmentDetails num) (img : HTMLImageElement num) :
  fileToBase64 env file = Ok base64 ->
  detectGarment env base64 = Ok details ->
  loadImage env base64 = Ok img ->
  getContext env = true ->
  let targetBox :=
    match textureBox details with
    | Some b => b
    | None => box details
    end in
  let smartCrop := calculateSmartCrop targetBox (naturalWidth img) (naturalHeight img) in
  exec (handleFileUpload env (Some file)) s
  = {| appState := SUCCESS;
       sourceImage := Some base64;
       croppedImage := Some (toDataURL env (renderCrop img smartCrop 1024));
       garmentDetails := Some details;
       currentCrop := Some smartCrop;
       errorMsg := None;
       originalFileName := stripExtension (name file) |}.
Proof.
  intros Eread Edetect Eload Ectx targetBox smartCrop.
  destruct s as [state0 source0 cropped0 details0 crop0 error0 name0].
  run_handler. rewrite Eread, Edetect, Eload.
  unfold performCrop. rewrite Eload. cbn [result_bind]. rewrite Ectx.
  reflexivity.
Qed.

(** X12. The message that a failed upload leaves names the step that
    failed: "Failed to load image file." when the file cannot be read, the
    message of [detectGarment] when detection fails, whatever made it
    fail, "Failed to process image." when the image cannot be decoded, and
    "Could not get canvas context" when the canvas gives no context. *)
Theorem handleFileUpload_error_message (s : App num) (file : File) :
  let s' := exec (handleFileUpload env (Some file)) s in
  (readAsDataURL env file = None ->
   errorMsg s' = Some "Failed to load image file.") /\
  (forall base64, readAsDataURL env file = Some base64 ->
     (forall details, detectGarment env base64 <> Ok details) ->
     errorMsg s'
     = Some "Failed to detect garment details. Please try a clearer image.") /\
  (forall base64 details, readAsDataURL env file = Some base64 ->
     detectGarment env base64 = Ok details ->
     decodeImage env base64 = None ->
     errorMsg s' = Some "Failed to process image.") /\
  (forall base64 details img, readAsDataURL env file = Some base64 ->
     detectGarment env base64 = Ok details ->
     decodeImage env base64 = Some img ->
     getContext env = false ->
     errorMsg s' = Some "Could not get canvas context").
Proof.
  intros s'. unfold s'. clear s'.
  destruct s as [state0 source0 cropped0 details0 crop0 error0 name0].
  split; [ | split; [ | split ] ].
  - intros Eread. run_handler. unfold fileToBase64. rewrite Eread. reflexivity.
  - intros base64 Eread Hfail. run_handler. unfold fileToBase64. rewrite Eread.
    destruct (detectGarment env base64) as [details | m] eqn:Edetect.
    + contradiction (Hfail details). reflexivity.
    + unfold detectGarment in Edetect.
      destruct (generateContent env _) as [[[ | c text] | ] | ];
        try (injection Edetect as <-; reflexivity).
      destruct (JSON_parse env _); [discriminate | ].
      injection Edetect as <-. reflexivity.
  - intros base64 details Eread Edetect Eload. run_handler.
    unfold fileToBase64. rewrite Eread, Edetect.
    unfold loadImage. rewrite Eload. reflexivity.
  - intros base64 details img Eread Edetect Eload Ectx. run_handler.
    unfold fileToBase64. rewrite Eread, Edetect.
    unfold performCrop, loadImage. rewrite Eload. cbn [result_bind].
    rewrite Ectx. reflexivity.
Qed.

(** X13. A manual crop leaves the source image, the details and the file
    name as they were; without a source image it does nothing at all;
    when the render succeeds it ends in [SUCCESS] with the new rectangle
    and its render, and the message of an earlier failure, if any, is still
    in the state. *)
Theorem handleManualCropConfirm_frame (s : App num) (newCrop : CropRect num) :
  let s' := exec (handleManualCropConfirm env newCrop) s in
  (sourceImage s' = sourceImage s /\
   garmentDetails s' = garmentDetails s /\
   originalFileName s' = originalFileName s /\
   (errorMsg s' = errorMsg s \/ errorMsg s' = Some "Failed to apply manual crop")) /\
  (truthy (sourceImage s) = false -> s' = s) /\
  (forall src url, sourceImage s = Some src -> src <> "" ->
     performCrop env src newCrop 1024 = Ok url ->
     appState s' = SUCCESS /\ currentCrop s' = Some newCrop /\
     croppedImage s' = Some url /\ errorMsg s' = errorMsg s).
Proof.
  intros s'. unfold s'. clear s'.
  destruct s as [state0 source0 cropped0 details0 crop0 error0 name0].
  split; [ | split ].
  - destruct source0 as [[ | c src] | ]; run_handler;
      try (repeat split; left; reflexivity).
    destruct (performCrop env (String c src) newCrop 1024);
      repeat split; first [left; reflexivity | right; reflexivity].
  - destruct source0 as [[ | c src] | ]; cbn [truthy sourceImage];
      intros E; try discriminate; reflexivity.
  - cbn [sourceImage]. intros src url -> Hne Ecrop.
    destruct src as [ | c src]; [contradiction | ].
    run_handler. rewrite Ecrop. repeat split.
Qed.
End Handlers.

(** [photo.png] is uploaded where every step succeeds. *)
Lemma handleFileUpload_success_witness :
  appState (exec (handleFileUpload (num := Q) sampleBrowser (Some photo)) initialApp)
  = SUCCESS /\
  originalFileName (exec (handleFileUpload (num := Q) sampleBrowser (Some photo)) initialApp)
  = "photo".
Proof.
  rewrite (handleFileUpload_success (num := Q) sampleBrowser initialApp photo
             "data:image/png;base64,iVBORw0KGgo=" sampleDetails sampleImage
             eq_refl eq_refl eq_refl eq_refl).
  split; reflexivity.
Defined.

(** ** Sessions *)

(** Settles the facts of [atRest] about a state that is known. *)
Ltac rest_facts :=
  repeat split; intros;
  try discriminate; try reflexivity; try assumption;
  repeat match goal with
         | E : _ \/ _ |- _ => destruct E
         | Hne : ?v <> ?v |- _ => contradiction Hne; reflexivity
         end;
  try discriminate; try assumption; try contradiction.

Section Sessions.
Context {num : Type} `{Number num}.
Variable env : Browser num.

Lemma render_editor (a : App num) (mounted : option (Editor num)) :
  editor (render a mounted) <> None -> editorOverlay a <> None.
Proof.
  unfold render. cbn [editor].
  destruct (editorOverlay a) as [[src c] | ];
    [discriminate | intros E; contradiction E; reflexivity].
Qed.

Lemma editorOverlay_state (a : App num) :
  editorOverlay a <> None ->
  appState a = EDITING /\ truthy (sourceImage a) = true /\ currentCrop a <> None.
Proof.
  unfold editorOverlay.
  destruct (appState a); try (intros E; contradiction E; reflexivity).
  destruct (sourceImage a) as [[ | c src] | ];
    try (intros E; contradiction E; reflexivity).
  destruct (currentCrop a); [ | intros E; contradiction E; reflexivity].
  intros _. repeat split. discriminate.
Qed.

Lemma handleFileUpload_rests (a : App num) (file : File) :
  let a' := exec (handleFileUpload env (Some file)) a in
  (appState a' = SUCCESS /\ sourceImage a' <> None /\ garmentDetails a' <> None /\
   currentCrop a' <> None /\ croppedImage a' <> None)
  \/ (appState a' = ERROR /\ croppedImage a' = None /\ errorMsg a' <> None).
Proof.
  destruct a as [state0 source0 cropped0 details0 crop0 error0 name0].
  run_handler.
  destruct (fileToBase64 env file) as [base64 | m0];
    [ destruct (detectGarment env base64) as [details | m1];
      [ destruct (loadImage env base64) as [img | m2];
        [ destruct (performCrop env base64 _ 1024) as [url | m3] | ] | ] | ];
    first [ left; repeat split; discriminate
          | right; repeat split; discriminate ].
Qed.

Lemma handleReset_initial (a : App num) : exec handleReset a = initialApp.
Proof.
  destruct a as [state0 source0 cropped0 details0 crop0 error0 name0].
  run_handler. reflexivity.
Qed.

Lemma atRest_initial : atRest (initialSession (num := num)).
Proof.
  unfold atRest, initialSession, render. cbn. rest_facts.
Qed.

Lemma atRest_render (a : App num) (mounted : option (Editor num)) :
  atRest {| app := a; editor := None |} -> atRest (render a mounted).
Proof.
  unfold atRest. cbn [app editor].
  intros (H1 & H2 & H3 & H4 & H5 & H6 & _).
  split; [exact H1 | split; [exact H2 | split; [exact H3 | split; [exact H4 | ] ] ] ].
  split; [exact H5 | split; [exact H6 | apply render_editor ] ].
Qed.

Lemma atRest_step (s : Session (num := num)) (e : AppEvent (num := num)) :
  atRest s -> atRest (appStep env s e).
Proof.
  intros Hs. pose proof Hs as (H1 & H2 & H3 & H4 & H5 & H6 & H7).
  cbv zeta in H1, H2, H3, H4, H5, H6, H7.
  destruct e as [file | | e].
  - (* Upload *)
    cbn [appStep]. destruct (uploadEnabled (app s)); [ | exact Hs].
    destruct file as [file | ].
    + apply atRest_render. unfold atRest. cbn [app editor].
      destruct (handleFileUpload_rests (app s) file)
        as [(E1 & E2 & E3 & E4 & E5) | (E1 & E2 & E3)];
        rewrite E1; rest_facts.
    + change (exec (handleFileUpload env None) (app s)) with (app s).
      apply atRest_render. unfold atRest. cbn [app editor].
      split; [exact H1 | split; [exact H2 | split; [exact H3 | split; [exact H4 | ] ] ] ].
      split; [exact H5 | split; [exact H6 | intros E; contradiction E; reflexivity ] ].
  - (* Reset *)
    cbn [appStep]. destruct (resetEnabled (app s)); [ | exact Hs].
    rewrite handleReset_initial. exact atRest_initial.
  - (* the result panel and the editor *)
    cbn [appStep]. unfold sessionStep.
    destruct e as [ | e | | ].
    + (* Adjust Crop *)
      destruct (truthy (croppedImage (app s))) eqn:Hcropped; [ | exact Hs].
      assert (Hsome : croppedImage (app s) <> None).
      { destruct (croppedImage (app s)); discriminate. }
      destruct (H6 Hsome) as (S1 & S2 & S3).
      apply atRest_render. unfold atRest, exec, setAppState, modify.
      cbn [fst app editor appState sourceImage croppedImage garmentDetails
           currentCrop errorMsg].
      rest_facts.
    + (* an event of the editor *)
      destruct (editor s) as [ed | ] eqn:Hed; [ | exact Hs].
      unfold atRest. cbn [app editor].
      split; [exact H1 | split; [exact H2 | split; [exact H3 | split; [exact H4 | ] ] ] ].
      split; [exact H5 | split; [exact H6 | intros _; apply H7; discriminate ] ].
    + (* Cancel *)
      destruct (editor s) as [ed | ] eqn:Hed; [ | exact Hs].
      assert (Hover : editorOverlay (app s) <> None) by (apply H7; discriminate).
      destruct (editorOverlay_state (app s) Hover) as (S1 & S2 & S3).
      assert (Hcropped : croppedImage (app s) <> None) by (apply H5; auto).
      destruct (H6 Hcropped) as (T1 & T2 & T3).
      apply atRest_render. unfold atRest, exec, onCancel, setAppState, modify.
      cbn [fst app editor appState sourceImage croppedImage garmentDetails
           currentCrop errorMsg].
      rest_facts.
    + (* Confirm *)
      destruct (editor s) as [ed | ] eqn:Hed; [ | exact Hs].
      assert (Hover : editorOverlay (app s) <> None) by (apply H7; discriminate).
      destruct (editorOverlay_state (app s) Hover) as (S1 & S2 & S3).
      assert (Hcropped : croppedImage (app s) <> None) by (apply H5; auto).
      destruct (H6 Hcropped) as (T1 & T2 & T3).
      apply atRest_render. unfold atRest. cbn [app editor].
      destruct (app s) as [state0 source0 cropped0 details0 crop0 error0 name0].
      cbn [appState sourceImage croppedImage garmentDetails currentCrop errorMsg
           truthy] in *.
      destruct source0 as [[ | c src] | ]; try discriminate.
      run_handler.
      destruct (performCrop env (String c src) (crop ed) 1024) as [url | m];
        rest_facts.
Qed.

Lemma atRest_run (es : list (AppEvent (num := num))) (s : Session (num := num)) :
  atRest s -> atRest (appRun env s es).
Proof.
  revert s. induction es as [ | e es IH]; intros s Hs; [exact Hs | ].
  apply IH, atRest_step, Hs.
Qed.

Lemma idle_is_initial (s : Session (num := num)) :
  atRest s -> appState (app s) = IDLE -> s = initialSession.
Proof.
  intros (H1 & H2 & H3 & H4 & H5 & H6 & H7) Hidle. cbv zeta in H2, H7.
  destruct s as [a ed]. cbn [app editor] in *.
  rewrite (H2 Hidle).
  destruct ed as [ed | ]; [ | reflexivity].
  assert (Hover : editorOverlay a <> None) by (apply H7; discriminate).
  destruct (editorOverlay_state a Hover) as (S1 & _). congruence.
Qed.

(** X14. In a session in which every handler runs to its end before the
    next event, whatever the events are, the application never rests in
    [ANALYZING]; it rests in [CROPPING] only after a manual crop that
    failed, with that failure's message in the state; it is in [IDLE] only
    in the initial session; and in [ERROR] there is a message, no cropped
    image, and nothing to download. *)
Theorem session_rests (es : list (AppEvent (num := num))) :
  let s := appRun env initialSession es in
  appState (app s) <> ANALYZING /\
  (appState (app s) = CROPPING ->
   errorMsg (app s) = Some "Failed to apply manual crop") /\
  (appState (app s) = IDLE -> s = initialSession) /\
  (appState (app s) = ERROR ->
   errorMsg (app s) <> None /\ croppedImage (app s) = None /\
   handleDownload (app s) = None).
Proof.
  intros s.
  destruct (atRest_run es initialSession atRest_initial)
    as (H1 & H2 & H3 & H4 & H5 & H6 & H7).
  fold s in H1, H2, H3, H4, H5, H6, H7. cbv zeta in H2, H3, H4, H5, H6, H7.
  split; [exact H1 | split; [exact H3 | split ] ].
  - apply idle_is_initial. exact (atRest_run es initialSession atRest_initial).
  - intros Herror. destruct (H4 Herror) as [Hcropped Hmsg].
    repeat split; try assumption.
    unfold handleDownload. rewrite Hcropped. reflexivity.
Qed.

(** X15. In such a session, whenever there is a cropped image there are
    a source image, detected details and a committed rectangle; in
    [SUCCESS] and in [EDITING] there is a cropped image; and the editor is
    mounted only in [EDITING], with a source image and a committed
    rectangle. *)
Theorem session_results_consistent (es : list (AppEvent (num := num))) :
  let s := appRun env initialSession es in
  (croppedImage (app s) <> None ->
   sourceImage (app s) <> None /\ garmentDetails (app s) <> None /\
   currentCrop (app s) <> None) /\
  (appState (app s) = SUCCESS \/ appState (app s) = EDITING ->
   croppedImage (app s) <> None) /\
  (editor s <> None ->
   appState (app s) = EDITING /\ truthy (sourceImage (app s)) = true /\
   currentCrop (app s) <> None).
Proof.
  intros s.
  destruct (atRest_run es initialSession atRest_initial)
    as (H1 & H2 & H3 & H4 & H5 & H6 & H7).
  fold s in H1, H2, H3, H4, H5, H6, H7. cbv zeta in H2, H3, H4, H5, H6, H7.
  split; [exact H6 | split ].
  - intros [E | E]; apply H5; auto.
  - intros Hed. apply editorOverlay_state, H7, Hed.
Qed.

(** X16. Whatever happened in such a session, a reset brings it back to
    the initial session. *)
Theorem reset_restores (es : list (AppEvent (num := num))) :
  appRun env initialSession (es ++ [Reset]) = initialSession.
Proof.
  unfold appRun. rewrite fold_left_app. cbn [fold_left].
  fold (appRun env initialSession es).
  set (s := appRun env initialSession es).
  pose proof (atRest_run es initialSession atRest_initial) as Hs. fold s in Hs.
  cbn [appStep]. unfold resetEnabled.
  destruct (appState (app s)) eqn:Hstate;
    try (rewrite handleReset_initial; reflexivity).
  apply idle_is_initial; assumption.
Qed.
End Sessions.

(** ** Handlers between their awaits *)

(** Runs the handlers of a session symbolically, stage by stage. *)
Ltac run_stages :=
  cbv beta iota zeta delta
    [liveRun liveStep advance waitsAt settleAll initialLive initialSession initialApp
     session pending resume startUpload startManualCrop processImageFailed
     appStep sessionStep render editorOverlay uploadEnabled resetEnabled
     handleReset handleFileUpload processImage handleManualCropConfirm onCancel
     app editor
     fold_left nth_error firstn skipn repeat Datatypes.app Nat.sub
     exec try_catch bind await ret modify fst snd
     setAppState setSourceImage setCroppedImage setGarmentDetails
     setCurrentCrop setErrorMsg setOriginalFileName
     appState sourceImage croppedImage garmentDetails currentCrop errorMsg
     originalFileName].

Section StagesProperties.
Context {num : Type} `{Number num}.
Variable env : Browser num.

(** Left alone, the stages of an upload and of a manual crop end in the
    state in which the handler ends when it is run at once. *)
Lemma settleAll_handleFileUpload (a : App num) (file : option File) :
  settleAll env 4 (startUpload file a) = exec (handleFileUpload env file) a.
Proof.
  destruct a as [state0 source0 cropped0 details0 crop0 error0 name0].
  destruct file as [file | ]; [ | reflexivity].
  run_stages.
  destruct (fileToBase64 env file) as [base64 | m0]; [ | reflexivity].
  destruct (detectGarment env base64) as [details | m1]; [ | reflexivity].
  destruct (loadImage env base64) as [img | m2]; [ | reflexivity].
  destruct (performCrop env base64 _ 1024) as [url | m3]; reflexivity.
Qed.

Lemma settleAll_handleManualCropConfirm (a : App num) (newCrop : CropRect num) :
  settleAll env 1 (startManualCrop newCrop a)
  = exec (handleManualCropConfirm env newCrop) a.
Proof.
  destruct a as [state0 source0 cropped0 details0 crop0 error0 name0].
  destruct source0 as [[ | c src] | ]; try reflexivity.
  run_stages.
  destruct (performCrop env (String c src) newCrop 1024) as [url | m]; reflexivity.
Qed.

(** When nothing else happens while an upload waits, the session ends as
    when its handler is run at once. *)
Lemma liveRun_uninterrupted_upload (l : Live (num := num)) (file : option File) :
  pending l = [] ->
  liveRun env l (User (Upload file) :: repeat (Settle 0) 4)
  = {| session := appStep env (session l) (Upload file); pending := [] |}.
Proof.
  destruct l as [[a ed] waiting]. cbn [pending]. intros ->.
  destruct a as [state0 source0 cropped0 details0 crop0 error0 name0].
  destruct file as [file | ]; destruct state0; run_stages; try reflexivity;
    (destruct (fileToBase64 env file) as [base64 | m0]; [ | reflexivity]);
    (destruct (detectGarment env base64) as [details | m1]; [ | reflexivity]);
    (destruct (loadImage env base64) as [img | m2]; [ | reflexivity]);
    (destruct (performCrop env base64 _ 1024) as [url | m3]; reflexivity).
Qed.

(** X17. A reset does not cancel an upload that is under way.  When the
    user resets after [k] of the four promises of an upload have settled,
    and the rest of the upload succeeds, the session ends, with no handler
    waiting, in [SUCCESS] with the cropped image of the abandoned upload
    under the default file name; and unless the reset came before the file
    was read, there is no source image, so that the editor cannot be
    opened on the result. *)
Theorem reset_does_not_cancel_upload
    (file : File) (base64 : string) (details : GarmentDetails num)
    (img : HTMLImageElement num) (url : string) (k : nat) :
  fileToBase64 env file = Ok base64 ->
  detectGarment env base64 = Ok details ->
  loadImage env base64 = Ok img ->
  performCrop env base64 (smartCropOf details img) 1024 = Ok url ->
  (k <= 3)%nat ->
  let events :=
    User (Upload (Some file)) :: repeat (Settle 0) k
    ++ User Reset :: repeat (Settle 0) (4 - k) in
  let l := liveRun env initialLive events in
  let a := app (session l) in
  pending l = [] /\
  appState a = SUCCESS /\
  croppedImage a = Some url /\
  originalFileName a = "smart-crop" /\
  a <> initialApp /\
  ((1 <= k)%nat ->
   sourceImage a = None /\
   editor (sessionStep env (session l) AdjustCrop) = None).
Proof.
  intros Eread Edetect Eload Ecrop Hk events l a. unfold a, l, events.
  unfold smartCropOf in Ecrop.
  destruct k as [ | [ | [ | [ | k] ] ] ]; [ | | | | lia ];
    run_stages; rewrite ?Eread; run_stages; rewrite ?Edetect; run_stages;
    rewrite ?Eload; run_stages; rewrite ?Ecrop; run_stages;
    (repeat split; try discriminate; try reflexivity; try lia).
  all: cbv [truthy]; destruct url; reflexivity.
Qed.
End StagesProperties.

Lemma reset_does_not_cancel_upload_witness :
  appState
    (app (session
       (liveRun (num := Q) sampleBrowser initialLive
          [User (Upload (Some photo)); Settle 0; Settle 0; User Reset;
           Settle 0; Settle 0])))
  = SUCCESS /\
  sourceImage
    (app (session
       (liveRun (num := Q) sampleBrowser initialLive
          [User (Upload (Some photo)); Settle 0; Settle 0; User Reset;
           Settle 0; Settle 0])))
  = None.
Proof.
  destruct (reset_does_not_cancel_upload (num := Q) sampleBrowser photo
              "data:image/png;base64,iVBORw0KGgo=" sampleDetails sampleImage
              "data:image/jpeg;base64,/9j/4AAQ" 2
              eq_refl eq_refl eq_refl eq_refl)
    as (_ & Hstate & _ & _ & _ & Hsource).
  - repeat constructor.
  - destruct Hsource as [Hsource _]; [repeat constructor | ].
    split; [exact Hstate | exact Hsource].
Defined.

(** ** File names: edge cases *)

Lemma matchesExtension_inv (s : string) :
  matchesExtension s = true ->
  exists ext, s = String "." ext /\ ext <> "" /\ allExtensionChars ext = true.
Proof.
  destruct s as [ | c s]; [discriminate | ].
  cbn [matchesExtension].
  destruct c as [[ | ] [ | ] [ | ] [ | ] [ | ] [ | ] [ | ] [ | ]]; try discriminate.
  destruct s as [ | d s]; [discriminate | ].
  intros Hall. exists (String d s). repeat split; [discriminate | exact Hall].
Qed.

Lemma allExtensionChars_occurs (c : ascii) (s : string) :
  c = "."%char \/ c = "/"%char -> occurs c s = true -> allExtensionChars s = false.
Proof.
  intros Hc. induction s as [ | d s IH]; [discriminate | ].
  cbn [occurs allExtensionChars]. intros Hocc.
  apply orb_true_iff in Hocc. destruct Hocc as [Hd | Hs].
  - apply Ascii.eqb_eq in Hd. subst d. destruct Hc as [-> | ->]; reflexivity.
  - rewrite (IH Hs). apply andb_false_r.
Qed.

(** X18. Only an extension is removed from a file name: the name is what
    is kept followed by what is removed, and what is removed is nothing, or
    a dot followed by one or more characters none of which is a dot or a
    slash. *)
Theorem stripExtension_removes_suffix (s : string) :
  exists removed : string,
    s = stripExtension s ++ removed /\
    (removed = "" \/
     exists ext, removed = "." ++ ext /\ ext <> "" /\
                 occurs "." ext = false /\ occurs "/" ext = false).
Proof.
  induction s as [ | c s (removed & Hs & Hremoved)].
  - exists "". split; [reflexivity | left; reflexivity].
  - destruct (matchesExtension (String c s)) eqn:E.
    + exists (String c s). cbn [stripExtension]. rewrite E. split; [reflexivity | ].
      right. destruct (matchesExtension_inv _ E) as (ext & Eext & Hne & Hall).
      exists ext. split; [exact Eext | split; [exact Hne | ] ].
      split.
      * destruct (occurs "." ext) eqn:O; [ | reflexivity].
        rewrite (allExtensionChars_occurs "." ext (or_introl eq_refl) O) in Hall.
        discriminate.
      * destruct (occurs "/" ext) eqn:O; [ | reflexivity].
        rewrite (allExtensionChars_occurs "/" ext (or_intror eq_refl) O) in Hall.
        discriminate.
    + exists removed. rewrite (stripExtension_no_match c s E). cbn [append].
      split; [rewrite <- Hs; reflexivity | exact Hremoved].
Qed.

Lemma matchesExtension_not_dot (c : ascii) (s : string) :
  Ascii.eqb c "." = false -> matchesExtension (String c s) = false.
Proof.
  destruct c as [[ | ] [ | ] [ | ] [ | ] [ | ] [ | ] [ | ] [ | ]];
    first [reflexivity | discriminate].
Qed.

Lemma stripExtension_no_dot (s : string) :
  occurs "." s = false -> stripExtension s = s.
Proof.
  induction s as [ | c s IH]; intros Hno; [reflexivity | ].
  cbn [occurs] in Hno. apply orb_false_iff in Hno. destruct Hno as [Hc Hno].
  rewrite stripExtension_no_match by (apply matchesExtension_not_dot, Hc).
  rewrite (IH Hno). reflexivity.
Qed.

(** X19. A file name is kept as it is when it has no extension to remove:
    when it holds no dot, when it ends with a dot, and when a slash
    follows its last dot. *)
Theorem stripExtension_keeps :
  (forall s, occurs "." s = false -> stripExtension s = s) /\
  (forall s, stripExtension (s ++ ".") = s ++ ".") /\
  (forall s t, occurs "." t = false -> occurs "/" t = true ->
     stripExtension (s ++ "." ++ t) = s ++ "." ++ t).
Proof.
  split; [exact stripExtension_no_dot | split ].
  - intros s. induction s as [ | c s IH]; [reflexivity | ].
    cbn [append].
    rewrite stripExtension_no_match by apply matchesExtension_inside.
    rewrite IH. reflexivity.
  - intros s t Hdot Hslash. change ("." ++ t) with (String "." t).
    induction s as [ | c s IH].
    + cbn [append].
      assert (Hno : matchesExtension (String "." t) = false).
      { destruct t as [ | d t]; [reflexivity | ].
        change (matchesExtension (String "." (String d t)))
          with (allExtensionChars (String d t)).
        apply (allExtensionChars_occurs "/"); [right; reflexivity | exact Hslash]. }
      rewrite (stripExtension_no_match "." t Hno).
      rewrite (stripExtension_no_dot t Hdot). reflexivity.
    + cbn [append].
      rewrite stripExtension_no_match by apply matchesExtension_inside.
      rewrite IH. reflexivity.
Qed.

(** ** The colour in the file name *)

Lemma sanitize_keeps_allowed (s : string) (c : ascii) :
  occurs c (sanitize s) = true -> isAlnumOrHyphen c = true.
Proof.
  induction s as [ | d s IH]; [discriminate | ].
  cbn [sanitize]. destruct (isAlnumOrHyphen d) eqn:Hd; [ | exact IH].
  cbn [occurs]. intros Hocc. apply orb_true_iff in Hocc.
  destruct Hocc as [E | Hocc]; [ | exact (IH Hocc)].
  apply Ascii.eqb_eq in E. subst d. exact Hd.
Qed.

(** X20. The colour that goes into the file name holds letters, digits and
    hyphens only, so neither a slash, a dot nor a space; cleaning a
    colour that is clean already changes nothing; and the colour of two
    words is cleaned word by word. *)
Theorem sanitize_clean :
  (forall (s : string) (c : ascii),
      occurs c (sanitize s) = true -> isAlnumOrHyphen c = true) /\
  (forall s : string,
      occurs "/" (sanitize s) = false /\ occurs "." (sanitize s) = false /\
      occurs " " (sanitize s) = false) /\
  (forall s : string, sanitize (sanitize s) = sanitize s) /\
  (forall a b : string, sanitize (a ++ b) = sanitize a ++ sanitize b).
Proof.
  split; [exact sanitize_keeps_allowed | split; [ | split ] ].
  - intros s. repeat split.
    + destruct (occurs "/" (sanitize s)) eqn:O; [ | reflexivity].
      apply sanitize_keeps_allowed in O. discriminate.
    + destruct (occurs "." (sanitize s)) eqn:O; [ | reflexivity].
      apply sanitize_keeps_allowed in O. discriminate.
    + destruct (occurs " " (sanitize s)) eqn:O; [ | reflexivity].
      apply sanitize_keeps_allowed in O. discriminate.
  - intros s. induction s as [ | c s IH]; [reflexivity | ].
    cbn [sanitize]. destruct (isAlnumOrHyphen c) eqn:Hc; [ | exact IH].
    cbn [sanitize]. rewrite Hc, IH. reflexivity.
  - intros a b. induction a as [ | c a IH]; [reflexivity | ].
    cbn [append sanitize]. destruct (isAlnumOrHyphen c); rewrite IH; reflexivity.
Qed.

(** ** The wrapper [cropAndResizeImage] *)

Section Wrapper.
Context {num : Type} `{Number num}.
Variable env : Browser num.

(** X21. The cropped image that a successful [processImage] stores is the
    one that [cropAndResizeImage] returns for the same image and the box
    that [processImage] prefers, the texture box, or the garment box when
    there is no texture box. *)
Theorem cropAndResizeImage_agrees
    (s : App num) (base64 url : string) :
  appState (exec (processImage env base64) s) = SUCCESS ->
  croppedImage (exec (processImage env base64) s) = Some url ->
  exists details,
    detectGarment env base64 = Ok details /\
    cropAndResizeImage env base64
      match textureBox details with
      | Some b => b
      | None => box details
      end
      1024
    = Ok url.
Proof.
  destruct s as [state0 source0 cropped0 details0 crop0 error0 name0].
  unfold cropAndResizeImage. run_handler.
  destruct (detectGarment env base64) as [details | m1]; [ | discriminate].
  destruct (loadImage env base64) as [img | m2]; [ | discriminate].
  cbn [result_bind].
  destruct (performCrop env base64 _ 1024) as [url' | m3] eqn:Ecrop; [ | discriminate].
  intros _ E. injection E as ->. exists details. split; [reflexivity | exact Ecrop].
Qed.
End Wrapper.

Lemma cropAndResizeImage_agrees_witness :
  cropAndResizeImage (num := Q) sampleBrowser "data:image/png;base64,iVBORw0KGgo="
    exampleBox 1024
  = Ok "data:image/jpeg;base64,/9j/4AAQ".
Proof.
  destruct (cropAndResizeImage_agrees (num := Q) sampleBrowser initialApp
              "data:image/png;base64,iVBORw0KGgo=" "data:image/jpeg;base64,/9j/4AAQ"
              eq_refl eq_refl) as (details & Edetect & Ewrapper).
  injection Edetect as <-. exact Ewrapper.
Defined.
